(** * cf-utils: the CloudFormation stack lifecycle orchestrator

    A shallow embedding of [src/cloudFormation.js] (the third module of
    the bundle [src/src/parameterStore.js]): [upsertStack], [createStack],
    [updateStack], [applyChangeSet], [createChangeSet], [executeChangeSet],
    [deleteChangeSet], [deleteStack], [pollStack] and [pollChangeSet].

    The module talks to the provider, to S3, to the file system, to the
    operator and to the logger.  Every such call is an [Event] that records
    the request together with the reply; a computation is a function from
    the state of the outside world to an outcome, the next state of the
    world and the events it produced, in order.  The two polling loops have
    no bound in the source; here they take a number of rounds and stop with
    the outcome [Pending] when it is used up. *)

From Stdlib Require Import String Ascii List ZArith Bool Lia DecimalString.
Import ListNotations.
Local Open Scope string_scope.
Local Open Scope Z_scope.

(** ** JavaScript strings

    A string is a sequence of code units; the embedding keeps the code
    units below 256, which is what [Ascii.ascii] holds. *)

Module JsString.

Fixpoint chars (s : string) : list ascii :=
  match s with
  | EmptyString => []
  | String c s' => c :: chars s'
  end.

Fixpoint of_chars (l : list ascii) : string :=
  match l with
  | [] => EmptyString
  | c :: l' => String c (of_chars l')
  end.

(** [s.startsWith(sub)] *)
Fixpoint startsWith (s sub : string) : bool :=
  match sub, s with
  | EmptyString, _ => true
  | String _ _, EmptyString => false
  | String a sub', String b s' => Ascii.eqb a b && startsWith s' sub'
  end.

(** [s.indexOf(sub)]: the first position at which [sub] starts, -1 when
    there is none. *)
Fixpoint indexOf_from (i : Z) (s sub : string) : Z :=
  if startsWith s sub then i
  else match s with
       | EmptyString => -1
       | String _ s' => indexOf_from (i + 1) s' sub
       end.

Definition indexOf (s sub : string) : Z := indexOf_from 0 s sub.

(** [s.includes(sub)] *)
Definition includes (s sub : string) : bool := 0 <=? indexOf s sub.

(** [s.substring(0, n)] *)
Definition substring0 (n : nat) (s : string) : string := String.substring 0 n s.

(** What the claims call "contains": [sub] occurs somewhere in [s]. *)
Definition Contains (s sub : string) : Prop :=
  exists a b : string, s = a ++ sub ++ b.

(** What the claims call "ends with". *)
Definition EndsWith (s suffix : string) : Prop :=
  exists a : string, s = a ++ suffix.

(** Decimal rendering of an integer, as [String(n)] gives for an int32. *)
Definition of_Z (z : Z) : string := NilZero.string_of_int (Z.to_int z).

End JsString.

(** ** Regular expressions

    The two regular expressions of the module use literals, character
    classes, [?] and [*] only, so [RegExp.prototype.test] asks whether some
    substring belongs to the language of the expression.  Membership is
    decided with derivatives. *)

Module Regex.

Inductive re : Type :=
| Void : re
| Eps : re
| Class (f : ascii -> bool) : re
| Cat (r1 r2 : re) : re
| Alt (r1 r2 : re) : re
| Star (r : re) : re.

Definition Chr (c : ascii) : re := Class (Ascii.eqb c).
Definition Opt (r : re) : re := Alt r Eps.

(** A literal run of characters. *)
Fixpoint Lit (s : string) : re :=
  match s with
  | EmptyString => Eps
  | String c s' => Cat (Chr c) (Lit s')
  end.

(** Line terminators below 256: LF and CR. *)
Definition lineTerminator (c : ascii) : bool :=
  let n := nat_of_ascii c in
  (Nat.eqb n 10 || Nat.eqb n 13)%bool.

(** [\s] below 256: TAB, LF, VT, FF, CR, SP and NBSP. *)
Definition whiteSpace (c : ascii) : bool :=
  let n := nat_of_ascii c in
  ((Nat.leb 9 n && Nat.leb n 13) || Nat.eqb n 32 || Nat.eqb n 160)%bool.

(** [.] *)
Definition Dot : re := Class (fun c => negb (lineTerminator c)).
(** [\s] *)
Definition Space : re := Class whiteSpace.
Definition AnyChar : re := Class (fun _ => true).

Fixpoint nullable (r : re) : bool :=
  match r with
  | Void => false
  | Eps => true
  | Class _ => false
  | Cat r1 r2 => nullable r1 && nullable r2
  | Alt r1 r2 => nullable r1 || nullable r2
  | Star _ => true
  end.

Fixpoint deriv (c : ascii) (r : re) : re :=
  match r with
  | Void => Void
  | Eps => Void
  | Class f => if f c then Eps else Void
  | Cat r1 r2 =>
      if nullable r1 then Alt (Cat (deriv c r1) r2) (deriv c r2)
      else Cat (deriv c r1) r2
  | Alt r1 r2 => Alt (deriv c r1) (deriv c r2)
  | Star r1 => Cat (deriv c r1) (Star r1)
  end.

Fixpoint accepts (r : re) (l : list ascii) : bool :=
  match l with
  | [] => nullable r
  | c :: l' => accepts (deriv c r) l'
  end.

(** [/r/.test(s)]: some substring of [s] matches [r]. *)
Definition test (r : re) (s : string) : bool :=
  accepts (Cat (Star AnyChar) (Cat r (Star AnyChar))) (JsString.chars s).

(** [/r$/.test(s)]: some suffix of [s] matches [r]. *)
Definition test_to_end (r : re) (s : string) : bool :=
  accepts (Cat (Star AnyChar) r) (JsString.chars s).

(** The language of an expression. *)
Inductive Lang : re -> list ascii -> Prop :=
| L_Eps : Lang Eps []
| L_Class f c : f c = true -> Lang (Class f) [c]
| L_Cat r1 r2 l1 l2 : Lang r1 l1 -> Lang r2 l2 -> Lang (Cat r1 r2) (l1 ++ l2)
| L_AltL r1 r2 l : Lang r1 l -> Lang (Alt r1 r2) l
| L_AltR r1 r2 l : Lang r2 l -> Lang (Alt r1 r2) l
| L_StarNil r : Lang (Star r) []
| L_StarApp r l1 l2 : Lang r l1 -> Lang (Star r) l2 -> Lang (Star r) (l1 ++ l2).

End Regex.

(** ** Data model *)

Record StackParameter : Type := mkStackParameter { ParameterKey : string; ParameterValue : string }.

(** The request object that [upsertStack] builds and hands on.  Absent
    properties are [None]. *)
Record Params : Type := mkParams {
  StackName : string;
  Capabilities : option (list string);
  Parameters : option (list StackParameter);
  TemplateBody : option string;
  TemplateURL : option string;
  DisableRollback : option bool;
  ChangeSetName : option string;
  ChangeSetType : option string
}.

Definition set_TemplateBody (v : option string) (p : Params) : Params :=
  mkParams (StackName p) (Capabilities p) (Parameters p) v (TemplateURL p)
           (DisableRollback p) (ChangeSetName p) (ChangeSetType p).

Definition set_TemplateURL (v : option string) (p : Params) : Params :=
  mkParams (StackName p) (Capabilities p) (Parameters p) (TemplateBody p) v
           (DisableRollback p) (ChangeSetName p) (ChangeSetType p).

Definition set_DisableRollback (v : option bool) (p : Params) : Params :=
  mkParams (StackName p) (Capabilities p) (Parameters p) (TemplateBody p) (TemplateURL p)
           v (ChangeSetName p) (ChangeSetType p).

Definition set_ChangeSetName (v : option string) (p : Params) : Params :=
  mkParams (StackName p) (Capabilities p) (Parameters p) (TemplateBody p) (TemplateURL p)
           (DisableRollback p) v (ChangeSetType p).

Definition set_ChangeSetType (v : option string) (p : Params) : Params :=
  mkParams (StackName p) (Capabilities p) (Parameters p) (TemplateBody p) (TemplateURL p)
           (DisableRollback p) (ChangeSetName p) v.

(** [{ StackName: name }] *)
Definition stackParams (stackName : string) : Params :=
  mkParams stackName None None None None None None None.

(** [{ StackName: stackName, ChangeSetName: changeSetName }] *)
Definition changeSetParams (stackName changeSetName : string) : Params :=
  mkParams stackName None None None None None (Some changeSetName) None.

Record Output : Type := mkOutput { OutputKey : string; OutputValue : string }.

Record Stack : Type := mkStack {
  stack_StackName : string;
  StackStatus : string;
  Outputs : option (list Output)
}.

(** The reply to [DescribeStacksCommand]. *)
Record DescribeStacksOutput : Type := mkStacks { Stacks : list Stack }.

(** The reply to [DescribeChangeSetCommand]. *)
Record ChangeSetDescription : Type := mkChangeSet {
  cs_ChangeSetName : string;
  cs_StackName : string;
  Status : string;
  StatusReason : option string
}.

(** What may be attached to a thrown value as a property of its own. *)
Inductive Attachment : Type :=
| StackDetails (d : DescribeStacksOutput)
| ChangeSetDetails (cs : ChangeSetDescription)
| Property (key value : string).

(** A thrown value: an [Error] object with its [name], its [message] and
    what is attached to it. *)
Record JsError : Type := mkError {
  name : string;
  message : string;
  attached : list Attachment
}.

(** [new Error(msg)]: nothing is attached. *)
Definition Error (msg : string) : JsError := mkError "Error" msg [].

(** A [TypeError] of the engine. *)
Definition TypeError (msg : string) : JsError := mkError "TypeError" msg [].

(** [Error.prototype.toString] *)
Definition toString (e : JsError) : string :=
  if (name e =? "")%string then message e
  else if (message e =? "")%string then name e
  else name e ++ ": " ++ message e.

(** What a call to a collaborator comes back with: a rejection or a value. *)
Definition Result (T : Type) : Type := (JsError + T)%type.

(** The [options] argument of [upsertStack]. *)
Record Options : Type := mkOptions {
  review : option bool;
  s3Bucket : option string;
  s3Prefix : option string;
  containsTransforms : option bool
}.

Inductive OptionsArg : Type :=
| OptionsMissing : OptionsArg
| OptionsBoolean (b : bool) : OptionsArg
| OptionsObject (o : Options) : OptionsArg.

Inductive LogLevel : Type := level_info | level_warn.

Inductive LogArg : Type :=
| LogString (s : string)
| LogStackDetails (d : DescribeStacksOutput)
| LogChangeSet (cs : ChangeSetDescription).

(** A promise that a collaborator hands out, as far as its caller can
    tell: what it settles with, and when.  Times are compared and never
    measured: of two promises, the one with the smaller [settledAt]
    settles first. *)
Record Promise (T : Type) : Type := mkPromise {
  settledAt : nat;
  settlement : Result T
}.

Arguments mkPromise {T}.
Arguments settledAt {T}.
Arguments settlement {T}.

(** ** Events: every call that leaves the module, with its reply

    A call that is awaited on the spot is recorded with its reply.
    [s3.emptyBucket] is not: the call is recorded where it is made, with
    the promise that it hands back, which settles while the caller goes
    on. *)

Inductive Event : Type :=
| ReadFileSync (path : string) (reply : Result string)
| ExistsSync (path : string) (reply : bool)
| PutS3Object (Bucket Key Body : string) (reply : Result unit)
| EmptyBucket (bucketName : string) (promise : Promise unit)
| DescribeStacksCommand (stackName : string) (reply : Result DescribeStacksOutput)
| CreateStackCommand (params : Params) (reply : Result unit)
| UpdateStackCommand (params : Params) (reply : Result unit)
| CreateChangeSetCommand (params : Params) (reply : Result unit)
| ExecuteChangeSetCommand (params : Params) (reply : Result unit)
| DeleteChangeSetCommand (params : Params) (reply : Result unit)
| DescribeChangeSetCommand (changeSetName : option string) (stackName : string)
                           (reply : Result ChangeSetDescription)
| DeleteStackCommand (params : Params) (reply : Result unit)
| Prompt (reply : Result bool)
| DateNow (reply : Z)
| SetTimeout (ms : Z)
| Log (level : LogLevel) (args : list LogArg).

(** The outside world: how each collaborator answers in a state [W] of the
    world, and the state it leaves behind. *)
Record World (W : Type) : Type := mkWorld {
  fs_readFileSync : string -> W -> Result string * W;
  fs_existsSync : string -> W -> bool * W;
  s3_putS3Object : string -> string -> string -> W -> Result unit * W;
  s3_emptyBucket : string -> W -> Promise unit * W;
  cf_DescribeStacks : string -> W -> Result DescribeStacksOutput * W;
  cf_CreateStack : Params -> W -> Result unit * W;
  cf_UpdateStack : Params -> W -> Result unit * W;
  cf_CreateChangeSet : Params -> W -> Result unit * W;
  cf_ExecuteChangeSet : Params -> W -> Result unit * W;
  cf_DeleteChangeSet : Params -> W -> Result unit * W;
  cf_DescribeChangeSet : option string -> string -> W -> Result ChangeSetDescription * W;
  cf_DeleteStack : Params -> W -> Result unit * W;
  inquirer_prompt : W -> Result bool * W;
  Date_now : W -> Z * W
}.

Arguments fs_readFileSync {W}.
Arguments fs_existsSync {W}.
Arguments s3_putS3Object {W}.
Arguments s3_emptyBucket {W}.
Arguments cf_DescribeStacks {W}.
Arguments cf_CreateStack {W}.
Arguments cf_UpdateStack {W}.
Arguments cf_CreateChangeSet {W}.
Arguments cf_ExecuteChangeSet {W}.
Arguments cf_DeleteChangeSet {W}.
Arguments cf_DescribeChangeSet {W}.
Arguments cf_DeleteStack {W}.
Arguments inquirer_prompt {W}.
Arguments Date_now {W}.

(** ** Computations *)

(** How an [async] function ends: its promise is fulfilled, it is
    rejected, or the rounds granted to the polling loops ran out first. *)
Inductive Outcome (A : Type) : Type :=
| Resolved (a : A)
| Rejected (e : JsError)
| Pending.

Arguments Resolved {A}.
Arguments Rejected {A}.
Arguments Pending {A}.

Record Run (W A : Type) : Type := mkRun {
  outcome : Outcome A;
  final : W;
  trace : list Event
}.

Arguments mkRun {W A}.
Arguments outcome {W A}.
Arguments final {W A}.
Arguments trace {W A}.

(** [after pre r]: the run [r], with the events [pre] before its own. *)
Definition after {W A : Type} (pre : list Event) (r : Run W A) : Run W A :=
  mkRun (outcome r) (final r) (pre ++ trace r).

Definition M (W A : Type) : Type := W -> Run W A.

Definition ret {W A : Type} (a : A) : M W A := fun w => mkRun (Resolved a) w [].

Definition throw {W A : Type} (e : JsError) : M W A := fun w => mkRun (Rejected e) w [].

Definition pending {W A : Type} : M W A := fun w => mkRun Pending w [].

Definition bind {W A B : Type} (m : M W A) (k : A -> M W B) : M W B :=
  fun w =>
    let r := m w in
    match outcome r with
    | Resolved a => after (trace r) (k a (final r))
    | Rejected e => mkRun (Rejected e) (final r) (trace r)
    | Pending => mkRun Pending (final r) (trace r)
    end.

(** [try { m } catch (err) { ... }]: the rejection of [m] as a value. *)
Definition attempt {W A : Type} (m : M W A) : M W (Result A) :=
  fun w =>
    let r := m w in
    match outcome r with
    | Resolved a => mkRun (Resolved (inr a)) (final r) (trace r)
    | Rejected e => mkRun (Resolved (inl e)) (final r) (trace r)
    | Pending => mkRun Pending (final r) (trace r)
    end.

(** A call that cannot fail. *)
Definition call {W T : Type} (h : W -> T * W) (ev : T -> Event) : M W T :=
  fun w => let (t, w') := h w in mkRun (Resolved t) w' [ev t].

(** An awaited call: a rejection is thrown. *)
Definition send {W T : Type} (h : W -> Result T * W) (ev : Result T -> Event) : M W T :=
  fun w =>
    let (r, w') := h w in
    match r with
    | inl e => mkRun (Rejected e) w' [ev r]
    | inr t => mkRun (Resolved t) w' [ev r]
    end.

(** A call with nothing to wait for. *)
Definition emit {W : Type} (ev : Event) : M W unit :=
  fun w => mkRun (Resolved tt) w [ev].

Declare Scope js_scope.
Delimit Scope js_scope with js.
Notation "x <- m ;; k" := (bind m (fun x => k))
  (at level 61, m at next level, right associativity) : js_scope.
Notation "m ;; k" := (bind m (fun _ => k))
  (at level 61, right associativity) : js_scope.
Local Open Scope js_scope.

(** ** The module *)

(** [POLL_TIMEOUT], in milliseconds. *)
Definition POLL_TIMEOUT : Z := 5000.

(** [/Transform\"?\s*:\s*\"?AWS::Serverless/] *)
Definition quote : ascii := ascii_of_nat 34.

Definition transformRe : Regex.re :=
  Regex.Cat (Regex.Lit "Transform")
   (Regex.Cat (Regex.Opt (Regex.Chr quote))
    (Regex.Cat (Regex.Star Regex.Space)
     (Regex.Cat (Regex.Chr ":")
      (Regex.Cat (Regex.Star Regex.Space)
       (Regex.Cat (Regex.Opt (Regex.Chr quote))
                  (Regex.Lit "AWS::Serverless")))))).

(** [/.*Bucket$/], without its anchor: [Regex.test_to_end] supplies it. *)
Definition bucketRe : Regex.re :=
  Regex.Cat (Regex.Star Regex.Dot) (Regex.Lit "Bucket").

(** [x | 0] on an integer-valued number. *)
Definition ToInt32 (z : Z) : Z :=
  let m := z mod 2 ^ 32 in
  if m <? 2 ^ 31 then m else m - 2 ^ 32.

(** A value inside a template literal. *)
Definition interpolate (v : option string) : string :=
  match v with
  | Some s => s
  | None => "undefined"
  end.

(** Truthiness of a string property that may be absent. *)
Definition truthy (v : option string) : bool :=
  match v with
  | Some s => negb (s =? "")%string
  | None => false
  end.

(** [options.review] as a condition, and [options.review === true]; they
    agree on booleans. *)
Definition isTrue (v : option bool) : bool :=
  match v with
  | Some b => b
  | None => false
  end.

(** The first lines of [upsertStack]: a boolean stands for [{ review }]. *)
Definition normalizeOptions (options : OptionsArg) : Options :=
  match options with
  | OptionsBoolean b => mkOptions (Some b) None None None
  | OptionsObject o => o
  | OptionsMissing => mkOptions None None None None
  end.

(** The rejection that comes first in time among the [promises], with
    its time; of two that come at once, the earlier of the array. *)
Fixpoint firstRejection {T : Type} (promises : list (Promise T)) : option (nat * JsError) :=
  match promises with
  | [] => None
  | p :: rest =>
      match settlement p, firstRejection rest with
      | inl e, Some (t', e') =>
          if Nat.leb (settledAt p) t' then Some (settledAt p, e) else Some (t', e')
      | inl e, None => Some (settledAt p, e)
      | inr _, later => later
      end
  end.

(** The values of the promises that are fulfilled, in the order of the
    array. *)
Fixpoint fulfilments {T : Type} (promises : list (Promise T)) : list T :=
  match promises with
  | [] => []
  | p :: rest =>
      match settlement p with
      | inr t => t :: fulfilments rest
      | inl _ => fulfilments rest
      end
  end.

(** [await Promise.all(promises)], on promises that are under way: it is
    rejected as soon as one of them is, so with the rejection that comes
    first in time, whatever the others come to later; when all are
    fulfilled it is fulfilled with their values in the order of the
    array. *)
Definition Promise_all {W T : Type} (promises : list (Promise T)) : M W (list T) :=
  match firstRejection promises with
  | Some (_, e) => throw e
  | None => ret (fulfilments promises)
  end.

Section CloudFormation.

Context {W : Type}.
Variable world : World W.

Local Abbreviation M := (M W).

Definition log (level : LogLevel) (args : list LogArg) : M unit :=
  emit (Log level args).

(** [new Promise(resolve => setTimeout(..., ms))] *)
Definition setTimeout (ms : Z) : M unit := emit (SetTimeout ms).

Definition readFileSync (path : string) : M string :=
  send (fs_readFileSync world path) (ReadFileSync path).

Definition existsSync (path : string) : M bool :=
  call (fs_existsSync world path) (ExistsSync path).

Definition putS3Object (Bucket Key Body : string) : M unit :=
  send (s3_putS3Object world Bucket Key Body) (PutS3Object Bucket Key Body).

(** [s3.emptyBucket(name)], started; the promise it returns is kept. *)
Definition emptyBucket (bucketName : string) : M (Promise unit) :=
  call (s3_emptyBucket world bucketName) (EmptyBucket bucketName).

Definition sendDescribeStacks (stackName : string) : M DescribeStacksOutput :=
  send (cf_DescribeStacks world stackName) (DescribeStacksCommand stackName).

Definition sendCreateStack (params : Params) : M unit :=
  send (cf_CreateStack world params) (CreateStackCommand params).

Definition sendUpdateStack (params : Params) : M unit :=
  send (cf_UpdateStack world params) (UpdateStackCommand params).

Definition sendCreateChangeSet (params : Params) : M unit :=
  send (cf_CreateChangeSet world params) (CreateChangeSetCommand params).

Definition sendExecuteChangeSet (params : Params) : M unit :=
  send (cf_ExecuteChangeSet world params) (ExecuteChangeSetCommand params).

Definition sendDeleteChangeSet (params : Params) : M unit :=
  send (cf_DeleteChangeSet world params) (DeleteChangeSetCommand params).

Definition sendDescribeChangeSet (changeSetName : option string) (stackName : string)
  : M ChangeSetDescription :=
  send (cf_DescribeChangeSet world changeSetName stackName)
       (DescribeChangeSetCommand changeSetName stackName).

Definition sendDeleteStack (params : Params) : M unit :=
  send (cf_DeleteStack world params) (DeleteStackCommand params).

Definition prompt : M bool := send (inquirer_prompt world) Prompt.

Definition now : M Z := call (Date_now world) DateNow.

(** The [switch] of [pollStack] on [stack.StackStatus]. *)
Definition stackSucceeded (status : string) : bool :=
  ((status =? "CREATE_COMPLETE") || (status =? "UPDATE_COMPLETE"))%string.

Definition stackFailed (status : string) : bool :=
  ((status =? "ROLLBACK_COMPLETE") || (status =? "CREATE_FAILED")
   || (status =? "UPDATE_FAILED") || (status =? "DELETE_FAILED")
   || (status =? "UPDATE_ROLLBACK_COMPLETE"))%string.

(** [pollStack(params)]; one round per describe. *)
Fixpoint pollStack (rounds : nat) (params : Params) : M (option DescribeStacksOutput) :=
  match rounds with
  | O => pending
  | S rounds' =>
      r <- attempt (sendDescribeStacks (StackName params)) ;;
      match r with
      | inl err =>
          if 0 <=? JsString.indexOf (message err) "does not exist" then
            log level_info [LogString "Stack deleted or never existed."] ;;
            ret None
          else throw err
      | inr data =>
          match Stacks data with
          | [] => throw (TypeError "Cannot read properties of undefined (reading 'StackStatus')")
          | stack :: _ =>
              if stackSucceeded (StackStatus stack) then
                log level_info [LogString "Stack operation completed"] ;;
                ret (Some data)
              else if stackFailed (StackStatus stack) then
                log level_warn [LogStackDetails data] ;;
                throw (Error "Stack operation failed")
              else
                log level_info
                    [LogString ("Waiting for stack operation to complete. This may take some time - "
                                ++ StackStatus stack)] ;;
                setTimeout POLL_TIMEOUT ;;
                pollStack rounds' params
          end
      end
  end.

(** [pollChangeSet(params)]; one round per describe. *)
Fixpoint pollChangeSet (rounds : nat) (params : Params) : M (option ChangeSetDescription) :=
  match rounds with
  | O => pending
  | S rounds' =>
      r <- attempt (sendDescribeChangeSet (ChangeSetName params) (StackName params)) ;;
      match r with
      | inl err =>
          if 0 <=? JsString.indexOf (message err) "does not exist" then
            log level_info [LogString "Change set deleted or never existed."] ;;
            ret None
          else throw err
      | inr cs =>
          if (Status cs =? "CREATE_COMPLETE")%string then
            log level_info [LogString "Change set created"] ;;
            ret (Some cs)
          else if ((Status cs =? "UPDATE_COMPLETE") || (Status cs =? "DELETE_COMPLETE"))%string then
            ret (Some cs)
          else if (Status cs =? "FAILED")%string then
            match StatusReason cs with
            | None => throw (TypeError "Cannot read properties of undefined (reading 'indexOf')")
            | Some reason =>
                if (0 <=? JsString.indexOf reason "No updates are to be performed")
                   || (0 <=? JsString.indexOf reason "didn't contain changes") then
                  log level_info [LogString "No updates are to be performed"] ;;
                  ret None
                else
                  log level_warn [LogChangeSet cs] ;;
                  throw (Error "Changeset creation failed")
            end
          else
            log level_info [LogString ("Waiting for change set to be created - " ++ Status cs)] ;;
            setTimeout POLL_TIMEOUT ;;
            pollChangeSet rounds' params
      end
  end.

(** [createStack(params)].  The assignment to [params.DisableRollback]
    changes the caller's object; the changed object is what is sent and
    polled. *)
Definition createStack (rounds : nat) (params : Params) : M (option DescribeStacksOutput) :=
  let params := set_DisableRollback (Some true) params in
  sendCreateStack params ;;
  pollStack rounds params.

(** [updateStack(params)] *)
Definition updateStack (rounds : nat) (params : Params) : M (option DescribeStacksOutput) :=
  r <- attempt (sendUpdateStack params) ;;
  match r with
  | inl err =>
      if 0 <=? JsString.indexOf (toString err) "No updates are to be performed" then
        log level_info [LogString "There are no changes to apply, continuing...."]
      else throw err
  | inr _ => ret tt
  end ;;
  pollStack rounds params.

(** [generateChangeSetName()] *)
Definition generateChangeSetName : M string :=
  t <- now ;;
  ret ("cf-utils-cloudformation-upsert-stack-" ++ JsString.of_Z (ToInt32 (Z.quot t 1000))).

(** [createChangeSet(params)] *)
Definition createChangeSet (rounds : nat) (params : Params) : M (option ChangeSetDescription) :=
  sendCreateChangeSet params ;;
  pollChangeSet rounds params.

(** [executeChangeSet(params)] *)
Definition executeChangeSet (rounds : nat) (params : Params) : M (option DescribeStacksOutput) :=
  sendExecuteChangeSet params ;;
  pollStack rounds params.

(** [deleteChangeSet(params)] *)
Definition deleteChangeSet (rounds : nat) (params : Params) : M (option ChangeSetDescription) :=
  sendDeleteChangeSet params ;;
  pollChangeSet rounds params.

(** [applyChangeSet(params)] *)
Definition applyChangeSet (rounds : nat) (params : Params) : M (option DescribeStacksOutput) :=
  cs <- createChangeSet rounds params ;;
  match cs with
  | Some cs =>
      let csParams := changeSetParams (cs_StackName cs) (cs_ChangeSetName cs) in
      executeChangeSet rounds csParams
  | None => ret None
  end.

(** The loop of [deleteStack] over the outputs: the buckets are emptied
    as they are met, and the promises collected. *)
Fixpoint emptyBuckets (outputs : list Output) : M (list (Promise unit)) :=
  match outputs with
  | [] => ret []
  | output :: rest =>
      if Regex.test_to_end bucketRe (OutputKey output) then
        log level_info [LogString "Emptying S3 bucket"; LogString (OutputValue output)] ;;
        p <- emptyBucket (OutputValue output) ;;
        ps <- emptyBuckets rest ;;
        ret (p :: ps)
      else emptyBuckets rest
  end.

(** [deleteStack(name)] *)
Definition deleteStack (rounds : nat) (stackName : string) : M (option DescribeStacksOutput) :=
  let params := stackParams stackName in
  r <- attempt (sendDescribeStacks stackName) ;;
  match r with
  | inl err =>
      if JsString.includes (message err) "does not exist" then
        log level_info [LogString "Stack already deleted or never existed."] ;;
        ret None
      else throw err
  | inr data =>
      match Stacks data with
      | [] => throw (TypeError "Cannot read properties of undefined (reading 'Outputs')")
      | stack :: _ =>
          s3Operations <- match Outputs stack with
                          | Some outputs => emptyBuckets outputs
                          | None => ret []
                          end ;;
          Promise_all s3Operations ;;
          sendDeleteStack params ;;
          pollStack rounds params
      end
  end.

(** [containsTransforms], as [upsertStack] works it out: the value that
    [options] holds when it has one, a search of the script's text for the
    serverless transform otherwise. *)
Definition detectTransforms (options : Options) (script : string) : M bool :=
  match containsTransforms options with
  | Some b => ret b
  | None => body <- readFileSync script ;; ret (Regex.test transformRe body)
  end.

(** The request that [upsertStack] builds: the template by reference when
    the script is an S3 address, inline otherwise. *)
Definition buildParams (stackName script : string) (parameters : list StackParameter)
  : M Params :=
  let params :=
    mkParams stackName
             (Some ["CAPABILITY_IAM"; "CAPABILITY_NAMED_IAM"; "CAPABILITY_AUTO_EXPAND"])
             (Some parameters) None None None None None in
  if (JsString.substring0 10 script =? "https://s3")%string then
    ret (set_TemplateURL (Some script) params)
  else
    found <- existsSync script ;;
    if negb found then throw (Error (script ++ " does not exist!"))
    else body <- readFileSync script ;;
         ret (set_TemplateBody (Some body) params).

(** [Object.assign({}, params, { ChangeSetName: generateChangeSetName(),
    ChangeSetType: changeSetType })], after [delete params.DisableRollback]. *)
Definition changeSetRequest (changeSetType changeSetName : string) (params : Params) : Params :=
  set_ChangeSetType (Some changeSetType)
    (set_ChangeSetName (Some changeSetName) (set_DisableRollback None params)).

(** Deployment through a change set of the given type, as both branches of
    [upsertStack] write it out. *)
Definition deployViaChangeSet (rounds : nat) (changeSetType : string) (params : Params)
  : M (option DescribeStacksOutput) :=
  log level_info [LogString "Stack contains transforms, deploying via change set..."] ;;
  changeSetName <- generateChangeSetName ;;
  applyChangeSet rounds (changeSetRequest changeSetType changeSetName params).

(** The closure [executeUpdate] of [upsertStack]. *)
Definition executeUpdate (rounds : nat) (containsTransforms : bool) (params : Params)
  : M (option DescribeStacksOutput) :=
  if containsTransforms then deployViaChangeSet rounds "UPDATE" params
  else updateStack rounds params.

(** The [catch] block of [upsertStack]: the describe was rejected. *)
Definition createPath (rounds : nat) (containsTransforms : bool) (params : Params)
  : M (option DescribeStacksOutput) :=
  if containsTransforms then deployViaChangeSet rounds "CREATE" params
  else createStack rounds params.

(** [{ StackName: params.StackName, ChangeSetName: 'cf-utils-' +
    params.StackName + '-preview' }] *)
Definition previewParams (params : Params) : Params :=
  changeSetParams (StackName params) ("cf-utils-" ++ StackName params ++ "-preview").

(** What [upsertStack] does once the describe has succeeded. *)
Definition updatePath (rounds : nat) (review : bool) (containsTransforms : bool)
           (params : Params) : M (option DescribeStacksOutput) :=
  if review then
    log level_info [LogString "Stack exists, creating changeset for review..."] ;;
    let csParams := previewParams params in
    cs <- createChangeSet rounds (set_ChangeSetName (ChangeSetName csParams) params) ;;
    match cs with
    | Some cs =>
        log level_info [LogChangeSet cs] ;;
        performUpdate <- prompt ;;
        log level_info [LogString "Cleaning up review change set...."] ;;
        deleteChangeSet rounds csParams ;;
        if (performUpdate : bool) then
          log level_info
              [LogString "Reviewer has accepted updates, continuing with stack update..."] ;;
          executeUpdate rounds containsTransforms params
        else throw (Error "Reviewer rejected stack update")
    | None =>
        log level_info [LogString "There are no changes to apply, continuing...."] ;;
        pollStack rounds params
    end
  else
    log level_info [LogString "Stack exists, updating..."] ;;
    executeUpdate rounds containsTransforms params.

(** [upsertStack(name, script, parameters, options)].  The call to itself
    after the upload uses up one round. *)
Fixpoint upsertStack (rounds : nat) (stackName script : string)
         (parameters : list StackParameter) (options : OptionsArg)
  : M (option DescribeStacksOutput) :=
  match rounds with
  | O => pending
  | S rounds' =>
      let options := normalizeOptions options in
      containsTransforms <- detectTransforms options script ;;
      if truthy (s3Bucket options) then
        putS3Object (interpolate (s3Bucket options))
                    (interpolate (s3Prefix options) ++ script) script ;;
        upsertStack rounds' stackName
          ("https://s3.amazonaws.com/" ++ interpolate (s3Bucket options) ++ "/"
           ++ interpolate (s3Prefix options) ++ script)
          parameters
          (OptionsObject (mkOptions (Some (isTrue (review options))) None None
                                    (Some containsTransforms)))
      else
        params <- buildParams stackName script parameters ;;
        r <- attempt (sendDescribeStacks stackName) ;;
        match r with
        | inl err => createPath rounds' containsTransforms params
        | inr _ => updatePath rounds' (isTrue (review options)) containsTransforms params
        end
  end.

End CloudFormation.

(** ** Kinds of events *)

(** Events that a stack poll may produce. *)
Definition stackPollEvent (ev : Event) : Prop :=
  match ev with
  | DescribeStacksCommand _ _ | Log _ _ | SetTimeout _ => True
  | _ => False
  end.

(** Events that a change-set poll may produce. *)
Definition changeSetPollEvent (ev : Event) : Prop :=
  match ev with
  | DescribeChangeSetCommand _ _ _ | Log _ _ | SetTimeout _ => True
  | _ => False
  end.

(** Requests that change something at the provider. *)
Definition isMutation (ev : Event) : bool :=
  match ev with
  | CreateStackCommand _ _ | UpdateStackCommand _ _ | DeleteStackCommand _ _
  | CreateChangeSetCommand _ _ | ExecuteChangeSetCommand _ _ | DeleteChangeSetCommand _ _ => true
  | _ => false
  end.

(** The requests that change a stack without a change set. *)
Definition isDirectMutation (ev : Event) : bool :=
  match ev with
  | CreateStackCommand _ _ | UpdateStackCommand _ _ => true
  | _ => false
  end.

(** The provider mutations of a trace, in order. *)
Definition mutations (t : list Event) : list Event := filter isMutation t.

(** The buckets a trace empties, each with the promise of it, in
    order. *)
Fixpoint emptyings (t : list Event) : list (string * Promise unit) :=
  match t with
  | [] => []
  | EmptyBucket bucketName promise :: t' => (bucketName, promise) :: emptyings t'
  | _ :: t' => emptyings t'
  end.

(** Every run of [m] produces events of the kind [P] only. *)
Definition emits {W A : Type} (P : Event -> Prop) (m : M W A) : Prop :=
  forall w, Forall P (trace (m w)).

(** The outputs that [deleteStack] takes for buckets. *)
Definition bucketOutputs (outputs : list Output) : list Output :=
  filter (fun output => Regex.test_to_end bucketRe (OutputKey output)) outputs.

(** What [deleteStack] logs and asks for, for one bucket and the promise
    of its emptying. *)
Definition emptyingOf (bucket : string * Promise unit) : list Event :=
  [Log level_info [LogString "Emptying S3 bucket"; LogString (fst bucket)];
   EmptyBucket (fst bucket) (snd bucket)].

(** Events of the file system. *)
Definition fileEvent (ev : Event) : Prop :=
  match ev with
  | ReadFileSync _ _ | ExistsSync _ _ => True
  | _ => False
  end.

(** The change set asked for with [request] is executed or deleted
    somewhere in the trace [t]. *)
Definition changeSetSettled (t : list Event) (request : Params) : Prop :=
  exists target reply,
    ChangeSetName target = ChangeSetName request
    /\ (In (ExecuteChangeSetCommand target reply) t
        \/ In (DeleteChangeSetCommand target reply) t).

(** Every change set that the trace [t] creates is executed or deleted
    in it. *)
Definition changeSetsOwned (t : list Event) : Prop :=
  forall request,
    In (CreateChangeSetCommand request (inr tt)) t -> changeSetSettled t request.

(** [DescribeStacksCommand] events. *)
Definition isDescribeStacks (ev : Event) : bool :=
  match ev with
  | DescribeStacksCommand _ _ => true
  | _ => false
  end.

(** An event other than a direct mutation. *)
Definition indirect (ev : Event) : Prop := isDirectMutation ev = false.

(** ** The change-set path, request by request

    The deployments of [upsertStack] that go through change sets, as the
    specification tells them.  They are written with the requests to the
    provider, the prompt and the two polls alone, and with none of the
    functions that [upsertStack] calls to make them. *)

Section Paths.

Context {W : Type}.
Variable world : World W.

(** The change set asked for with [request] is created; once the provider
    has accepted it, it is polled; the description that the poll is
    fulfilled with names the change set that is then executed, and after
    an accepted execution the stack is polled.  A rejected request ends
    the run, and so does a poll that is not fulfilled with a
    description. *)
Definition createdThenExecuted (rounds : nat) (request : Params) (w : W)
  : Run W (option DescribeStacksOutput) :=
  let created := cf_CreateChangeSet world request w in
  after [CreateChangeSetCommand request (fst created)]
    match fst created with
    | inl err => mkRun (Rejected err) (snd created) []
    | inr _ =>
        let polled := pollChangeSet world rounds request (snd created) in
        after (trace polled)
          match outcome polled with
          | Resolved (Some cs) =>
              let target := changeSetParams (cs_StackName cs) (cs_ChangeSetName cs) in
              let executed := cf_ExecuteChangeSet world target (final polled) in
              after [ExecuteChangeSetCommand target (fst executed)]
                match fst executed with
                | inl err => mkRun (Rejected err) (snd executed) []
                | inr _ => pollStack world rounds target (snd executed)
                end
          | Resolved None => mkRun (Resolved None) (final polled) []
          | Rejected err => mkRun (Rejected err) (final polled) []
          | Pending => mkRun Pending (final polled) []
          end
    end.

(** The request for a change set of the type [kind] that deploys what
    [params] asks for: the same stack, capabilities, parameters and
    template, under the name [changeSetName], and no word on rollback. *)
Definition changeSetFor (kind changeSetName : string) (params : Params) : Params :=
  mkParams (StackName params) (Capabilities params) (Parameters params)
           (TemplateBody params) (TemplateURL params) None
           (Some changeSetName) (Some kind).

(** A deployment through a change set of the type [kind], named after
    the second in which it is asked for. *)
Definition deployedAs (rounds : nat) (kind : string) (params : Params) (w : W)
  : Run W (option DescribeStacksOutput) :=
  let asked := Date_now world w in
  let changeSetName :=
    "cf-utils-cloudformation-upsert-stack-"
    ++ JsString.of_Z (ToInt32 (Z.quot (fst asked) 1000)) in
  after [Log level_info [LogString "Stack contains transforms, deploying via change set..."];
         DateNow (fst asked)]
        (createdThenExecuted rounds (changeSetFor kind changeSetName params) (snd asked)).

(** The request for the preview of an update: what [params] asks for,
    under the name of the preview. *)
Definition previewFor (params : Params) : Params :=
  mkParams (StackName params) (Capabilities params) (Parameters params)
           (TemplateBody params) (TemplateURL params) (DisableRollback params)
           (Some ("cf-utils-" ++ StackName params ++ "-preview")) (ChangeSetType params).

(** A reviewed update.  The preview is created and polled.  The
    description that the poll is fulfilled with is shown and the operator
    is asked; once the operator has answered, the preview is deleted and
    polled, and then the update goes on as [update] when the answer was
    yes and the call is rejected when it was no.  When the poll of the
    preview is fulfilled with nothing the stack is polled.  A rejected
    request or prompt ends the run, and so does a poll that is not
    fulfilled. *)
Definition reviewedThen (rounds : nat) (params : Params)
           (update : M W (option DescribeStacksOutput)) (w : W)
  : Run W (option DescribeStacksOutput) :=
  let preview := previewFor params in
  let target := changeSetParams (StackName params)
                                ("cf-utils-" ++ StackName params ++ "-preview") in
  let created := cf_CreateChangeSet world preview w in
  after [Log level_info [LogString "Stack exists, creating changeset for review..."];
         CreateChangeSetCommand preview (fst created)]
    match fst created with
    | inl err => mkRun (Rejected err) (snd created) []
    | inr _ =>
        let polled := pollChangeSet world rounds preview (snd created) in
        after (trace polled)
          match outcome polled with
          | Resolved (Some cs) =>
              let asked := inquirer_prompt world (final polled) in
              after [Log level_info [LogChangeSet cs]; Prompt (fst asked)]
                match fst asked with
                | inl err => mkRun (Rejected err) (snd asked) []
                | inr performUpdate =>
                    let deleted := cf_DeleteChangeSet world target (snd asked) in
                    after [Log level_info [LogString "Cleaning up review change set...."];
                           DeleteChangeSetCommand target (fst deleted)]
                      match fst deleted with
                      | inl err => mkRun (Rejected err) (snd deleted) []
                      | inr _ =>
                          let gone := pollChangeSet world rounds target (snd deleted) in
                          after (trace gone)
                            match outcome gone with
                            | Resolved _ =>
                                if (performUpdate : bool) then
                                  after [Log level_info
                                             [LogString "Reviewer has accepted updates, continuing with stack update..."]]
                                        (update (final gone))
                                else mkRun (Rejected (Error "Reviewer rejected stack update"))
                                           (final gone) []
                            | Rejected err => mkRun (Rejected err) (final gone) []
                            | Pending => mkRun Pending (final gone) []
                            end
                      end
                end
          | Resolved None =>
              after [Log level_info [LogString "There are no changes to apply, continuing...."]]
                    (pollStack world rounds params (final polled))
          | Rejected err => mkRun (Rejected err) (final polled) []
          | Pending => mkRun Pending (final polled) []
          end
    end.

(** What follows the first describe of the stack when the template holds
    a transform: a change set of the type CREATE when the describe was
    rejected, one of the type UPDATE when it was accepted, behind the
    review when there is one. *)
Definition transformsDeployed (rounds : nat) (reviewed : bool)
           (reply : Result DescribeStacksOutput) (params : Params) (w : W)
  : Run W (option DescribeStacksOutput) :=
  match reply with
  | inl _ => deployedAs rounds "CREATE" params w
  | inr _ =>
      if reviewed then reviewedThen rounds params (deployedAs rounds "UPDATE" params) w
      else after [Log level_info [LogString "Stack exists, updating..."]]
                 (deployedAs rounds "UPDATE" params w)
  end.

End Paths.

(** ** Settling

    What the provider shows of a stack over time, as far as a poll can
    see. *)

Section Settling.

Context {W : Type}.
Variable world : World W.

(** From the state [w] of the world on, the stack is seen [waits] times
    in a status that is neither stable nor failed; the world is then in
    the state [w']. *)
Inductive StackWaits (stackName : string) : nat -> W -> W -> Prop :=
| waits_over (w : W) : StackWaits stackName 0 w w
| waits_on (w w1 w' : W) (seen : DescribeStacksOutput)
           (stack : Stack) (rest : list Stack) (waits : nat) :
    cf_DescribeStacks world stackName w = (inr seen, w1) ->
    Stacks seen = stack :: rest ->
    stackSucceeded (StackStatus stack) = false ->
    stackFailed (StackStatus stack) = false ->
    StackWaits stackName waits w1 w' ->
    StackWaits stackName (S waits) w w'.

(** After [waits] such observations the stack is seen in a stable status,
    with the description [data]. *)
Definition StackSettles (stackName : string) (waits : nat) (w : W)
           (data : DescribeStacksOutput) (w' : W) : Prop :=
  exists (w1 : W) (stack : Stack) (rest : list Stack),
    StackWaits stackName waits w w1
    /\ cf_DescribeStacks world stackName w1 = (inr data, w')
    /\ Stacks data = stack :: rest
    /\ stackSucceeded (StackStatus stack) = true.

(** After [waits] such observations the stack is gone: the describe is
    rejected with [err], whose message says that the stack does not
    exist. *)
Definition StackVanishes (stackName : string) (waits : nat) (w : W)
           (err : JsError) (w' : W) : Prop :=
  exists w1 : W,
    StackWaits stackName waits w w1
    /\ cf_DescribeStacks world stackName w1 = (inl err, w')
    /\ JsString.Contains (message err) "does not exist".

(** From the state [w] of the world on, the emptyings of the buckets
    [names], asked for one after the other, come back with the
    [promises]; the world is then in the state [w']. *)
Inductive Empties : list string -> W -> list (Promise unit) -> W -> Prop :=
| empties_none (w : W) : Empties [] w [] w
| empties_next (name : string) (names : list string) (w w1 w' : W)
               (promise : Promise unit) (promises : list (Promise unit)) :
    s3_emptyBucket world name w = (promise, w1) ->
    Empties names w1 promises w' ->
    Empties (name :: names) w (promise :: promises) w'.

End Settling.

(** ** A scripted world

    The world that the repository's tests build with their mocks: the
    replies of each kind are queued and handed out in order.  When a queue
    is empty a describe answers that the resource does not exist, a
    command succeeds and the operator declines. *)

Module Scripted.

Record Script : Type := mkScript {
  files : list (string * string);
  stacks : list (Result DescribeStacksOutput);
  changeSets : list (Result ChangeSetDescription);
  acks : list (Result unit);
  answers : list (Result bool);
  clock : Z
}.

Definition notFound : JsError := Error "does not exist".

Fixpoint lookup (path : string) (fs : list (string * string)) : option string :=
  match fs with
  | [] => None
  | (p, body) :: fs' => if (p =? path)%string then Some body else lookup path fs'
  end.

Definition readFile (path : string) (s : Script) : Result string * Script :=
  match lookup path (files s) with
  | Some body => (inr body, s)
  | None => (inl (Error ("ENOENT: no such file or directory, open '" ++ path ++ "'")), s)
  end.

Definition exists_ (path : string) (s : Script) : bool * Script :=
  match lookup path (files s) with
  | Some _ => (true, s)
  | None => (false, s)
  end.

Definition describeStacks (_ : string) (s : Script) : Result DescribeStacksOutput * Script :=
  match stacks s with
  | [] => (inl notFound, s)
  | r :: rest => (r, mkScript (files s) rest (changeSets s) (acks s) (answers s) (clock s))
  end.

Definition describeChangeSet (_ : option string) (_ : string) (s : Script)
  : Result ChangeSetDescription * Script :=
  match changeSets s with
  | [] => (inl notFound, s)
  | r :: rest => (r, mkScript (files s) (stacks s) rest (acks s) (answers s) (clock s))
  end.

Definition ack (s : Script) : Result unit * Script :=
  match acks s with
  | [] => (inr tt, s)
  | r :: rest => (r, mkScript (files s) (stacks s) (changeSets s) rest (answers s) (clock s))
  end.

Definition answer (s : Script) : Result bool * Script :=
  match answers s with
  | [] => (inr false, s)
  | r :: rest => (r, mkScript (files s) (stacks s) (changeSets s) (acks s) rest (clock s))
  end.

(** An emptying is answered as a command is, and takes as long as
    [lasts] says of the bucket. *)
Definition emptying (lasts : string -> nat) (bucketName : string) (s : Script)
  : Promise unit * Script :=
  (mkPromise (lasts bucketName) (fst (ack s)), snd (ack s)).

Definition worldWhere (lasts : string -> nat) : World Script :=
  mkWorld Script
    readFile exists_
    (fun _ _ _ => ack) (emptying lasts)
    describeStacks
    (fun _ => ack) (fun _ => ack) (fun _ => ack) (fun _ => ack) (fun _ => ack)
    describeChangeSet
    (fun _ => ack)
    answer
    (fun s => (clock s, s)).

(** The world in which every emptying takes the same time. *)
Definition world : World Script := worldWhere (fun _ => 0%nat).

(** A stack description with one stack in the given status. *)
Definition stackIn (stackName status : string) (outputs : option (list Output))
  : DescribeStacksOutput :=
  mkStacks [mkStack stackName status outputs].

End Scripted.

(** ** Fixtures of the repository's tests *)

Module Fixtures.
Import Scripted.

Definition plain : string := "/path/to/script.yaml".
Definition withTransform : string := "/path/to/script-Transform.yaml".

Definition disk : list (string * string) :=
  [ (plain, "Resources: {}");
    (withTransform, "Transform: " ++ String quote ("AWS::Serverless" ++ String quote "")) ].

Definition inputs : list StackParameter :=
  [mkStackParameter "Parameter1" "Value1"; mkStackParameter "Parameter2" "Value2"].

(** A world in which the describes are answered with [replies]. *)
Definition describing (replies : list (Result DescribeStacksOutput)) : Script :=
  mkScript [] replies [] [] [] 0.

(** A world in which the change-set describes are answered with [replies]. *)
Definition describingChangeSets (replies : list (Result ChangeSetDescription)) : Script :=
  mkScript [] [] replies [] [] 0.

Definition failedCreate : DescribeStacksOutput :=
  stackIn "StackName" "CREATE_FAILED" None.

Definition rolledBack : DescribeStacksOutput :=
  stackIn "StackName" "ROLLBACK_COMPLETE" (Some [mkOutput "DataBucket" "data"]).

Definition failedChangeSet (reason : string) : ChangeSetDescription :=
  mkChangeSet "ChangeSetName" "StackName" "FAILED" (Some reason).


Definition updated : DescribeStacksOutput := stackIn "StackName" "UPDATE_COMPLETE" None.

Definition created : DescribeStacksOutput := stackIn "StackName" "CREATE_COMPLETE" None.

Definition deleting : DescribeStacksOutput := stackIn "StackName" "DELETE_IN_PROGRESS" None.

(** The world of the test "upserts stack - stack does not exist - create
    no transforms": the first describe is rejected with an error that says
    nothing about the stack. *)
Definition describeFails : Script :=
  mkScript disk [inl (Error "Some error thrown"); inr created] [] [] [] 0.

Definition dataOutputs : list Output :=
  [mkOutput "Property1" "Value1"; mkOutput "DataBucket" "data-bucket";
   mkOutput "bucket" "lower-case"; mkOutput "LogsBucket" "logs-bucket";
   mkOutput "BucketArn" "arn"].

(** What the provider says of a change set that changes nothing. *)
Definition nothingToChange : ChangeSetDescription :=
  failedChangeSet "The submitted information didn't contain changes. Submit different information to create a change set.".

(** A stack that does not exist yet, and a template with a transform whose
    change set turns out empty. *)
Definition emptyCreate : Script :=
  mkScript disk [] [inr nothingToChange] [] [] 1700000000123.

(** A stack that exists, and a review whose preview change set turns out
    empty. *)
Definition emptyPreview : Script :=
  mkScript disk [inr created; inr created] [inr nothingToChange] [] [] 0.

(** A stack that exists, a preview change set that is complete, and a
    reviewer who declines. *)
Definition declinedReview : Script :=
  mkScript disk [inr created]
           [inr (mkChangeSet "cf-utils-StackName-preview" "StackName" "CREATE_COMPLETE" None)]
           [] [inr false] 0.

(** A stack that exists, a preview change set that is complete, and a
    prompt that fails before the reviewer has answered. *)
Definition interruptedReview : Script :=
  mkScript disk [inr created]
           [inr (mkChangeSet "cf-utils-StackName-preview" "StackName" "CREATE_COMPLETE" None)]
           [] [inl (Error "User force closed the prompt")] 0.

(** A stack that does not exist yet, and a template with a transform whose
    change set the provider fails to create. *)
Definition failedCreation : Script :=
  mkScript disk [] [inr (failedChangeSet "Template format error")] [] [] 1700000000123.

(** The request that [upsertStack] builds for the plain template. *)
Definition plainRequest : Params :=
  mkParams "StackName"
           (Some ["CAPABILITY_IAM"; "CAPABILITY_NAMED_IAM"; "CAPABILITY_AUTO_EXPAND"])
           (Some inputs) (Some "Resources: {}") None None None None.

(** The request that [upsertStack] builds for the template with a
    transform. *)
Definition transformRequest : Params :=
  mkParams "StackName"
           (Some ["CAPABILITY_IAM"; "CAPABILITY_NAMED_IAM"; "CAPABILITY_AUTO_EXPAND"])
           (Some inputs)
           (Some ("Transform: " ++ String quote ("AWS::Serverless" ++ String quote "")))
           None None None None.

(** The world of the test "upserts stack - updating stack with
    transforms". *)
Definition updateWithTransform : Script :=
  mkScript disk [inr created; inr updated]
           [inr (mkChangeSet "cf-utils-cloudformation-upsert-stack-1700000000" "StackName"
                             "UPDATE_COMPLETE" None)]
           [] [] 1700000000123.

End Fixtures.


From Stdlib Require Import DecimalZ DecimalPos.

(** * Reading a stack

    [describeStack], [describeOutput] and [extractOutput] of
    [src/cloudFormation.js]. *)

(** ** Plain objects

    An object created by [{}] whose values are primitives, as far as its
    own properties go: the keys with their values, in the order in which
    the properties were created.  (The order in which the engine
    enumerates them puts array indices first; nothing here depends on
    it.) *)

Module JsObject.

Section JsObject.

Context {V : Type}.

Definition t : Type := list (string * V).

(** [Object.hasOwn(o, key) ? o[key] : undefined] *)
Fixpoint get (key : string) (o : t) : option V :=
  match o with
  | [] => None
  | (k, v) :: rest => if (k =? key)%string then Some v else get key rest
  end.

(** The property [key] of [o] becomes [value]: in place when [o] has
    it, as its newest property otherwise. *)
Fixpoint define (key : string) (value : V) (o : t) : t :=
  match o with
  | [] => [(key, value)]
  | (k, v) :: rest =>
      if (k =? key)%string then (k, value) :: rest else (k, v) :: define key value rest
  end.

(** [o[key] = value].  The key [__proto__] is an accessor that the
    object inherits; its setter does nothing when it is handed a
    primitive. *)
Definition set (key : string) (value : V) (o : t) : t :=
  if (key =? "__proto__")%string then o else define key value o.

End JsObject.

Arguments t : clear implicits.

End JsObject.

(** [extractOutput(stack)]; [stack] is [None] when the caller hands over
    [undefined]. *)
Definition extractOutput (stack : option Stack) : Result (JsObject.t string) :=
  match stack with
  | None => inl (TypeError "Cannot read properties of undefined (reading 'Outputs')")
  | Some stack =>
      match Outputs stack with
      | None => inl (TypeError "Cannot read properties of undefined (reading 'reduce')")
      | Some outputs =>
          inr (fold_left (fun map output =>
                            JsObject.set (OutputKey output) (OutputValue output) map)
                         outputs [])
      end
  end.

(** The last output of a list that has the key [key]. *)
Definition lastOutput (key : string) (outputs : list Output) : option Output :=
  find (fun output => (OutputKey output =? key)%string) (rev outputs).

Section Describing.

Context {W : Type}.
Variable world : World W.

Local Abbreviation M := (M W).

(** [describeStack(name)]: [data.Stacks[0]], which is [undefined] when
    the list is empty. *)
Definition describeStack (stackName : string) : M (option Stack) :=
  data <- sendDescribeStacks world stackName ;;
  ret (hd_error (Stacks data)).

(** [describeOutput(name)] *)
Definition describeOutput (stackName : string) : M (JsObject.t string) :=
  data <- describeStack stackName ;;
  match extractOutput data with
  | inl err => throw err
  | inr map => ret map
  end.

End Describing.

(** ** Cases for the reading functions *)

Module Cases.
Import Scripted.

(** A stack whose outputs repeat a key and use the key [__proto__]. *)
Definition repeated : Stack :=
  mkStack "StackName" "CREATE_COMPLETE"
          (Some [mkOutput "Endpoint" "first"; mkOutput "__proto__" "polluted";
                 mkOutput "DataBucket" "data"; mkOutput "Endpoint" "second"]).

(** A template that is not on the disk of the fixtures. *)
Definition missing : string := "/path/to/missing.yaml".

(** The options of an upload to the bucket "artifacts", without a prefix. *)
Definition toArtifacts : Options := mkOptions None (Some "artifacts") None None.

(** A world whose clock shows the given instant. *)
Definition at_ (instant : Z) : Script := mkScript [] [] [] [] [] instant.

End Cases.

(** ** More kinds of events *)

(** The request carries its template by reference to [url], and not
    inline. *)
Definition refers (url : string) (params : Params) : Prop :=
  TemplateURL params = Some url /\ TemplateBody params = None.

(** An event of a deployment from the address [url]: a request that
    carries a template carries that address; the disk is not touched and
    nothing is uploaded. *)
Definition byReference (url : string) (ev : Event) : Prop :=
  match ev with
  | CreateStackCommand params _ | UpdateStackCommand params _
  | CreateChangeSetCommand params _ => refers url params
  | ReadFileSync _ _ | ExistsSync _ _ | PutS3Object _ _ _ _ => False
  | _ => True
  end.

(** An event other than a question to the operator. *)
Definition unprompted (ev : Event) : Prop :=
  match ev with
  | Prompt _ => False
  | _ => True
  end.

(** An event that leaves the stacks as they are: no stack is created,
    updated or deleted, and no change set is executed. *)
Definition leavesStacks (ev : Event) : Prop :=
  match ev with
  | CreateStackCommand _ _ | UpdateStackCommand _ _ | DeleteStackCommand _ _
  | ExecuteChangeSetCommand _ _ => False
  | _ => True
  end.

(** The sleeps of a trace, in order. *)
Fixpoint timeouts (t : list Event) : list Z :=
  match t with
  | [] => []
  | SetTimeout ms :: t' => ms :: timeouts t'
  | _ :: t' => timeouts t'
  end.

(** An event that neither asks the operator nor touches a stack. *)
Definition quiet (ev : Event) : Prop := unprompted ev /\ leavesStacks ev.

(** A run in which the update of the stack [stackName] was declined: the
    stacks are left as they are, the promise is not fulfilled, and the
    deletion of the preview change set was asked for. *)
Definition Declined {W A : Type} (stackName : string) (r : Run W A) : Prop :=
  Forall leavesStacks (trace r)
  /\ (forall a, outcome r <> Resolved a)
  /\ exists reply,
       In (DeleteChangeSetCommand
             (changeSetParams stackName ("cf-utils-" ++ stackName ++ "-preview")) reply)
          (trace r).

(** * The modules beside the orchestrator

    [src/s3.js], [src/parameterStore.js] and [deployStack] of
    [src/cloudFormation.js] have collaborators of their own, and some of
    them reject with a bare string where the orchestrator rejects with
    [Error] objects only.  Their computations are of the same kind as
    above, over any type of events and with any thrown value. *)

(** A thrown value: an [Error] object or a string. *)
Inductive Thrown : Type :=
| ThrownError (e : JsError)
| ThrownString (s : string).

(** [v.toString()] *)
Definition thrownToString (v : Thrown) : string :=
  match v with
  | ThrownError e => toString e
  | ThrownString s => s
  end.

Module Async.

Inductive Outcome (A : Type) : Type :=
| Resolved (a : A)
| Rejected (v : Thrown)
| Pending.

Arguments Resolved {A}.
Arguments Rejected {A}.
Arguments Pending {A}.

Record Run (E W A : Type) : Type := mkRun {
  outcome : Outcome A;
  final : W;
  trace : list E
}.

Arguments mkRun {E W A}.
Arguments outcome {E W A}.
Arguments final {E W A}.
Arguments trace {E W A}.

Definition M (E W A : Type) : Type := W -> Run E W A.

Section Async.

Context {E W : Type}.

Definition after {A : Type} (pre : list E) (r : Run E W A) : Run E W A :=
  mkRun (outcome r) (final r) (pre ++ trace r).

Definition ret {A : Type} (a : A) : M E W A := fun w => mkRun (Resolved a) w [].

Definition throw {A : Type} (v : Thrown) : M E W A := fun w => mkRun (Rejected v) w [].

Definition pending {A : Type} : M E W A := fun w => mkRun Pending w [].

Definition bind {A B : Type} (m : M E W A) (k : A -> M E W B) : M E W B :=
  fun w =>
    let r := m w in
    match outcome r with
    | Resolved a => after (trace r) (k a (final r))
    | Rejected v => mkRun (Rejected v) (final r) (trace r)
    | Pending => mkRun Pending (final r) (trace r)
    end.

(** [try { m } catch (err) { ... }]: the rejection of [m] as a value. *)
Definition attempt {A : Type} (m : M E W A) : M E W (Thrown + A) :=
  fun w =>
    let r := m w in
    match outcome r with
    | Resolved a => mkRun (Resolved (inr a)) (final r) (trace r)
    | Rejected v => mkRun (Resolved (inl v)) (final r) (trace r)
    | Pending => mkRun Pending (final r) (trace r)
    end.

(** A call that cannot fail. *)
Definition call {T : Type} (h : W -> T * W) (ev : T -> E) : M E W T :=
  fun w => let (t, w') := h w in mkRun (Resolved t) w' [ev t].

(** An awaited call to a collaborator that rejects with [Error] objects. *)
Definition send {T : Type} (h : W -> Result T * W) (ev : Result T -> E) : M E W T :=
  fun w =>
    let (r, w') := h w in
    match r with
    | inl e => mkRun (Rejected (ThrownError e)) w' [ev r]
    | inr t => mkRun (Resolved t) w' [ev r]
    end.

(** A call with nothing to wait for. *)
Definition emit (ev : E) : M E W unit :=
  fun w => mkRun (Resolved tt) w [ev].

(** Every run of [m] produces events of the kind [P] only. *)
Definition emits {A : Type} (P : E -> Prop) (m : M E W A) : Prop :=
  forall w, Forall P (trace (m w)).

End Async.

End Async.

Declare Scope async_scope.
Delimit Scope async_scope with async.
Notation "x <- m ;; k" := (Async.bind m (fun x => k))
  (at level 61, m at next level, right associativity) : async_scope.
Notation "m ;; k" := (Async.bind m (fun _ => k))
  (at level 61, right associativity) : async_scope.

(** ** [src/s3.js]: emptying a bucket *)

Module S3.

(** An element of [Contents]; only its key is read. *)
Record S3Object : Type := mkObject { Key : string }.

(** [{ Key, VersionId }], as the delete requests list their objects. *)
Record ObjectIdentifier : Type := mkIdentifier {
  id_Key : string;
  VersionId : option string
}.

(** The reply to [ListObjectsV2Command]. *)
Record ListObjectsV2Output : Type := mkListing {
  Contents : option (list S3Object);
  NextContinuationToken : option string
}.

(** The reply to [GetBucketVersioningCommand]. *)
Record GetBucketVersioningOutput : Type := mkVersioning { Status : option string }.

(** An element of [Versions]; its key and its version are read. *)
Record ObjectVersion : Type := mkVersion {
  v_Key : string;
  v_VersionId : option string
}.

(** The reply to [ListObjectVersionsCommand]. *)
Record ListObjectVersionsOutput : Type := mkVersions {
  Versions : option (list ObjectVersion);
  NextKeyMarker : option string;
  NextVersionIdMarker : option string
}.

(** What [listObjectVersions] is given for a prefix, [key.Key || key]:
    the key of the object, or the object itself when its key is empty. *)
Inductive Prefix : Type :=
| PrefixKey (key : string)
| PrefixObject (object : ObjectIdentifier).

(** The requests to the service, each with its reply, and the lines of
    the log.  Requests that are under way side by side are recorded as
    their replies come in; one whose reply has not come in when the call
    settles is no part of the run. *)
Inductive Event : Type :=
| GetBucketVersioningCommand (Bucket : string) (reply : Result GetBucketVersioningOutput)
| ListObjectsV2Command (Bucket : string) (ContinuationToken : option string)
                       (reply : Result ListObjectsV2Output)
| ListObjectVersionsCommand (Bucket : string) (prefix : Prefix) (MaxKeys : Z)
                            (KeyMarker VersionIdMarker : option string)
                            (reply : Result ListObjectVersionsOutput)
| DeleteObjectsCommand (Bucket : string) (Objects : list ObjectIdentifier)
                       (reply : Result unit)
| Info (args : list string).

(** The service, and the order in which it answers: of [n] requests
    that are under way side by side, [answersFirst n] is the place of the
    one whose reply comes in next, counted round the [n] of them. *)
Record World (W : Type) : Type := mkWorld {
  s3_GetBucketVersioning : string -> W -> Result GetBucketVersioningOutput * W;
  s3_ListObjectsV2 : string -> option string -> W -> Result ListObjectsV2Output * W;
  s3_ListObjectVersions : string -> Prefix -> Z -> option string -> option string -> W ->
                          Result ListObjectVersionsOutput * W;
  s3_DeleteObjects : string -> list ObjectIdentifier -> W -> Result unit * W;
  answersFirst : nat -> W -> nat * W
}.

Arguments s3_GetBucketVersioning {W}.
Arguments s3_ListObjectsV2 {W}.
Arguments s3_ListObjectVersions {W}.
Arguments s3_DeleteObjects {W}.
Arguments answersFirst {W}.

Section S3.

Context {W : Type}.
Variable world : World W.

Local Abbreviation M := (Async.M Event W).
Local Open Scope async_scope.

(** [config.logger.info(...)] *)
Definition info (args : list string) : M unit := Async.emit (Info args).

(** [listObjects(bucketName, continuationToken)] *)
Definition listObjects (bucketName : string) (continuationToken : option string)
  : M ListObjectsV2Output :=
  Async.send (s3_ListObjectsV2 world bucketName continuationToken)
             (ListObjectsV2Command bucketName continuationToken).

(** [deleteObjects(bucketName, objectKeys)] *)
Definition deleteObjects (bucketName : string) (objectKeys : list ObjectIdentifier) : M unit :=
  Async.send (s3_DeleteObjects world bucketName objectKeys)
             (DeleteObjectsCommand bucketName objectKeys).

(** [key.Key || key] *)
Definition prefixOf (key : ObjectIdentifier) : Prefix :=
  if truthy (Some (id_Key key)) then PrefixKey (id_Key key) else PrefixObject key.

(** [data.Versions.map((version) => ({ Key: version.Key, VersionId:
    version.VersionId }))], for the versions that [data] shows. *)
Definition versionsOf (data : ListObjectVersionsOutput) : list ObjectIdentifier :=
  match Versions data with
  | Some versions => map (fun version => mkIdentifier (v_Key version) (v_VersionId version))
                         versions
  | None => []
  end.

(** A call of the closure [listAndDelete(key, continuationToken)] of
    [deleteVersionedObjects] that is under way, by what it awaits: the
    versions it has asked [listObjectVersions] for, or the deletion of the
    versions that [data] shows.  The token is a pair of markers,
    [NextKeyMarker] and [NextVersionIdMarker]. *)
Inductive Chain : Type :=
| Listing (key : ObjectIdentifier) (continuationToken : option (option string * option string))
| Deleting (key : ObjectIdentifier) (data : ListObjectVersionsOutput).

(** How a call goes on from the reply it awaited: it awaits its next
    request, or it is settled. *)
Inductive Progress : Type :=
| Awaits (next : Chain)
| Fulfils
| Rejects (err : JsError).

(** The reply that [chain] awaits comes in.  A listing that is rejected
    rejects the call, one that shows no versions fulfils it, and one that
    shows some is followed by the request to delete them; a deletion that
    is rejected rejects the call, and an accepted one is followed by the
    next listing, from the markers of the last, when that came with a
    [NextKeyMarker], and fulfils the call when it did not. *)
Definition resume (bucketName : string) (chain : Chain) (w : W) : Event * Progress * W :=
  match chain with
  | Listing key continuationToken =>
      let keyMarker := match continuationToken with
                       | Some token => fst token
                       | None => None
                       end in
      let versionIdMarker := match continuationToken with
                             | Some token => snd token
                             | None => None
                             end in
      let answer := s3_ListObjectVersions world bucketName (prefixOf key) 1 keyMarker
                                          versionIdMarker w in
      (ListObjectVersionsCommand bucketName (prefixOf key) 1 keyMarker versionIdMarker
                                 (fst answer),
       match fst answer with
       | inl err => Rejects err
       | inr data =>
           match Versions data with
           | Some (_ :: _) => Awaits (Deleting key data)
           | _ => Fulfils
           end
       end,
       snd answer)
  | Deleting key data =>
      let answer := s3_DeleteObjects world bucketName (versionsOf data) w in
      (DeleteObjectsCommand bucketName (versionsOf data) (fst answer),
       match fst answer with
       | inl err => Rejects err
       | inr _ =>
           if truthy (NextKeyMarker data) then
             Awaits (Listing key (Some (NextKeyMarker data, NextVersionIdMarker data)))
           else Fulfils
       end,
       snd answer)
  end.

(** The calls but the one at [index]. *)
Fixpoint without {A : Type} (index : nat) (l : list A) : list A :=
  match l, index with
  | [], _ => []
  | _ :: rest, O => rest
  | a :: rest, S index' => a :: without index' rest
  end.

(** The calls, with [next] for the one at [index]. *)
Fixpoint instead {A : Type} (index : nat) (next : A) (l : list A) : list A :=
  match l, index with
  | [], _ => []
  | _ :: rest, O => next :: rest
  | a :: rest, S index' => a :: instead index' next rest
  end.

(** [await Promise.all(chains)] on calls that are under way side by
    side.  The reply that comes in next is that of the call that the
    world picks; the call goes on from it at once, and the others wait.
    The first call to be rejected rejects the whole, whatever the others
    are waiting for: what becomes of them after that is no part of the
    run.  The whole is fulfilled when every call is.  One round per
    reply. *)
Fixpoint sideBySide (rounds : nat) (bucketName : string) (chains : list Chain) : M unit :=
  match chains with
  | [] => Async.ret tt
  | first :: _ =>
      match rounds with
      | O => Async.pending
      | S rounds' =>
          fun w =>
            let turn := answersFirst world (length chains) w in
            let index := Nat.modulo (fst turn) (length chains) in
            let step := resume bucketName (nth index chains first) (snd turn) in
            Async.after [fst (fst step)]
              match snd (fst step) with
              | Rejects err => Async.mkRun (Async.Rejected (ThrownError err)) (snd step) []
              | Fulfils => sideBySide rounds' bucketName (without index chains) (snd step)
              | Awaits next =>
                  sideBySide rounds' bucketName (instead index next chains) (snd step)
              end
      end
  end.

(** [deleteVersionedObjects(bucketName, objectKeys)]: a call of
    [listAndDelete(key)] is started for every key, in order, and all are
    awaited together. *)
Definition deleteVersionedObjects (rounds : nat) (bucketName : string)
           (objectKeys : list ObjectIdentifier) : M unit :=
  sideBySide rounds bucketName (map (fun key => Listing key None) objectKeys).

(** [data.Contents.map((object) => ({ Key: object.Key }))] *)
Definition keysOf (contents : list S3Object) : list ObjectIdentifier :=
  map (fun object => mkIdentifier (Key object) None) contents.

(** The closure [listAndDelete] of [emptyBucket]; one round per
    listing, and what is left of the rounds for the versions. *)
Fixpoint listAndDelete (rounds : nat) (versioningEnabled : bool) (bucketName : string)
         (continuationToken : option string) : M unit :=
  match rounds with
  | O => Async.pending
  | S rounds' =>
      data <- listObjects bucketName continuationToken ;;
      match Contents data with
      | Some ((_ :: _) as contents) =>
          let keys := keysOf contents in
          if versioningEnabled then deleteVersionedObjects rounds' bucketName keys
          else
            deleteObjects bucketName keys ;;
            if truthy (NextContinuationToken data) then
              listAndDelete rounds' versioningEnabled bucketName (NextContinuationToken data)
            else Async.ret tt
      | _ => Async.ret tt
      end
  end.

(** [data.Status === 'Enabled'] *)
Definition isEnabled (data : GetBucketVersioningOutput) : bool :=
  match Status data with
  | Some status => (status =? "Enabled")%string
  | None => false
  end.

(** [emptyBucket(bucketName)] *)
Definition emptyBucket (rounds : nat) (bucketName : string) : M unit :=
  r <- Async.attempt
         (data <- Async.send (s3_GetBucketVersioning world bucketName)
                             (GetBucketVersioningCommand bucketName) ;;
          listAndDelete rounds (isEnabled data) bucketName None) ;;
  match r with
  | inl err =>
      if 0 <=? JsString.indexOf (thrownToString err) "The specified bucket does not exist" then
        info ["Bucket"; bucketName; "does not exist, continuing..."]
      else Async.throw err
  | inr _ => Async.ret tt
  end.

End S3.

(** The listings of a trace, each with its token and its reply, in
    order. *)
Fixpoint listings (t : list Event) : list (option string * Result ListObjectsV2Output) :=
  match t with
  | [] => []
  | ListObjectsV2Command _ token reply :: t' => (token, reply) :: listings t'
  | _ :: t' => listings t'
  end.

(** The objects that a listing shows, as the delete requests name them;
    nothing when the listing is rejected or shows no object. *)
Definition shown (reply : Result ListObjectsV2Output) : list ObjectIdentifier :=
  match reply with
  | inr data =>
      match Contents data with
      | Some contents => keysOf contents
      | None => []
      end
  | inl _ => []
  end.

(** The pages that a trace lists: the objects of every listing that shows
    some, in order. *)
Fixpoint pagesListed (t : list Event) : list (list ObjectIdentifier) :=
  match t with
  | [] => []
  | ListObjectsV2Command _ _ reply :: t' =>
      match shown reply with
      | [] => pagesListed t'
      | page => page :: pagesListed t'
      end
  | _ :: t' => pagesListed t'
  end.

(** The pages that a trace asks to delete, in order. *)
Fixpoint pagesDeleted (t : list Event) : list (list ObjectIdentifier) :=
  match t with
  | [] => []
  | DeleteObjectsCommand _ objects _ :: t' => objects :: pagesDeleted t'
  | _ :: t' => pagesDeleted t'
  end.

(** What an event shows that a delete request can name: the objects of a
    listing, or the versions of a listing of versions. *)
Definition shownBy (ev : Event) : list ObjectIdentifier :=
  match ev with
  | ListObjectsV2Command _ _ reply => shown reply
  | ListObjectVersionsCommand _ _ _ _ _ (inr data) => versionsOf data
  | _ => []
  end.

(** Every delete request of the trace [t] names what an earlier event of
    [t], or one of [before], has shown, and names something. *)
Fixpoint deletesWhatWasShown (before t : list Event) : Prop :=
  match t with
  | [] => True
  | ev :: t' =>
      match ev with
      | DeleteObjectsCommand _ objects _ =>
          objects <> [] /\ exists earlier, In earlier before /\ shownBy earlier = objects
      | _ => True
      end
      /\ deletesWhatWasShown (before ++ [ev]) t'
  end.

(** The key that a call works on. *)
Definition keyOf (chain : Chain) : ObjectIdentifier :=
  match chain with
  | Listing key _ | Deleting key _ => key
  end.

(** A call that is deleting names something, and names what an event of
    [before] has shown. *)
Definition wasShown (before : list Event) (chain : Chain) : Prop :=
  match chain with
  | Listing _ _ => True
  | Deleting _ data =>
      versionsOf data <> []
      /\ exists earlier, In earlier before /\ shownBy earlier = versionsOf data
  end.

(** The prefixes for which a trace lists versions, in order. *)
Fixpoint versionsListed (t : list Event) : list Prefix :=
  match t with
  | [] => []
  | ListObjectVersionsCommand _ prefix _ _ _ _ :: t' => prefix :: versionsListed t'
  | _ :: t' => versionsListed t'
  end.

(** Every listing but the first goes on from the token that the listing
    before it came back with. *)
Fixpoint chained (token : option string) (ls : list (option string * Result ListObjectsV2Output))
  : Prop :=
  match ls with
  | [] => True
  | (token', reply) :: rest =>
      token' = token
      /\ match rest with
         | [] => True
         | _ :: _ =>
             match reply with
             | inr data => truthy (NextContinuationToken data) = true
                           /\ chained (NextContinuationToken data) rest
             | inl _ => False
             end
         end
  end.

(** From the state [w] of the world on, the bucket is drained in
    [pages] pages: each listing from the token on shows objects, the
    request to delete them is accepted, and the listing comes back with a
    token for the next page, until one comes back without; or the first
    listing shows nothing. *)
Inductive Drains {W : Type} (world : World W) (bucketName : string)
  : option string -> nat -> W -> W -> Prop :=
| drains_nothing (token : option string) (w w' : W) (data : ListObjectsV2Output) :
    s3_ListObjectsV2 world bucketName token w = (inr data, w') ->
    shown (inr data) = [] ->
    Drains world bucketName token 0 w w'
| drains_last (token : option string) (w w1 w' : W) (data : ListObjectsV2Output) :
    s3_ListObjectsV2 world bucketName token w = (inr data, w1) ->
    shown (inr data) <> [] ->
    s3_DeleteObjects world bucketName (shown (inr data)) w1 = (inr tt, w') ->
    truthy (NextContinuationToken data) = false ->
    Drains world bucketName token 1 w w'
| drains_on (token : option string) (w w1 w2 w' : W) (data : ListObjectsV2Output)
            (pages : nat) :
    s3_ListObjectsV2 world bucketName token w = (inr data, w1) ->
    shown (inr data) <> [] ->
    s3_DeleteObjects world bucketName (shown (inr data)) w1 = (inr tt, w2) ->
    truthy (NextContinuationToken data) = true ->
    Drains world bucketName (NextContinuationToken data) pages w2 w' ->
    Drains world bucketName token (S pages) w w'.

(** The rejection that an event records, if it records one. *)
Definition rejection (ev : Event) : option JsError :=
  match ev with
  | GetBucketVersioningCommand _ (inl err) | ListObjectsV2Command _ _ (inl err)
  | ListObjectVersionsCommand _ _ _ _ _ (inl err)
  | DeleteObjectsCommand _ _ (inl err) => Some err
  | _ => None
  end.

(** The event is a request about the bucket [bucketName], or a line of
    the log. *)
Definition about (bucketName : string) (ev : Event) : Prop :=
  match ev with
  | GetBucketVersioningCommand b _ | ListObjectsV2Command b _ _
  | ListObjectVersionsCommand b _ _ _ _ _ | DeleteObjectsCommand b _ _ => b = bucketName
  | Info _ => True
  end.

(** A scripted bucket, as the tests of the repository mock the service:
    the answer about versioning, and the replies to the listings and to
    the delete requests, handed out in order.  When the replies run out a
    listing shows nothing and a delete request is accepted.  A listing of
    versions is answered by what is asked, as [versions] says, and of the
    requests that are under way side by side the one at [turn] is answered
    first. *)
Module Scripted.

Record Script : Type := mkScript {
  versioning : Result GetBucketVersioningOutput;
  pages : list (Result ListObjectsV2Output);
  acks : list (Result unit)
}.

Definition list_ (s : Script) : Result ListObjectsV2Output * Script :=
  match pages s with
  | [] => (inr (mkListing None None), s)
  | r :: rest => (r, mkScript (versioning s) rest (acks s))
  end.

Definition ack (s : Script) : Result unit * Script :=
  match acks s with
  | [] => (inr tt, s)
  | r :: rest => (r, mkScript (versioning s) (pages s) rest)
  end.

Definition worldWhere
           (versions : Prefix -> option string -> Result ListObjectVersionsOutput)
           (turn : nat -> nat) : World Script :=
  mkWorld Script (fun _ s => (versioning s, s)) (fun _ _ => list_)
          (fun _ prefix _ keyMarker _ s => (versions prefix keyMarker, s))
          (fun _ _ => ack)
          (fun inFlight s => (turn inFlight, s)).

(** The bucket in which no object has a version to show, and in which
    the oldest request is answered first. *)
Definition world : World Script :=
  worldWhere (fun _ _ => inr (mkVersions None None None)) (fun _ => 0%nat).

(** The versions of the test "deletes versioned objects": those of
    [key_1] come in two pages, those of any other key in one. *)
Definition versionsByKey (prefix : Prefix) (keyMarker : option string)
  : Result ListObjectVersionsOutput :=
  let others := inr (mkVersions (Some [mkVersion "key_2" None]) None None) in
  match prefix with
  | PrefixKey key =>
      if (key =? "key_1")%string then
        if truthy keyMarker then
          inr (mkVersions (Some [mkVersion "key_1" (Some "object_version_id")]) None None)
        else
          inr (mkVersions (Some [mkVersion "key_1" None])
                          (Some "NextKeyMarker") (Some "NextVersionIdMarker"))
      else others
  | PrefixObject _ => others
  end.

(** A page of two objects, with or without a token for the next. *)
Definition page (first second : string) (next : option string) : Result ListObjectsV2Output :=
  inr (mkListing (Some [mkObject first; mkObject second]) next).

(** A bucket of two pages. *)
Definition twoPages (status : option string) : Script :=
  mkScript (inr (mkVersioning status))
           [page "a" "b" (Some "token-1"); page "c" "d" None] [].

(** The rejection of the service for a bucket that is not there. *)
Definition noSuchBucket : JsError :=
  mkError "NoSuchBucket" "The specified bucket does not exist" [].

End Scripted.

End S3.

(** ** [deployStack]: a deployment with the command line of the provider *)

Module Deploy.

Inductive Stream : Type := stdout | stderr.

(** What the child process does, as its listeners see it: the chunks of
    text that its two streams hand over, in the order in which they come,
    and the code with which it closes, which is [None] when a signal ended
    it.  (A shell that cannot be started at all raises an event for which
    [deployStack] has no listener; that is not modelled.) *)
Record ChildProcess : Type := mkChild {
  output : list (Stream * string);
  code : option Z
}.

(** An event and a computation of the orchestrator, as above. *)
Abbreviation ProviderEvent := Event.

Abbreviation Orchestration := M.

Inductive Event : Type :=
| ConfigGet (parameter : string) (reply : Result string)
| Spawn (command : string) (args : list string) (shell : bool) (child : ChildProcess)
| ConsoleLog (data : string)
| Provider (ev : ProviderEvent).

(** The configuration, read as text, and the operating system. *)
Record Host (W : Type) : Type := mkHost {
  config_get : string -> W -> Result string * W;
  child_process_spawn : string -> list string -> bool -> W -> ChildProcess * W
}.

Arguments config_get {W}.
Arguments child_process_spawn {W}.

(** The arguments that [aws] is started with. *)
Definition arguments (profile region script stackName params : string) : list string :=
  ["cloudformation"; "deploy";
   "--profile"; profile;
   "--region"; region;
   "--template-file"; script;
   "--stack-name"; stackName;
   "--capabilities"; "CAPABILITY_IAM"; "CAPABILITY_NAMED_IAM";
   " --parameter-overrides"; params].

(** The loop over [parameters], which adds the key of each, an equals
    sign and its value between quotation marks, and a space. *)
Definition overrides (parameters : option (list StackParameter)) : string :=
  match parameters with
  | Some ((_ :: _) as parameters) =>
      fold_left (fun params parameter =>
                   params ++ ParameterKey parameter ++ "="
                   ++ String quote (ParameterValue parameter ++ String quote " "))
                parameters ""
  | _ => ""
  end.

(** What the child has written to its error stream, pieced together. *)
Fixpoint errors (output : list (Stream * string)) : string :=
  match output with
  | [] => ""
  | (stderr, data) :: rest => data ++ errors rest
  | (stdout, _) :: rest => errors rest
  end.

Section Deploy.

Context {W : Type}.
Variable world : World W.
Variable host : Host W.

Local Abbreviation M := (Async.M Event W).
Local Open Scope async_scope.

(** A computation of the orchestrator, among the events of a
    deployment. *)
Definition provider {A : Type} (m : Orchestration W A) : M A :=
  fun w =>
    let r := m w in
    Async.mkRun match outcome r with
                | Resolved a => Async.Resolved a
                | Rejected e => Async.Rejected (ThrownError e)
                | Pending => Async.Pending
                end
                (final r) (map Provider (trace r)).

(** The two listeners for ['data']: every chunk is printed, and the
    chunks of the error stream are added to [err]. *)
Fixpoint listen (err : string) (output : list (Stream * string)) : M string :=
  match output with
  | [] => Async.ret err
  | (stdout, data) :: rest => Async.emit (ConsoleLog data) ;; listen err rest
  | (stderr, data) :: rest => Async.emit (ConsoleLog data) ;; listen (err ++ data) rest
  end.

(** [deployStack(name, script, parameters)] *)
Definition deployStack (stackName script : string) (parameters : option (list StackParameter))
  : M (option Stack) :=
  let params := overrides parameters in
  profile <- Async.send (config_get host "AWS_PROFILE") (ConfigGet "AWS_PROFILE") ;;
  region <- Async.send (config_get host "AWS_REGION") (ConfigGet "AWS_REGION") ;;
  let args := arguments profile region script stackName params in
  cli <- Async.call (child_process_spawn host "aws" args true) (Spawn "aws" args true) ;;
  err <- listen "" (output cli) ;;
  match code cli with
  | Some 0 => Async.ret tt
  | _ =>
      if 0 <=? JsString.indexOf err "No changes to deploy" then
        provider (log level_info [LogString "There are no changes to apply, continuing...."])
      else Async.throw (ThrownString "Stack deploy failed")
  end ;;
  provider (describeStack world stackName).

End Deploy.

(** A host whose configuration names a profile and a region, and on
    which the command line behaves as [child] does, over the scripted
    provider. *)
Definition fixedHost (child : ChildProcess) : Host Scripted.Script :=
  mkHost Scripted.Script
    (fun parameter s =>
       if (parameter =? "AWS_PROFILE")%string then (inr "default", s)
       else if (parameter =? "AWS_REGION")%string then (inr "eu-west-1", s)
       else (inl (Error (parameter ++ " is unset. Did you forget to set 'config."
                         ++ parameter ++ "'?")), s))
    (fun _ _ _ s => (child, s)).

(** A command line that finds nothing to change, and says so in two
    pieces with other output in between. *)
Definition nothingToDeploy : ChildProcess :=
  mkChild [(stdout, "Waiting for changeset to be created.."); (stderr, "No changes ");
           (stdout, "."); (stderr, "to deploy. Stack StackName is up to date")]
          (Some 255).

(** A command line that fails. *)
Definition failing : ChildProcess :=
  mkChild [(stderr, "An error occurred (ValidationError)")] (Some 255).

(** The events of the orchestrator in a trace, in order. *)
Fixpoint asked (t : list Event) : list ProviderEvent :=
  match t with
  | [] => []
  | Provider ev :: t' => ev :: asked t'
  | _ :: t' => asked t'
  end.

End Deploy.

(** ** [src/parameterStore.js] *)

Module ParameterStore.

(** The request of [putParameter], which its caller builds; a property
    that the caller left out is [None]. *)
Record PutParameterInput : Type := mkPut {
  Name : option string;
  Value : option string;
  Overwrite : option bool
}.

(** A parameter, as the service describes it. *)
Record SsmParameter : Type := mkParameter {
  parameterName : string;
  parameterValue : string
}.

(** The reply to [GetParametersCommand]. *)
Record GetParametersOutput : Type := mkParameters {
  Parameters : option (list SsmParameter)
}.

Inductive Event : Type :=
| PutParameterCommand (params : PutParameterInput) (reply : Result unit)
| GetParametersCommand (Names : list string) (WithDecryption : option bool)
                       (reply : Result GetParametersOutput)
| DeleteParameterCommand (Name : string) (reply : Result unit)
| Info (message : string).

Record World (W : Type) : Type := mkWorld {
  ssm_PutParameter : PutParameterInput -> W -> Result unit * W;
  ssm_GetParameters : list string -> option bool -> W -> Result GetParametersOutput * W;
  ssm_DeleteParameter : string -> W -> Result unit * W
}.

Arguments ssm_PutParameter {W}.
Arguments ssm_GetParameters {W}.
Arguments ssm_DeleteParameter {W}.

(** The requests of a trace, without the lines of the log. *)
Definition requests (t : list Event) : list Event :=
  filter (fun ev => match ev with Info _ => false | _ => true end) t.

(** What a promise is fulfilled with, if it is fulfilled. *)
Definition fulfilment {A : Type} (o : Async.Outcome A) : option A :=
  match o with
  | Async.Resolved a => Some a
  | _ => None
  end.

Section Sends.

Context {W : Type}.
Variable world : World W.

Local Abbreviation M := (Async.M Event W).

Definition info (message : string) : M unit := Async.emit (Info message).

Definition sendPutParameter (params : PutParameterInput) : M unit :=
  Async.send (ssm_PutParameter world params) (PutParameterCommand params).

Definition sendGetParameters (Names : list string) (WithDecryption : option bool)
  : M GetParametersOutput :=
  Async.send (ssm_GetParameters world Names WithDecryption)
             (GetParametersCommand Names WithDecryption).

Definition sendDeleteParameter (Name : string) : M unit :=
  Async.send (ssm_DeleteParameter world Name) (DeleteParameterCommand Name).

End Sends.

(** The module as it is written with [async] functions. *)
Module Awaiting.

Section Awaiting.

Context {W : Type}.
Variable world : World W.

Local Abbreviation M := (Async.M Event W).
Local Open Scope async_scope.

(** [putParameter(params)] *)
Definition putParameter (params : PutParameterInput) : M (option string) :=
  sendPutParameter world params ;;
  info ("Successfully upserted parameter: " ++ interpolate (Name params)) ;;
  Async.ret (Name params).

(** [getParameter(name)] *)
Definition getParameter (name : string) : M SsmParameter :=
  data <- sendGetParameters world [name] (Some true) ;;
  match Parameters data with
  | Some (parameter :: _) =>
      info ("Successfully retrieved parameter: " ++ name) ;;
      Async.ret parameter
  | _ => Async.throw (ThrownError (Error "Parameter not found"))
  end.

(** [checkParameter(name)] *)
Definition checkParameter (name : string) : M bool :=
  data <- sendGetParameters world [name] None ;;
  Async.ret match Parameters data with
            | Some parameters => negb (Nat.eqb (length parameters) 0)
            | None => false
            end.

(** [deleteParameter(name)] *)
Definition deleteParameter (name : string) : M string :=
  sendDeleteParameter world name ;;
  info ("Successfully deleted parameter: " ++ name) ;;
  Async.ret name.

End Awaiting.

End Awaiting.

(** The module as it is written with callbacks, each function around
    [new Promise((resolve, reject) => ...)]. *)
Module Callbacks.

Section Callbacks.

Context {W : Type}.
Variable world : World W.

Local Abbreviation M := (Async.M Event W).
Local Open Scope async_scope.

(** [putParameter(params)] *)
Definition putParameter (params : PutParameterInput) : M (option string) :=
  sendPutParameter world params ;;
  info ("Successfully upserted parameter: " ++ interpolate (Name params)) ;;
  Async.ret (Name params).

(** [getParameter(name)].  The line of the log reads [params.Name], which
    the request [{ Names, WithDecryption }] does not have. *)
Definition getParameter (name : string) : M SsmParameter :=
  data <- sendGetParameters world [name] (Some true) ;;
  match Parameters data with
  | Some (parameter :: _) =>
      info ("Successfully retrieved parameter: " ++ interpolate None) ;;
      Async.ret parameter
  | _ => Async.throw (ThrownString "Parameter not found")
  end.

(** [checkParameter(name)]: [data.Parameters && data.Parameters.length > 0],
    which is [undefined] when the reply has no list. *)
Definition checkParameter (name : string) : M (option bool) :=
  data <- sendGetParameters world [name] None ;;
  Async.ret match Parameters data with
            | Some parameters => Some (negb (Nat.eqb (length parameters) 0))
            | None => None
            end.

(** [deleteParameter(name)] *)
Definition deleteParameter (name : string) : M string :=
  sendDeleteParameter world name ;;
  info ("Successfully deleted parameter: " ++ name) ;;
  Async.ret name.

End Callbacks.

End Callbacks.

(** A scripted store, as the tests mock the service: the replies to the
    lookups, handed out in order, whatever is asked; every other request is
    accepted. *)
Definition scripted : World (list (Result GetParametersOutput)) :=
  mkWorld (list (Result GetParametersOutput))
    (fun _ s => (inr tt, s))
    (fun _ _ s => match s with
                  | [] => (inr (mkParameters None), s)
                  | r :: rest => (r, rest)
                  end)
    (fun _ s => (inr tt, s)).

End ParameterStore.

(** ** [src/config.js]: the arguments of the command line *)

Module Config.

(** The value of an option: [true], or the argument that followed it. *)
Inductive ArgValue : Type :=
| Flag
| Text (arg : string).

(** [arg.replace(/^--/, '')] *)
Definition stripDashes (arg : string) : string :=
  if JsString.startsWith arg "--" then
    match arg with
    | String _ (String _ rest) => rest
    | _ => arg
    end
  else arg.

(** One turn of the [reduce] over [process.argv]; [tba] is the option
    that waits for its value, [None] when it is [null]. *)
Definition step (state : JsObject.t ArgValue * option string) (arg : string)
  : JsObject.t ArgValue * option string :=
  let (options, tba) := state in
  if JsString.startsWith arg "--" then
    let tba := stripDashes arg in
    (JsObject.set tba Flag options, Some tba)
  else
    (if truthy tba then JsObject.set (interpolate tba) (Text arg) options else options,
     None).

(** [argv], for the arguments [args] of the process. *)
Definition argv (args : list string) : JsObject.t ArgValue :=
  fst (fold_left step args ([], None)).

(** What the command line says about the option [name]: nothing when no
    argument is [--name]; otherwise the argument that follows the last
    [--name], when there is one, it is not itself an option and [name] is
    not empty; and [true] otherwise. *)
Fixpoint given (name : string) (args : list string) : option ArgValue :=
  match args with
  | [] => None
  | arg :: rest =>
      match given name rest with
      | Some value => Some value
      | None =>
          if (arg =? "--" ++ name)%string then
            Some match rest with
                 | next :: _ =>
                     if JsString.startsWith next "--" || (name =? "")%string then Flag
                     else Text next
                 | [] => Flag
                 end
          else None
      end
  end.

End Config.
(** * Facts about strings and regular expressions *)

Module JsStringFacts.
Import JsString.

Lemma chars_app (a b : string) : chars (a ++ b) = (chars a ++ chars b)%list.
Proof. induction a as [|c a IH]; simpl; [reflexivity | now rewrite IH]. Qed.

Lemma of_chars_app (a b : list ascii) :
  of_chars (a ++ b) = of_chars a ++ of_chars b.
Proof. induction a as [|c a IH]; simpl; [reflexivity | now rewrite IH]. Qed.

Lemma of_chars_chars (s : string) : of_chars (chars s) = s.
Proof. induction s as [|c s IH]; simpl; [reflexivity | now rewrite IH]. Qed.

Lemma startsWith_spec (s sub : string) :
  startsWith s sub = true <-> exists b, s = sub ++ b.
Proof.
  revert s; induction sub as [|a sub IH]; intros s; simpl.
  - split; [intros _; now exists s | intros _; now destruct s].
  - destruct s as [|b s]; simpl.
    + split; [discriminate | intros [x Hx]; discriminate].
    + rewrite andb_true_iff, Ascii.eqb_eq, IH. split.
      * intros [-> [x ->]]. now exists x.
      * intros [x Hx]. injection Hx as -> ->. split; [reflexivity | now exists x].
Qed.

Lemma indexOf_from_found (i : Z) (s sub : string) :
  0 <= i -> (0 <= indexOf_from i s sub <-> Contains s sub).
Proof.
  revert i; induction s as [|c s IH]; intros i Hi; cbn [indexOf_from].
  - destruct (startsWith "" sub) eqn:E.
    + split; [intros _ | lia].
      apply startsWith_spec in E as [b Hb]. now exists "", b.
    + split; [lia |]. intros [a [b H]].
      destruct a; [| discriminate]. simpl in H.
      assert (startsWith "" sub = true) by (apply startsWith_spec; now exists b).
      congruence.
  - destruct (startsWith (String c s) sub) eqn:E.
    + split; [intros _ | lia].
      apply startsWith_spec in E as [b Hb]. now exists "", b.
    + rewrite (IH (i + 1)) by lia. split.
      * intros [a [b ->]]. now exists (String c a), b.
      * intros [a [b H]]. destruct a as [|c' a].
        -- simpl in H.
           assert (startsWith (String c s) sub = true)
             by (apply startsWith_spec; now exists b).
           congruence.
        -- injection H as -> ->. now exists a, b.
Qed.

(** [indexOf(sub) >= 0] and [includes(sub)] both say that [sub] occurs. *)
Lemma includes_spec (s sub : string) :
  includes s sub = true <-> Contains s sub.
Proof.
  unfold includes, indexOf. rewrite Z.leb_le.
  apply indexOf_from_found. lia.
Qed.

Lemma includes_false (s sub : string) :
  includes s sub = false <-> ~ Contains s sub.
Proof.
  rewrite <- includes_spec. destruct (includes s sub); split; congruence.
Qed.

End JsStringFacts.

Module RegexFacts.
Import Regex.

#[local] Hint Constructors Lang : core.

Lemma Lang_Void_inv (l : list ascii) : ~ Lang Void l.
Proof. inversion 1. Qed.

Lemma Lang_Eps_inv (l : list ascii) : Lang Eps l -> l = [].
Proof. inversion 1; reflexivity. Qed.

Lemma Lang_Class_inv (f : ascii -> bool) (l : list ascii) :
  Lang (Class f) l -> exists c, l = [c] /\ f c = true.
Proof. inversion 1; subst; eauto. Qed.

Lemma Lang_Cat_inv (r1 r2 : re) (l : list ascii) :
  Lang (Cat r1 r2) l ->
  exists l1 l2, l = (l1 ++ l2)%list /\ Lang r1 l1 /\ Lang r2 l2.
Proof. inversion 1; subst; eauto. Qed.

Lemma Lang_Alt_inv (r1 r2 : re) (l : list ascii) :
  Lang (Alt r1 r2) l -> Lang r1 l \/ Lang r2 l.
Proof. inversion 1; subst; auto. Qed.

Lemma Lang_Cat_cons (r1 r2 : re) (c : ascii) (l1 l2 : list ascii) :
  Lang r1 (c :: l1) -> Lang r2 l2 -> Lang (Cat r1 r2) (c :: l1 ++ l2).
Proof. intros H1 H2. apply (L_Cat r1 r2 (c :: l1) l2 H1 H2). Qed.

Lemma Lang_Cat_nil (r1 r2 : re) (l : list ascii) :
  Lang r1 [] -> Lang r2 l -> Lang (Cat r1 r2) l.
Proof. intros H1 H2. apply (L_Cat r1 r2 [] l H1 H2). Qed.

Lemma nullable_spec (r : re) : nullable r = true <-> Lang r [].
Proof.
  induction r as [| | f | r1 IH1 r2 IH2 | r1 IH1 r2 IH2 | r IH]; simpl.
  - split; [discriminate | intros H; now apply Lang_Void_inv in H].
  - split; auto.
  - split; [discriminate |].
    intros H; apply Lang_Class_inv in H as (c & E & _); discriminate.
  - rewrite andb_true_iff, IH1, IH2. split.
    + intros [H1 H2]. now apply Lang_Cat_nil.
    + intros H; apply Lang_Cat_inv in H as (l1 & l2 & E & H1 & H2).
      symmetry in E. apply app_eq_nil in E as [-> ->]. auto.
  - rewrite orb_true_iff, IH1, IH2. split.
    + intros [H | H]; auto.
    + apply Lang_Alt_inv.
  - split; auto.
Qed.

Lemma star_cons_inv (r : re) (l : list ascii) :
  Lang (Star r) l ->
  forall c l', l = c :: l' ->
  exists l1 l2, l' = (l1 ++ l2)%list /\ Lang r (c :: l1) /\ Lang (Star r) l2.
Proof.
  intros H. remember (Star r) as sr eqn:Hsr.
  induction H as [| | | | | r0 | r0 l1 l2 H1 _ H2 IH2]; try discriminate.
  assert (r0 = r) by congruence. subst r0. intros c l' E.
  destruct l1 as [|c1 l1]; simpl in E.
  - now apply IH2.
  - assert (c1 = c /\ (l1 ++ l2)%list = l') as [-> <-] by (split; congruence).
    now exists l1, l2.
Qed.

Lemma cat_cons_inv (r1 r2 : re) (c : ascii) (l : list ascii) :
  Lang (Cat r1 r2) (c :: l) <->
  (exists l1 l2, l = (l1 ++ l2)%list /\ Lang r1 (c :: l1) /\ Lang r2 l2)
  \/ (Lang r1 [] /\ Lang r2 (c :: l)).
Proof.
  split.
  - intros H; apply Lang_Cat_inv in H as (l1 & l2 & E & H1 & H2).
    destruct l1 as [|c1 l1]; simpl in E.
    + subst l2. now right.
    + injection E as -> ->. left. eauto.
  - intros [(l1 & l2 & -> & H1 & H2) | [H1 H2]].
    + now apply Lang_Cat_cons.
    + now apply Lang_Cat_nil.
Qed.

Lemma deriv_spec (r : re) : forall c l, Lang (deriv c r) l <-> Lang r (c :: l).
Proof.
  induction r as [| | f | r1 IH1 r2 IH2 | r1 IH1 r2 IH2 | r IH]; intros c l; simpl.
  - split; intros H; now apply Lang_Void_inv in H.
  - split; intros H; [now apply Lang_Void_inv in H |].
    apply Lang_Eps_inv in H. discriminate.
  - destruct (f c) eqn:E; split; intros H.
    + apply Lang_Eps_inv in H as ->. now constructor.
    + apply Lang_Class_inv in H as (c' & E' & _). injection E' as _ ->. auto.
    + now apply Lang_Void_inv in H.
    + apply Lang_Class_inv in H as (c' & E' & F). injection E' as -> _. congruence.
  - assert (Hcat : Lang (Cat (deriv c r1) r2) l <->
                   exists l1 l2, l = (l1 ++ l2)%list /\ Lang r1 (c :: l1) /\ Lang r2 l2).
    { split.
      - intros H; apply Lang_Cat_inv in H as (l1 & l2 & E & H1 & H2).
        apply IH1 in H1. eauto.
      - intros (l1 & l2 & -> & H1 & H2). apply IH1 in H1. auto. }
    rewrite cat_cons_inv. destruct (nullable r1) eqn:N.
    + apply nullable_spec in N. split.
      * intros H; apply Lang_Alt_inv in H as [H | H].
        -- left. now apply Hcat.
        -- right. split; [exact N | now apply IH2].
      * intros [H | [_ H]]; [apply L_AltL; now apply Hcat | apply L_AltR; now apply IH2].
    + rewrite Hcat. split; [auto |].
      intros [H | [H _]]; [auto |]. apply nullable_spec in H. congruence.
  - split; intros H; apply Lang_Alt_inv in H as [H | H].
    + apply L_AltL; now apply IH1.
    + apply L_AltR; now apply IH2.
    + apply L_AltL; now apply IH1.
    + apply L_AltR; now apply IH2.
  - split.
    + intros H; apply Lang_Cat_inv in H as (l1 & l2 & -> & H1 & H2).
      apply IH in H1. apply (L_StarApp r (c :: l1) l2 H1 H2).
    + intros H. destruct (star_cons_inv _ _ H c l eq_refl) as (l1 & l2 & -> & H1 & H2).
      apply IH in H1. auto.
Qed.

Lemma accepts_spec (l : list ascii) : forall r, accepts r l = true <-> Lang r l.
Proof.
  induction l as [|c l IH]; intros r; simpl.
  - apply nullable_spec.
  - rewrite IH. apply deriv_spec.
Qed.

Lemma Lang_any (l : list ascii) : Lang (Star AnyChar) l.
Proof.
  induction l as [|c l IH]; [auto |].
  apply (L_StarApp AnyChar [c] l); [now constructor | exact IH].
Qed.

Lemma Lang_Lit (s : string) (l : list ascii) :
  Lang (Lit s) l <-> l = JsString.chars s.
Proof.
  revert l; induction s as [|c s IH]; intros l; simpl.
  - split; [apply Lang_Eps_inv | intros ->; auto].
  - split.
    + intros H; apply Lang_Cat_inv in H as (l1 & l2 & -> & H1 & H2).
      apply Lang_Class_inv in H1 as (c' & -> & E).
      apply Ascii.eqb_eq in E as <-. apply IH in H2 as ->. reflexivity.
    + intros ->. apply (L_Cat (Chr c) (Lit s) [c] (JsString.chars s)).
      * constructor. apply Ascii.eqb_refl.
      * now apply IH.
Qed.

(** A search that runs to the end of the input finds a suffix in the
    language. *)
Lemma test_to_end_spec (r : re) (s : string) :
  test_to_end r s = true <->
  exists a m, JsString.chars s = (a ++ m)%list /\ Lang r m.
Proof.
  unfold test_to_end. rewrite accepts_spec. split.
  - intros H; apply Lang_Cat_inv in H as (a & m & E & _ & H). eauto.
  - intros (a & m & -> & H). apply L_Cat; [apply Lang_any | exact H].
Qed.

End RegexFacts.

(** * The tests of the repository, replayed *)

Module Replay.
Import Scripted Fixtures.

(** "polls stack - recursive" *)
Example polls_stack_recursive :
  let w := mkScript [] (map (fun st => inr (stackIn "StackName" st None))
                            ["CREATE_IN_PROGRESS"; "DELETE_IN_PROGRESS"; "UPDATE_IN_PROGRESS";
                             "UPDATE_COMPLETE_CLEANUP_IN_PROGRESS"; "CREATE_COMPLETE"])
                    [] [] [] 0 in
  let r := pollStack world 5 (stackParams "StackName") w in
  outcome r = Resolved (Some (stackIn "StackName" "CREATE_COMPLETE" None))
  /\ stacks (final r) = [].
Proof. vm_compute. split; reflexivity. Qed.

(** "upserts stack - stack does not exist - create no transforms" *)
Example upsert_creates_without_transforms :
  let w := mkScript disk
             [inl (Error "Some error thrown");
              inr (stackIn "StackName" "CREATE_COMPLETE" None)] [] [] [] 0 in
  let r := upsertStack world 2 "StackName" plain inputs (OptionsObject (mkOptions None None None None)) w in
  outcome r = Resolved (Some (stackIn "StackName" "CREATE_COMPLETE" None))
  /\ In (CreateStackCommand
           (mkParams "StackName"
                     (Some ["CAPABILITY_IAM"; "CAPABILITY_NAMED_IAM"; "CAPABILITY_AUTO_EXPAND"])
                     (Some inputs) (Some "Resources: {}") None (Some true) None None)
           (inr tt)) (trace r).
Proof. vm_compute. split; [reflexivity | tauto]. Qed.

(** "upserts stack - updating stack with transforms" *)
Example upsert_updates_with_transforms :
  let w := mkScript disk
             [inr (stackIn "StackName" "CREATE_COMPLETE" None);
              inr (stackIn "StackName" "UPDATE_COMPLETE" None)]
             [inr (mkChangeSet "cf-utils-cloudformation-upsert-stack-1700000000" "StackName"
                               "UPDATE_COMPLETE" None)]
             [] [] 1700000000123 in
  let r := upsertStack world 2 "StackName" withTransform inputs OptionsMissing w in
  outcome r = Resolved (Some (stackIn "StackName" "UPDATE_COMPLETE" None))
  /\ In (ExecuteChangeSetCommand
           (changeSetParams "StackName" "cf-utils-cloudformation-upsert-stack-1700000000")
           (inr tt)) (trace r)
  /\ In (DescribeChangeSetCommand (Some "cf-utils-cloudformation-upsert-stack-1700000000")
                                  "StackName"
           (inr (mkChangeSet "cf-utils-cloudformation-upsert-stack-1700000000" "StackName"
                             "UPDATE_COMPLETE" None))) (trace r).
Proof. vm_compute. repeat split; tauto. Qed.

(** "fails to upsert stack with review - user rejected" *)
Example upsert_review_rejected :
  let w := mkScript disk
             [inr (stackIn "StackName" "CREATE_COMPLETE" None)]
             [inr (mkChangeSet "cf-utils-StackName-preview" "StackName" "CREATE_COMPLETE" None)]
             [] [inr false] 0 in
  let r := upsertStack world 2 "StackName" plain inputs (OptionsBoolean true) w in
  outcome r = Rejected (Error "Reviewer rejected stack update")
  /\ In (DeleteChangeSetCommand (changeSetParams "StackName" "cf-utils-StackName-preview")
                                (inr tt)) (trace r).
Proof. vm_compute. split; [reflexivity | tauto]. Qed.

(** "deletes stack and empties bucket" *)
Example delete_empties_bucket :
  let outs := Some [mkOutput "Property1" "Value1"; mkOutput "Property2" "Value2";
                    mkOutput "EmptyBucket" "bucket-name"] in
  let w := mkScript []
             [inr (stackIn "StackName" "CREATE_COMPLETE" outs);
              inr (stackIn "StackName" "DELETE_IN_PROGRESS" outs)] [] [] [] 0 in
  let r := deleteStack world 2 "StackName" w in
  outcome r = Resolved None
  /\ trace r =
     [ DescribeStacksCommand "StackName" (inr (stackIn "StackName" "CREATE_COMPLETE" outs));
       Log level_info [LogString "Emptying S3 bucket"; LogString "bucket-name"];
       EmptyBucket "bucket-name" (mkPromise 0 (inr tt));
       DeleteStackCommand (stackParams "StackName") (inr tt);
       DescribeStacksCommand "StackName" (inr (stackIn "StackName" "DELETE_IN_PROGRESS" outs));
       Log level_info [LogString "Waiting for stack operation to complete. This may take some time - DELETE_IN_PROGRESS"];
       SetTimeout 5000;
       DescribeStacksCommand "StackName" (inl notFound);
       Log level_info [LogString "Stack deleted or never existed."] ].
Proof. vm_compute. split; reflexivity. Qed.

(** "upserts stack - with review" *)
Example upsert_review_accepted :
  let w := mkScript disk
             [inr created; inr created]
             [inr (mkChangeSet "cf-utils-StackName-preview" "StackName" "CREATE_COMPLETE" None);
              inr (mkChangeSet "cf-utils-StackName-preview" "StackName" "CREATE_COMPLETE" None)]
             [] [inr true] 0 in
  let r := upsertStack world 2 "StackName" plain inputs (OptionsBoolean true) w in
  outcome r = Resolved (Some created)
  /\ mutations (trace r)
     = [CreateChangeSetCommand (set_ChangeSetName (Some "cf-utils-StackName-preview") plainRequest)
                               (inr tt);
        DeleteChangeSetCommand (changeSetParams "StackName" "cf-utils-StackName-preview") (inr tt);
        UpdateStackCommand plainRequest (inr tt)].
Proof. vm_compute. split; reflexivity. Qed.

(** An upload: the template goes to the bucket under the key that the
    missing prefix makes, and the stack is created from its address. *)
Example upsert_uploads_template :
  let w := mkScript disk [] [] [] [] 0 in
  let r := upsertStack world 3 "StackName" plain inputs
                       (OptionsObject (mkOptions None (Some "artifacts") None None)) w in
  outcome r = Resolved None
  /\ trace r
     = [ReadFileSync plain (inr "Resources: {}");
        PutS3Object "artifacts" "undefined/path/to/script.yaml" plain (inr tt);
        DescribeStacksCommand "StackName" (inl notFound);
        CreateStackCommand
          (mkParams "StackName"
                    (Some ["CAPABILITY_IAM"; "CAPABILITY_NAMED_IAM"; "CAPABILITY_AUTO_EXPAND"])
                    (Some inputs) None
                    (Some "https://s3.amazonaws.com/artifacts/undefined/path/to/script.yaml")
                    (Some true) None None)
          (inr tt);
        DescribeStacksCommand "StackName" (inl notFound);
        Log level_info [LogString "Stack deleted or never existed."]].
Proof. vm_compute. split; reflexivity. Qed.

End Replay.

(** * The orchestrator against an arbitrary world *)

Section Polling.

Context {W : Type}.
Variable world : World W.

#[local] Arguments String.append : simpl never.

Lemma stackSucceeded_iff (status : string) :
  stackSucceeded status = true <-> In status ["CREATE_COMPLETE"; "UPDATE_COMPLETE"].
Proof.
  unfold stackSucceeded. rewrite orb_true_iff, !String.eqb_eq. simpl.
  intuition congruence.
Qed.

Lemma stackFailed_iff (status : string) :
  stackFailed status = true <->
  In status ["ROLLBACK_COMPLETE"; "UPDATE_ROLLBACK_COMPLETE";
             "CREATE_FAILED"; "UPDATE_FAILED"; "DELETE_FAILED"].
Proof.
  unfold stackFailed. rewrite !orb_true_iff, !String.eqb_eq. simpl.
  intuition congruence.
Qed.

Lemma pollStack_observe (rounds : nat) (params : Params) (w w' : W)
      (data : DescribeStacksOutput) (stack : Stack) (rest : list Stack) :
  cf_DescribeStacks world (StackName params) w = (inr data, w') ->
  Stacks data = stack :: rest ->
  pollStack world (S rounds) params w =
  if stackSucceeded (StackStatus stack) then
    mkRun (Resolved (Some data)) w'
          [DescribeStacksCommand (StackName params) (inr data);
           Log level_info [LogString "Stack operation completed"]]
  else if stackFailed (StackStatus stack) then
    mkRun (Rejected (Error "Stack operation failed")) w'
          [DescribeStacksCommand (StackName params) (inr data);
           Log level_warn [LogStackDetails data]]
  else
    after [DescribeStacksCommand (StackName params) (inr data);
           Log level_info
               [LogString ("Waiting for stack operation to complete. This may take some time - "
                           ++ StackStatus stack)];
           SetTimeout POLL_TIMEOUT]
          (pollStack world rounds params w').
Proof.
  intros Hd Hs. cbn. unfold bind, attempt, sendDescribeStacks, send. rewrite Hd. cbn.
  rewrite Hs.
  destruct (stackSucceeded (StackStatus stack)); [reflexivity |].
  destruct (stackFailed (StackStatus stack)); reflexivity.
Qed.

Lemma pollStack_unreadable (rounds : nat) (params : Params) (w w' : W)
      (data : DescribeStacksOutput) :
  cf_DescribeStacks world (StackName params) w = (inr data, w') ->
  Stacks data = [] ->
  pollStack world (S rounds) params w =
  mkRun (Rejected (TypeError "Cannot read properties of undefined (reading 'StackStatus')")) w'
        [DescribeStacksCommand (StackName params) (inr data)].
Proof.
  intros Hd Hs. cbn. unfold bind, attempt, sendDescribeStacks, send. rewrite Hd. cbn.
  rewrite Hs. reflexivity.
Qed.

Lemma pollStack_probe_failed (rounds : nat) (params : Params) (w w' : W) (err : JsError) :
  cf_DescribeStacks world (StackName params) w = (inl err, w') ->
  pollStack world (S rounds) params w =
  if JsString.includes (message err) "does not exist" then
    mkRun (Resolved None) w'
          [DescribeStacksCommand (StackName params) (inl err);
           Log level_info [LogString "Stack deleted or never existed."]]
  else
    mkRun (Rejected err) w' [DescribeStacksCommand (StackName params) (inl err)].
Proof.
  intros Hd. cbn. unfold bind, attempt, sendDescribeStacks, send. rewrite Hd. cbn.
  unfold JsString.includes.
  destruct (0 <=? JsString.indexOf (message err) "does not exist"); reflexivity.
Qed.

Lemma pollChangeSet_observe (rounds : nat) (params : Params) (w w' : W)
      (cs : ChangeSetDescription) :
  cf_DescribeChangeSet world (ChangeSetName params) (StackName params) w = (inr cs, w') ->
  let observed := DescribeChangeSetCommand (ChangeSetName params) (StackName params) (inr cs) in
  pollChangeSet world (S rounds) params w =
  if (Status cs =? "CREATE_COMPLETE")%string then
    mkRun (Resolved (Some cs)) w' [observed; Log level_info [LogString "Change set created"]]
  else if ((Status cs =? "UPDATE_COMPLETE") || (Status cs =? "DELETE_COMPLETE"))%string then
    mkRun (Resolved (Some cs)) w' [observed]
  else if (Status cs =? "FAILED")%string then
    match StatusReason cs with
    | None =>
        mkRun (Rejected (TypeError "Cannot read properties of undefined (reading 'indexOf')"))
              w' [observed]
    | Some reason =>
        if JsString.includes reason "No updates are to be performed"
           || JsString.includes reason "didn't contain changes" then
          mkRun (Resolved None) w'
                [observed; Log level_info [LogString "No updates are to be performed"]]
        else
          mkRun (Rejected (Error "Changeset creation failed")) w'
                [observed; Log level_warn [LogChangeSet cs]]
    end
  else
    after [observed;
           Log level_info [LogString ("Waiting for change set to be created - " ++ Status cs)];
           SetTimeout POLL_TIMEOUT]
          (pollChangeSet world rounds params w').
Proof.
  intros Hd observed. subst observed. cbn.
  unfold bind, attempt, sendDescribeChangeSet, send. rewrite Hd. cbn.
  destruct (Status cs =? "CREATE_COMPLETE")%string; [reflexivity |].
  destruct ((Status cs =? "UPDATE_COMPLETE") || (Status cs =? "DELETE_COMPLETE"))%string;
    [reflexivity |].
  destruct (Status cs =? "FAILED")%string; [| reflexivity].
  destruct (StatusReason cs) as [reason |]; [| reflexivity].
  unfold JsString.includes.
  destruct ((0 <=? JsString.indexOf reason "No updates are to be performed")
            || (0 <=? JsString.indexOf reason "didn't contain changes")); reflexivity.
Qed.

Lemma pollChangeSet_probe_failed (rounds : nat) (params : Params) (w w' : W) (err : JsError) :
  cf_DescribeChangeSet world (ChangeSetName params) (StackName params) w = (inl err, w') ->
  let observed := DescribeChangeSetCommand (ChangeSetName params) (StackName params) (inl err) in
  pollChangeSet world (S rounds) params w =
  if JsString.includes (message err) "does not exist" then
    mkRun (Resolved None) w'
          [observed; Log level_info [LogString "Change set deleted or never existed."]]
  else
    mkRun (Rejected err) w' [observed].
Proof.
  intros Hd observed. subst observed. cbn.
  unfold bind, attempt, sendDescribeChangeSet, send. rewrite Hd. cbn.
  unfold JsString.includes.
  destruct (0 <=? JsString.indexOf (message err) "does not exist"); reflexivity.
Qed.

(** A stack poll only describes, logs and sleeps. *)
Lemma pollStack_events (rounds : nat) (params : Params) :
  forall w, Forall stackPollEvent (trace (pollStack world rounds params w)).
Proof.
  induction rounds as [|rounds IH]; intros w; [constructor |].
  destruct (cf_DescribeStacks world (StackName params) w) as [[err | data] w'] eqn:Hd.
  - rewrite (pollStack_probe_failed _ _ _ _ _ Hd).
    destruct (JsString.includes _ _); cbn; repeat constructor.
  - destruct (Stacks data) as [|stack rest] eqn:Hs.
    + rewrite (pollStack_unreadable _ _ _ _ _ Hd Hs). repeat constructor.
    + rewrite (pollStack_observe _ _ _ _ _ _ _ Hd Hs).
      destruct (stackSucceeded _); [repeat constructor |].
      destruct (stackFailed _); [repeat constructor |].
      cbn. repeat (constructor; [exact I |]). apply IH.
Qed.

(** A change-set poll only describes, logs and sleeps. *)
Lemma pollChangeSet_events (rounds : nat) (params : Params) :
  forall w, Forall changeSetPollEvent (trace (pollChangeSet world rounds params w)).
Proof.
  induction rounds as [|rounds IH]; intros w; [constructor |].
  destruct (cf_DescribeChangeSet world (ChangeSetName params) (StackName params) w)
    as [[err | cs] w'] eqn:Hd.
  - rewrite (pollChangeSet_probe_failed _ _ _ _ _ Hd).
    destruct (JsString.includes _ _); cbn; repeat constructor.
  - rewrite (pollChangeSet_observe _ _ _ _ _ Hd).
    destruct (Status cs =? "CREATE_COMPLETE")%string; [repeat constructor |].
    destruct ((Status cs =? "UPDATE_COMPLETE") || (Status cs =? "DELETE_COMPLETE"))%string;
      [repeat constructor |].
    destruct (Status cs =? "FAILED")%string.
    + destruct (StatusReason cs) as [reason |]; [| repeat constructor].
      destruct (_ || _); repeat constructor.
    + cbn. repeat (constructor; [exact I |]). apply IH.
Qed.

(** A stack poll is fulfilled with a description only when the first
    stack of that description is in one of the two stable statuses. *)
Lemma pollStack_resolves_stable (rounds : nat) (params : Params) :
  forall w data,
    outcome (pollStack world rounds params w) = Resolved (Some data) ->
    exists stack rest, Stacks data = stack :: rest
                       /\ stackSucceeded (StackStatus stack) = true.
Proof.
  induction rounds as [|rounds IH]; intros w data; [discriminate |].
  destruct (cf_DescribeStacks world (StackName params) w) as [[err | d] w'] eqn:Hd.
  - rewrite (pollStack_probe_failed _ _ _ _ _ Hd).
    destruct (JsString.includes _ _); discriminate.
  - destruct (Stacks d) as [|stack rest] eqn:Hs.
    + rewrite (pollStack_unreadable _ _ _ _ _ Hd Hs). discriminate.
    + rewrite (pollStack_observe _ _ _ _ _ _ _ Hd Hs).
      destruct (stackSucceeded _) eqn:Hok.
      * cbn. intros [= <-]. eauto.
      * destruct (stackFailed _); [discriminate |]. cbn. apply IH.
Qed.

(** While the stack waits, the poll describes, logs and sleeps, once for
    every status it is shown. *)
Lemma pollStack_waits (params : Params) (waits : nat) (w w' : W) :
  StackWaits world (StackName params) waits w w' ->
  forall rounds,
  exists t,
    pollStack world (waits + rounds) params w = after t (pollStack world rounds params w')
    /\ length (filter isDescribeStacks t) = waits
    /\ Forall stackPollEvent t.
Proof.
  induction 1 as [w | w w1 w' seen stack rest waits Hd Hs Hok Hko _ IH]; intros rounds.
  - exists []. repeat split; [| constructor].
    unfold after. cbn. now destruct (pollStack world rounds params w).
  - destruct (IH rounds) as (t & Ht & Hn & Hev).
    cbn [Nat.add]. rewrite (pollStack_observe _ _ _ _ _ _ _ Hd Hs), Hok, Hko, Ht.
    exists (DescribeStacksCommand (StackName params) (inr seen)
            :: Log level_info
                   [LogString ("Waiting for stack operation to complete. This may take some time - "
                               ++ StackStatus stack)]
            :: SetTimeout POLL_TIMEOUT :: t).
    split; [reflexivity |].
    split; [cbn; now rewrite Hn | repeat (constructor; [exact I |]); exact Hev].
Qed.


(** A poll that is granted more rounds than the stack takes to vanish is
    fulfilled with nothing. *)
Lemma pollStack_vanishes (params : Params) (waits : nat) (w w' : W) (err : JsError) :
  StackVanishes world (StackName params) waits w err w' ->
  forall rounds, (waits < rounds)%nat ->
    let r := pollStack world rounds params w in
    outcome r = Resolved None /\ final r = w'.
Proof.
  intros (w1 & Hw & Hd & Hc) rounds Hlt.
  replace rounds with (waits + S (rounds - S waits))%nat by lia.
  destruct (pollStack_waits params waits w w1 Hw (S (rounds - S waits))) as (t & Ht & _).
  cbv zeta. rewrite Ht, (pollStack_probe_failed _ _ _ _ _ Hd).
  apply JsStringFacts.includes_spec in Hc. rewrite Hc. cbn. auto.
Qed.

End Polling.


(** * Status classification *)

Section Classification.

Context {W : Type}.
Variable world : World W.

#[local] Arguments String.append : simpl never.

(** C3, amended.  One observation of [pollStack] on a description whose
    first stack is [stack]: the poll is fulfilled with the description
    exactly when the status is CREATE_COMPLETE or UPDATE_COMPLETE; it stops
    at this observation with the error "Stack operation failed" exactly when
    the status is ROLLBACK_COMPLETE, UPDATE_ROLLBACK_COMPLETE, CREATE_FAILED,
    UPDATE_FAILED or DELETE_FAILED, the full description being logged as a
    warning and the error holding the message alone; on every other status
    it logs, sleeps for [POLL_TIMEOUT] and describes again. *)
Theorem pollStack_classifies_status (rounds : nat) (params : Params) (w w' : W)
        (data : DescribeStacksOutput) (stack : Stack) (rest : list Stack) :
  cf_DescribeStacks world (StackName params) w = (inr data, w') ->
  Stacks data = stack :: rest ->
  let status := StackStatus stack in
  let stable := ["CREATE_COMPLETE"; "UPDATE_COMPLETE"] in
  let failed := ["ROLLBACK_COMPLETE"; "UPDATE_ROLLBACK_COMPLETE";
                 "CREATE_FAILED"; "UPDATE_FAILED"; "DELETE_FAILED"] in
  let observed := DescribeStacksCommand (StackName params) (inr data) in
  let r := pollStack world (S rounds) params w in
  (In status stable ->
     r = mkRun (Resolved (Some data)) w'
               [observed; Log level_info [LogString "Stack operation completed"]])
  /\ (outcome r = Resolved (Some data) -> In status stable)
  /\ (In status failed ->
        r = mkRun (Rejected (Error "Stack operation failed")) w'
                  [observed; Log level_warn [LogStackDetails data]])
  /\ (trace r = [observed; Log level_warn [LogStackDetails data]] -> In status failed)
  /\ (~ In status stable -> ~ In status failed ->
        r = after [observed;
                   Log level_info
                       [LogString ("Waiting for stack operation to complete. This may take some time - "
                                   ++ status)];
                   SetTimeout POLL_TIMEOUT]
                  (pollStack world rounds params w')).
Proof.
  intros Hd Hs status stable failed observed r.
  assert (Hr := pollStack_observe world rounds params w w' data stack rest Hd Hs).
  fold r status in Hr.
  pose proof (stackSucceeded_iff status) as Hok.
  pose proof (stackFailed_iff status) as Hko.
  fold stable in Hok. fold failed in Hko.
  destruct (stackSucceeded status) eqn:Eok.
  - assert (Hin : In status stable) by now apply Hok.
    assert (Hnot : ~ In status failed).
    { intros Hf. apply Hko in Hf. revert Eok Hf. unfold stackSucceeded, stackFailed.
      rewrite !orb_true_iff, !String.eqb_eq. intros [-> | ->] Hf;
        repeat (destruct Hf as [Hf | Hf]; try discriminate). }
    repeat split; intros; try tauto.
    + rewrite Hr in H. discriminate.
  - assert (Hnin : ~ In status stable)
      by (intros Hin; apply Hok in Hin; discriminate).
    destruct (stackFailed status) eqn:Eko.
    + assert (Hin : In status failed) by now apply Hko.
      repeat split; intros; try tauto.
      rewrite Hr in H. discriminate.
    + assert (Hnf : ~ In status failed)
        by (intros Hin; apply Hko in Hin; discriminate).
      repeat split; intros; try tauto.
      * exfalso. rewrite Hr in H. cbn in H.
        destruct (pollStack_resolves_stable world rounds params w' data H)
          as (stack' & rest' & Hs' & Hok').
        rewrite Hs in Hs'. injection Hs' as <- _. fold status in Hok'. congruence.
      * exfalso. rewrite Hr in H. cbn in H. discriminate.
Qed.

(** C2, amended.  One observation of [pollChangeSet]: on FAILED with a
    reason that contains "No updates are to be performed" or "didn't
    contain changes" the poll is fulfilled with nothing; on FAILED with any
    other reason it is rejected with the error "Changeset creation failed",
    the description being logged as a warning and the error holding the
    message alone; on CREATE_COMPLETE, UPDATE_COMPLETE and DELETE_COMPLETE it
    is fulfilled with the description; on every other status it logs, sleeps
    for [POLL_TIMEOUT] and describes again. *)
Theorem pollChangeSet_classifies_status (rounds : nat) (params : Params) (w w' : W)
        (cs : ChangeSetDescription) :
  cf_DescribeChangeSet world (ChangeSetName params) (StackName params) w = (inr cs, w') ->
  let observed := DescribeChangeSetCommand (ChangeSetName params) (StackName params) (inr cs) in
  let r := pollChangeSet world (S rounds) params w in
  (forall reason,
      Status cs = "FAILED" -> StatusReason cs = Some reason ->
      (JsString.Contains reason "No updates are to be performed"
       \/ JsString.Contains reason "didn't contain changes" ->
       r = mkRun (Resolved None) w'
                 [observed; Log level_info [LogString "No updates are to be performed"]])
      /\ (~ JsString.Contains reason "No updates are to be performed" ->
          ~ JsString.Contains reason "didn't contain changes" ->
          r = mkRun (Rejected (Error "Changeset creation failed")) w'
                    [observed; Log level_warn [LogChangeSet cs]]))
  /\ (Status cs = "CREATE_COMPLETE" ->
      r = mkRun (Resolved (Some cs)) w'
                [observed; Log level_info [LogString "Change set created"]])
  /\ (In (Status cs) ["UPDATE_COMPLETE"; "DELETE_COMPLETE"] ->
      r = mkRun (Resolved (Some cs)) w' [observed])
  /\ (~ In (Status cs) ["CREATE_COMPLETE"; "UPDATE_COMPLETE"; "DELETE_COMPLETE"; "FAILED"] ->
      r = after [observed;
                 Log level_info [LogString ("Waiting for change set to be created - " ++ Status cs)];
                 SetTimeout POLL_TIMEOUT]
                (pollChangeSet world rounds params w')).
Proof.
  intros Hd observed r.
  assert (Hr := pollChangeSet_observe world rounds params w w' cs Hd).
  cbv zeta in Hr. fold observed r in Hr. clearbody r.
  split; [| split; [| split]].
  - intros reason Hst Hreason. rewrite Hst, Hreason in Hr. cbn in Hr.
    split.
    + intros Hc. rewrite Hr.
      assert (E : JsString.includes reason "No updates are to be performed"
                  || JsString.includes reason "didn't contain changes" = true).
      { apply orb_true_iff. destruct Hc as [Hc | Hc]; [left | right];
          now apply JsStringFacts.includes_spec. }
      now rewrite E.
    + intros H1 H2. rewrite Hr.
      apply JsStringFacts.includes_false in H1, H2. now rewrite H1, H2.
  - intros E. rewrite E in Hr. exact Hr.
  - intros Hin. simpl in Hin.
    destruct Hin as [E | [E | []]]; rewrite <- E in Hr; exact Hr.
  - intros Hnin. simpl in Hnin.
    destruct (Status cs =? "CREATE_COMPLETE")%string eqn:E1;
      [apply String.eqb_eq in E1; symmetry in E1; tauto |].
    destruct (Status cs =? "UPDATE_COMPLETE")%string eqn:E2;
      [apply String.eqb_eq in E2; symmetry in E2; tauto |].
    destruct (Status cs =? "DELETE_COMPLETE")%string eqn:E3;
      [apply String.eqb_eq in E3; symmetry in E3; tauto |].
    destruct (Status cs =? "FAILED")%string eqn:E4;
      [apply String.eqb_eq in E4; symmetry in E4; tauto |].
    exact Hr.
Qed.

End Classification.


(** C3 as stated fails where it has the error carry the full stack
    detail.  A stack whose creation failed ends the poll with the error
    that [new Error('Stack operation failed')] makes: nothing is attached
    to it, and a different stack in another failure status ends the poll
    with the very same error. *)
Lemma pollStack_failure_error_is_bare :
  let r := pollStack Scripted.world 1 (stackParams "StackName")
                     (Fixtures.describing [inr Fixtures.failedCreate]) in
  outcome r = Rejected (mkError "Error" "Stack operation failed" [])
  /\ ~ (exists e, outcome r = Rejected e /\ In (StackDetails Fixtures.failedCreate) (attached e))
  /\ In (Log level_warn [LogStackDetails Fixtures.failedCreate]) (trace r)
  /\ Fixtures.failedCreate <> Fixtures.rolledBack
  /\ outcome (pollStack Scripted.world 1 (stackParams "StackName")
                        (Fixtures.describing [inr Fixtures.rolledBack]))
     = outcome r.
Proof.
  cbv zeta. split; [reflexivity |]. split; [| split; [| split]].
  - intros (e & He & Hin). vm_compute in He. injection He as <-. destruct Hin.
  - vm_compute. tauto.
  - discriminate.
  - reflexivity.
Qed.

Lemma pollStack_classifies_status_witness :
  cf_DescribeStacks Scripted.world "StackName" (Fixtures.describing [inr Fixtures.failedCreate])
  = (inr Fixtures.failedCreate, Fixtures.describing [])
  /\ Stacks Fixtures.failedCreate = [mkStack "StackName" "CREATE_FAILED" None]
  /\ pollStack Scripted.world 1 (stackParams "StackName")
               (Fixtures.describing [inr Fixtures.failedCreate])
     = mkRun (Rejected (Error "Stack operation failed")) (Fixtures.describing [])
             [DescribeStacksCommand "StackName" (inr Fixtures.failedCreate);
              Log level_warn [LogStackDetails Fixtures.failedCreate]].
Proof.
  split; [reflexivity |]. split; [reflexivity |].
  apply (pollStack_classifies_status Scripted.world 0 (stackParams "StackName")
           (Fixtures.describing [inr Fixtures.failedCreate]) (Fixtures.describing [])
           Fixtures.failedCreate (mkStack "StackName" "CREATE_FAILED" None) []
           eq_refl eq_refl).
  simpl. tauto.
Defined.

(** C2 as stated fails where it has the error carry the change-set
    detail.  A change set that failed for a reason of its own ends the poll
    with the error that [new Error('Changeset creation failed')] makes:
    nothing is attached to it, and a change set that failed for another
    reason ends the poll with the very same error. *)
Lemma pollChangeSet_failure_error_is_bare :
  let cs := Fixtures.failedChangeSet "Template format error" in
  let r := pollChangeSet Scripted.world 1 (changeSetParams "StackName" "ChangeSetName")
                         (Fixtures.describingChangeSets [inr cs]) in
  outcome r = Rejected (mkError "Error" "Changeset creation failed" [])
  /\ ~ (exists e, outcome r = Rejected e /\ In (ChangeSetDetails cs) (attached e))
  /\ In (Log level_warn [LogChangeSet cs]) (trace r)
  /\ cs <> Fixtures.failedChangeSet "Access denied"
  /\ outcome (pollChangeSet Scripted.world 1 (changeSetParams "StackName" "ChangeSetName")
                (Fixtures.describingChangeSets [inr (Fixtures.failedChangeSet "Access denied")]))
     = outcome r.
Proof.
  cbv zeta. split; [reflexivity |]. split; [| split; [| split]].
  - intros (e & He & Hin). vm_compute in He. injection He as <-. destruct Hin.
  - vm_compute. tauto.
  - discriminate.
  - reflexivity.
Qed.

Lemma pollChangeSet_classifies_status_witness :
  cf_DescribeChangeSet Scripted.world (Some "ChangeSetName") "StackName"
    (Fixtures.describingChangeSets [inr (Fixtures.failedChangeSet "The submitted information didn't contain changes.")])
  = (inr (Fixtures.failedChangeSet "The submitted information didn't contain changes."),
     Fixtures.describingChangeSets [])
  /\ pollChangeSet Scripted.world 1 (changeSetParams "StackName" "ChangeSetName")
       (Fixtures.describingChangeSets
          [inr (Fixtures.failedChangeSet "The submitted information didn't contain changes.")])
     = mkRun (Resolved None) (Fixtures.describingChangeSets [])
         [DescribeChangeSetCommand (Some "ChangeSetName") "StackName"
            (inr (Fixtures.failedChangeSet "The submitted information didn't contain changes."));
          Log level_info [LogString "No updates are to be performed"]].
Proof.
  split; [reflexivity |].
  apply (proj1 (proj1 (pollChangeSet_classifies_status Scripted.world 0
           (changeSetParams "StackName" "ChangeSetName")
           (Fixtures.describingChangeSets
              [inr (Fixtures.failedChangeSet "The submitted information didn't contain changes.")])
           (Fixtures.describingChangeSets [])
           (Fixtures.failedChangeSet "The submitted information didn't contain changes.")
           eq_refl) "The submitted information didn't contain changes." eq_refl eq_refl)).
  right. exists "The submitted information ", ".". reflexivity.
Defined.


(** * Creating, updating and deleting *)

Section Lifecycle.

Context {W : Type}.
Variable world : World W.

#[local] Arguments String.append : simpl never.

(** C9, amended.  When the describe of a poll is rejected with a message
    that contains "does not exist", the poll is fulfilled with nothing,
    whoever called it: neither [pollStack] nor [pollChangeSet] takes a
    switch that would make the condition fatal, and each is decided by
    its own describe alone.  A describe rejected with any other message
    rejects the poll with that very error.  So it is in the calls that
    poll: [createStack], [updateStack] and [executeChangeSet] after an
    accepted request, and [createChangeSet] and [deleteChangeSet] after
    theirs, are fulfilled with nothing when the describe says that there
    is no such stack or change set. *)
Theorem poll_not_found_is_fulfilled (rounds : nat) (params : Params) (w w' : W)
        (err : JsError) :
  let stackGone :=
    [DescribeStacksCommand (StackName params) (inl err);
     Log level_info [LogString "Stack deleted or never existed."]] in
  let changeSetGone :=
    [DescribeChangeSetCommand (ChangeSetName params) (StackName params) (inl err);
     Log level_info [LogString "Change set deleted or never existed."]] in
  (cf_DescribeStacks world (StackName params) w = (inl err, w') ->
   (JsString.Contains (message err) "does not exist" ->
    pollStack world (S rounds) params w = mkRun (Resolved None) w' stackGone)
   /\ (~ JsString.Contains (message err) "does not exist" ->
       pollStack world (S rounds) params w
       = mkRun (Rejected err) w' [DescribeStacksCommand (StackName params) (inl err)]))
  /\ (cf_DescribeChangeSet world (ChangeSetName params) (StackName params) w = (inl err, w') ->
      (JsString.Contains (message err) "does not exist" ->
       pollChangeSet world (S rounds) params w = mkRun (Resolved None) w' changeSetGone)
      /\ (~ JsString.Contains (message err) "does not exist" ->
          pollChangeSet world (S rounds) params w
          = mkRun (Rejected err) w'
                  [DescribeChangeSetCommand (ChangeSetName params) (StackName params)
                                            (inl err)]))
  /\ (forall w0 : W,
        cf_DescribeStacks world (StackName params) w = (inl err, w') ->
        JsString.Contains (message err) "does not exist" ->
        (cf_CreateStack world (set_DisableRollback (Some true) params) w0 = (inr tt, w) ->
         createStack world (S rounds) params w0
         = mkRun (Resolved None) w'
                 (CreateStackCommand (set_DisableRollback (Some true) params) (inr tt)
                  :: stackGone))
        /\ (cf_UpdateStack world params w0 = (inr tt, w) ->
            updateStack world (S rounds) params w0
            = mkRun (Resolved None) w' (UpdateStackCommand params (inr tt) :: stackGone))
        /\ (cf_ExecuteChangeSet world params w0 = (inr tt, w) ->
            executeChangeSet world (S rounds) params w0
            = mkRun (Resolved None) w' (ExecuteChangeSetCommand params (inr tt) :: stackGone)))
  /\ (forall w0 : W,
        cf_DescribeChangeSet world (ChangeSetName params) (StackName params) w = (inl err, w') ->
        JsString.Contains (message err) "does not exist" ->
        (cf_CreateChangeSet world params w0 = (inr tt, w) ->
         createChangeSet world (S rounds) params w0
         = mkRun (Resolved None) w' (CreateChangeSetCommand params (inr tt) :: changeSetGone))
        /\ (cf_DeleteChangeSet world params w0 = (inr tt, w) ->
            deleteChangeSet world (S rounds) params w0
            = mkRun (Resolved None) w'
                    (DeleteChangeSetCommand params (inr tt) :: changeSetGone))).
Proof.
  intros stackGone changeSetGone.
  assert (Hstack : cf_DescribeStacks world (StackName params) w = (inl err, w') ->
                   JsString.Contains (message err) "does not exist" ->
                   pollStack world (S rounds) params w = mkRun (Resolved None) w' stackGone).
  { intros Hd Hc. rewrite (pollStack_probe_failed world rounds params w w' err Hd).
    apply JsStringFacts.includes_spec in Hc. now rewrite Hc. }
  assert (Hset : cf_DescribeChangeSet world (ChangeSetName params) (StackName params) w
                 = (inl err, w') ->
                 JsString.Contains (message err) "does not exist" ->
                 pollChangeSet world (S rounds) params w
                 = mkRun (Resolved None) w' changeSetGone).
  { intros Hd Hc. rewrite (pollChangeSet_probe_failed world rounds params w w' err Hd).
    apply JsStringFacts.includes_spec in Hc. now rewrite Hc. }
  split; [| split; [| split]].
  - intros Hd. split; [exact (Hstack Hd) |].
    intros Hc. rewrite (pollStack_probe_failed world rounds params w w' err Hd).
    apply JsStringFacts.includes_false in Hc. now rewrite Hc.
  - intros Hd. split; [exact (Hset Hd) |].
    intros Hc. rewrite (pollChangeSet_probe_failed world rounds params w w' err Hd).
    apply JsStringFacts.includes_false in Hc. now rewrite Hc.
  - intros w0 Hd Hc. specialize (Hstack Hd Hc). split; [| split]; intros Hsent.
    + unfold createStack, bind at 1, sendCreateStack, send. rewrite Hsent.
      cbn [outcome final trace].
      rewrite (pollStack_probe_failed world rounds (set_DisableRollback (Some true) params)
                 w w' err Hd).
      apply JsStringFacts.includes_spec in Hc. now rewrite Hc.
    + unfold updateStack, bind at 1, bind at 1, attempt, sendUpdateStack, send. rewrite Hsent.
      cbn [outcome final trace ret after app]. now rewrite Hstack.
    + unfold executeChangeSet, bind at 1, sendExecuteChangeSet, send. rewrite Hsent.
      cbn [outcome final trace]. now rewrite Hstack.
  - intros w0 Hd Hc. specialize (Hset Hd Hc). split; intros Hsent.
    + unfold createChangeSet, bind at 1, sendCreateChangeSet, send. rewrite Hsent.
      cbn [outcome final trace]. now rewrite Hset.
    + unfold deleteChangeSet, bind at 1, sendDeleteChangeSet, send. rewrite Hsent.
      cbn [outcome final trace]. now rewrite Hset.
Qed.



(** C4.  [deleteStack] on a stack that is gone: the describe is rejected
    with a message that contains "does not exist", and the call is
    fulfilled after that describe and one line of log; no bucket is
    emptied, no [DeleteStackCommand] is sent and nothing is polled, however
    many rounds the call was granted. *)
Theorem deleteStack_absent_stack_no_effects (rounds : nat) (stackName : string) (w w' : W)
        (err : JsError) :
  cf_DescribeStacks world stackName w = (inl err, w') ->
  JsString.Contains (message err) "does not exist" ->
  deleteStack world rounds stackName w
  = mkRun (Resolved None) w'
          [DescribeStacksCommand stackName (inl err);
           Log level_info [LogString "Stack already deleted or never existed."]].
Proof.
  intros Hd Hc. apply JsStringFacts.includes_spec in Hc.
  unfold deleteStack, bind, attempt, sendDescribeStacks, send. rewrite Hd. cbn.
  rewrite Hc. reflexivity.
Qed.

End Lifecycle.

Lemma poll_not_found_is_fulfilled_witness :
  let params := changeSetParams "StackName" "cf-utils-StackName-preview" in
  let w := Scripted.mkScript [] [inr Fixtures.updated] [] [] [] 0 in
  cf_DescribeChangeSet Scripted.world (Some "cf-utils-StackName-preview") "StackName" w
  = (inl Scripted.notFound, w)
  /\ cf_DescribeStacks Scripted.world "StackName" w
     = (inr Fixtures.updated, Fixtures.describing [])
  /\ JsString.Contains (message Scripted.notFound) "does not exist"
  /\ pollChangeSet Scripted.world 1 params w
     = mkRun (Resolved None) w
             [DescribeChangeSetCommand (Some "cf-utils-StackName-preview") "StackName"
                                       (inl Scripted.notFound);
              Log level_info [LogString "Change set deleted or never existed."]]
  /\ deleteChangeSet Scripted.world 1 params w
     = mkRun (Resolved None) w
             [DeleteChangeSetCommand params (inr tt);
              DescribeChangeSetCommand (Some "cf-utils-StackName-preview") "StackName"
                                       (inl Scripted.notFound);
              Log level_info [LogString "Change set deleted or never existed."]].
Proof.
  cbv zeta.
  assert (Hc : JsString.Contains (message Scripted.notFound) "does not exist")
    by (exists "", ""; reflexivity).
  pose proof (poll_not_found_is_fulfilled Scripted.world 0
                (changeSetParams "StackName" "cf-utils-StackName-preview")
                (Scripted.mkScript [] [inr Fixtures.updated] [] [] [] 0)
                (Scripted.mkScript [] [inr Fixtures.updated] [] [] [] 0)
                Scripted.notFound) as (_ & Hpoll & _ & Hcallers).
  split; [reflexivity |]. split; [reflexivity |]. split; [exact Hc |].
  split.
  - exact (proj1 (Hpoll eq_refl) Hc).
  - exact (proj2 (Hcallers (Scripted.mkScript [] [inr Fixtures.updated] [] [] [] 0)
                           eq_refl Hc) eq_refl).
Defined.

(** The reading of C9 under which the condition is fatal outside a
    deletion fails.  [createStack] polls a stack it has just asked the
    provider to create; when the describe answers that the stack does not
    exist, the call is fulfilled with nothing and the error is not
    passed on. *)
Lemma createStack_not_found_is_fulfilled :
  let r := createStack Scripted.world 1 (stackParams "StackName") (Fixtures.describing []) in
  outcome r = Resolved None
  /\ outcome r <> Rejected Scripted.notFound
  /\ trace r = [CreateStackCommand (set_DisableRollback (Some true) (stackParams "StackName"))
                                    (inr tt);
                DescribeStacksCommand "StackName" (inl Scripted.notFound);
                Log level_info [LogString "Stack deleted or never existed."]].
Proof. cbv zeta. split; [reflexivity |]. split; [discriminate | reflexivity]. Qed.


Lemma deleteStack_absent_stack_no_effects_witness :
  let w := Fixtures.describing [inr Fixtures.created; inr Fixtures.deleting] in
  let first := deleteStack Scripted.world 2 "StackName" w in
  outcome first = Resolved None
  /\ In (DeleteStackCommand (stackParams "StackName") (inr tt)) (trace first)
  /\ cf_DescribeStacks Scripted.world "StackName" (final first)
     = (inl Scripted.notFound, Fixtures.describing [])
  /\ JsString.Contains (message Scripted.notFound) "does not exist"
  /\ deleteStack Scripted.world 2 "StackName" (final first)
     = mkRun (Resolved None) (Fixtures.describing [])
             [DescribeStacksCommand "StackName" (inl Scripted.notFound);
              Log level_info [LogString "Stack already deleted or never existed."]].
Proof.
  cbv zeta. split; [reflexivity |]. split; [vm_compute; tauto |].
  split; [reflexivity |].
  assert (Hc : JsString.Contains (message Scripted.notFound) "does not exist")
    by (exists "", ""; reflexivity).
  split; [exact Hc |].
  exact (deleteStack_absent_stack_no_effects Scripted.world 2 "StackName"
           (final (deleteStack Scripted.world 2 "StackName"
                     (Fixtures.describing [inr Fixtures.created; inr Fixtures.deleting])))
           (Fixtures.describing []) Scripted.notFound eq_refl Hc).
Defined.


(** * Facts about traces *)

Section TraceFacts.

Context {W : Type}.

Lemma filter_none (f : Event -> bool) (P : Event -> Prop) (t : list Event) :
  (forall ev, P ev -> f ev = false) -> Forall P t -> filter f t = [].
Proof.
  intros Hf. induction 1 as [|ev t Hev _ IH]; simpl; [reflexivity |].
  now rewrite (Hf ev Hev).
Qed.

Lemma emptyings_app (t1 t2 : list Event) :
  emptyings (t1 ++ t2)%list = (emptyings t1 ++ emptyings t2)%list.
Proof.
  induction t1 as [|ev t1 IH]; simpl; [reflexivity |].
  destruct ev; simpl; now rewrite ?IH.
Qed.

Lemma emptyings_none (P : Event -> Prop) (t : list Event) :
  (forall ev, P ev -> forall b r, ev <> EmptyBucket b r) -> Forall P t -> emptyings t = [].
Proof.
  intros HP. induction 1 as [|ev t Hev _ IH]; simpl; [reflexivity |].
  destruct ev; auto. exfalso. eapply HP; eauto.
Qed.

Lemma emits_ret (P : Event -> Prop) (A : Type) (a : A) : emits P (@ret W A a).
Proof. intros w. constructor. Qed.

Lemma emits_throw (P : Event -> Prop) (A : Type) (e : JsError) : emits P (@throw W A e).
Proof. intros w. constructor. Qed.

Lemma emits_bind (P : Event -> Prop) (A B : Type) (m : M W A) (k : A -> M W B) :
  emits P m -> (forall a, emits P (k a)) -> emits P (bind m k).
Proof.
  intros Hm Hk w. unfold bind. specialize (Hm w).
  destruct (outcome (m w)) as [a | e |]; cbn; auto.
  apply Forall_app. split; [exact Hm | apply Hk].
Qed.

Lemma emits_send (P : Event -> Prop) (T : Type) (h : W -> Result T * W)
      (ev : Result T -> Event) :
  (forall r, P (ev r)) -> emits P (send h ev).
Proof.
  intros Hev w. unfold send. destruct (h w) as [[e | t] w']; cbn; auto.
Qed.

Lemma emits_call (P : Event -> Prop) (T : Type) (h : W -> T * W) (ev : T -> Event) :
  (forall r, P (ev r)) -> emits P (call h ev).
Proof.
  intros Hev w. unfold call. destruct (h w) as [t w']; cbn; auto.
Qed.

Lemma emits_emit (P : Event -> Prop) (ev : Event) : P ev -> emits P (@emit W ev).
Proof. intros Hev w. cbn. auto. Qed.

Lemma emits_weaken (P Q : Event -> Prop) (A : Type) (m : M W A) :
  (forall ev, P ev -> Q ev) -> emits P m -> emits Q m.
Proof.
  intros HPQ Hm w. eapply Forall_impl; [exact HPQ | apply Hm].
Qed.

(** The events of [m] come first in a run of [bind m k]. *)
Lemma bind_trace_prefix (A B : Type) (m : M W A) (k : A -> M W B) (w : W) :
  exists rest, trace (bind m k w) = (trace (m w) ++ rest)%list.
Proof.
  unfold bind. destruct (outcome (m w)) as [a | e |]; cbn.
  - eauto.
  - exists []. now rewrite app_nil_r.
  - exists []. now rewrite app_nil_r.
Qed.

Lemma send_trace (T : Type) (h : W -> Result T * W) (ev : Result T -> Event) (w : W) :
  trace (send h ev w) = [ev (fst (h w))].
Proof. unfold send. destruct (h w) as [[e | t] w']; reflexivity. Qed.

Lemma bind_resolved (A B : Type) (m : M W A) (k : A -> M W B) (w w1 : W)
      (a : A) (t : list Event) :
  m w = mkRun (Resolved a) w1 t -> bind m k w = after t (k a w1).
Proof. intros H. unfold bind. now rewrite H. Qed.

Lemma bind_rejected (A B : Type) (m : M W A) (k : A -> M W B) (w w1 : W)
      (e : JsError) (t : list Event) :
  m w = mkRun (Rejected e) w1 t -> bind m k w = mkRun (Rejected e) w1 t.
Proof. intros H. unfold bind. now rewrite H. Qed.

Lemma bind_pending (A B : Type) (m : M W A) (k : A -> M W B) (w w1 : W) (t : list Event) :
  m w = mkRun Pending w1 t -> bind m k w = mkRun Pending w1 t.
Proof. intros H. unfold bind. now rewrite H. Qed.

Lemma send_accepted (T : Type) (h : W -> Result T * W) (ev : Result T -> Event)
      (w w1 : W) (x : T) :
  h w = (inr x, w1) -> send h ev w = mkRun (Resolved x) w1 [ev (inr x)].
Proof. intros H. unfold send. now rewrite H. Qed.

Lemma after_after (A : Type) (t1 t2 : list Event) (r : Run W A) :
  after t1 (after t2 r) = after (t1 ++ t2) r.
Proof. unfold after. cbn. now rewrite app_assoc. Qed.

(** The events of a sequence: those of its first part, then those of
    what follows when the first part is fulfilled. *)
Lemma bind_trace (A B : Type) (m : M W A) (k : A -> M W B) (w : W) :
  trace (bind m k w)
  = (trace (m w)
     ++ match outcome (m w) with
        | Resolved a => trace (k a (final (m w)))
        | _ => []
        end)%list.
Proof.
  unfold bind. destruct (outcome (m w)); cbn; [reflexivity | |]; now rewrite app_nil_r.
Qed.

Lemma send_bind_trace (T B : Type) (h : W -> Result T * W) (ev : Result T -> Event)
      (k : T -> M W B) (w : W) :
  trace (bind (send h ev) k w)
  = ev (fst (h w))
    :: match fst (h w) with
       | inr x => trace (k x (snd (h w)))
       | inl _ => []
       end.
Proof.
  unfold bind, send. destruct (h w) as [[e | x] w']; reflexivity.
Qed.

Lemma emit_bind_trace (B : Type) (ev : Event) (k : unit -> M W B) (w : W) :
  trace (bind (emit ev) k w) = ev :: trace (k tt w).
Proof. reflexivity. Qed.

Lemma after_nil (A : Type) (r : Run W A) : after [] r = r.
Proof. now destruct r. Qed.

Lemma bind_ret (A B : Type) (a : A) (k : A -> M W B) (w : W) : bind (ret a) k w = k a w.
Proof. unfold bind, ret. cbn. apply after_nil. Qed.

Lemma emits_attempt (P : Event -> Prop) (A : Type) (m : M W A) :
  emits P m -> emits P (attempt m).
Proof.
  intros Hm w. unfold attempt. specialize (Hm w).
  destruct (outcome (m w)); exact Hm.
Qed.

Lemma emits_bind_ret (P : Event -> Prop) (A B : Type) (a : A) (k : A -> M W B) :
  emits P (k a) -> emits P (bind (ret a) k).
Proof.
  intros Hk w. unfold bind, ret. cbn. exact (Hk w).
Qed.

End TraceFacts.


(** * Upserting *)

Section Upsert.

Context {W : Type}.
Variable world : World W.

#[local] Arguments String.append : simpl never.

(** [upsertStack] without an upload, once the flag and the request are
    worked out: the stack is described, and the reply picks the path. *)
Lemma upsertStack_after_probe (rounds : nat) (stackName script : string)
      (parameters : list StackParameter) (options : OptionsArg)
      (w w0 w1 w2 : W) (flag : bool) (params : Params) (pre0 pre1 : list Event)
      (reply : Result DescribeStacksOutput) :
  truthy (s3Bucket (normalizeOptions options)) = false ->
  detectTransforms world (normalizeOptions options) script w = mkRun (Resolved flag) w0 pre0 ->
  buildParams world stackName script parameters w0 = mkRun (Resolved params) w1 pre1 ->
  cf_DescribeStacks world stackName w1 = (reply, w2) ->
  upsertStack world (S rounds) stackName script parameters options w
  = after (pre0 ++ pre1 ++ [DescribeStacksCommand stackName reply])
          (match reply with
           | inl _ => createPath world rounds flag params w2
           | inr _ => updatePath world rounds (isTrue (review (normalizeOptions options)))
                                 flag params w2
           end).
Proof.
  intros Hs3 Hflag Hparams Hd. cbn [upsertStack]. unfold bind at 1. rewrite Hflag. cbn.
  rewrite Hs3. unfold bind at 1. rewrite Hparams. cbn.
  unfold bind at 1, attempt, sendDescribeStacks, send. rewrite Hd.
  destruct reply as [err | data]; cbn; unfold after; cbn; rewrite <- !app_assoc; reflexivity.
Qed.

(** The request that [buildParams] makes is for the stack it was asked
    for. *)
Lemma buildParams_StackName (stackName script : string) (parameters : list StackParameter)
      (w w' : W) (params : Params) (t : list Event) :
  buildParams world stackName script parameters w = mkRun (Resolved params) w' t ->
  StackName params = stackName.
Proof.
  unfold buildParams.
  destruct (JsString.substring0 10 script =? "https://s3")%string.
  - cbn. intros [= <- _ _]. reflexivity.
  - unfold bind, existsSync, call. destruct (fs_existsSync world script w) as [found wa]. cbn.
    destruct found; cbn; [| discriminate].
    unfold readFileSync, send. destruct (fs_readFileSync world script wa) as [[err | body] wb];
      cbn; [discriminate |].
    intros [= <- _ _]. reflexivity.
Qed.

(** Working out the flag and the request touches the file system only. *)
Lemma detectTransforms_events (options : Options) (script : string) :
  emits fileEvent (detectTransforms world options script).
Proof.
  unfold detectTransforms. destruct (containsTransforms options).
  - apply emits_ret.
  - apply emits_bind; [| intros; apply emits_ret].
    apply emits_send. intros r. exact I.
Qed.

Lemma buildParams_events (stackName script : string) (parameters : list StackParameter) :
  emits fileEvent (buildParams world stackName script parameters).
Proof.
  unfold buildParams. destruct (JsString.substring0 10 script =? "https://s3")%string.
  - apply emits_ret.
  - apply emits_bind; [apply emits_call; intros r; exact I |].
    intros found. destruct found; cbn.
    + apply emits_bind; [apply emits_send; intros r; exact I | intros; apply emits_ret].
    + apply emits_throw.
Qed.

Lemma fileEvents_no_mutation (t : list Event) : Forall fileEvent t -> mutations t = [].
Proof.
  apply (filter_none isMutation fileEvent). intros [] H; try reflexivity; destruct H.
Qed.

Lemma mutations_app (t1 t2 : list Event) :
  mutations (t1 ++ t2) = (mutations t1 ++ mutations t2)%list.
Proof. apply filter_app. Qed.

Lemma pollStack_no_mutation (rounds : nat) (params : Params) (w : W) :
  mutations (trace (pollStack world rounds params w)) = [].
Proof.
  apply (filter_none isMutation stackPollEvent); [| apply pollStack_events].
  intros [] H; try reflexivity; destruct H.
Qed.

Lemma pollChangeSet_no_mutation (rounds : nat) (params : Params) (w : W) :
  mutations (trace (pollChangeSet world rounds params w)) = [].
Proof.
  apply (filter_none isMutation changeSetPollEvent); [| apply pollChangeSet_events].
  intros [] H; try reflexivity; destruct H.
Qed.

(** The first event of [applyChangeSet] is the request for the change
    set. *)
Lemma applyChangeSet_first (rounds : nat) (params : Params) (w : W) :
  exists rest,
    trace (applyChangeSet world rounds params w)
    = CreateChangeSetCommand params (fst (cf_CreateChangeSet world params w)) :: rest.
Proof.
  unfold applyChangeSet.
  destruct (bind_trace_prefix _ _ (createChangeSet world rounds params)
              (fun cs => match cs with
                         | Some cs => executeChangeSet world rounds
                                        (changeSetParams (cs_StackName cs) (cs_ChangeSetName cs))
                         | None => ret None
                         end) w) as [rest1 H1].
  rewrite H1. unfold createChangeSet.
  destruct (bind_trace_prefix _ _ (sendCreateChangeSet world params)
              (fun _ => pollChangeSet world rounds params) w) as [rest2 H2].
  rewrite H2. unfold sendCreateChangeSet. rewrite send_trace. cbn. eauto.
Qed.

(** C10.  [upsertStack] without an upload, once the flag and the request
    are worked out: whatever error the describe is rejected with, the call
    goes on to create the stack.  Without transforms it is [createStack],
    whose first request is a [CreateStackCommand] with rollback disabled;
    with transforms the first request is a [CreateChangeSetCommand] of type
    CREATE.  The error of the describe is used for nothing. *)
Theorem upsertStack_describe_error_creates (rounds : nat) (stackName script : string)
        (parameters : list StackParameter) (options : OptionsArg)
        (w w0 w1 w2 : W) (flag : bool) (params : Params) (pre0 pre1 : list Event)
        (err : JsError) :
  truthy (s3Bucket (normalizeOptions options)) = false ->
  detectTransforms world (normalizeOptions options) script w = mkRun (Resolved flag) w0 pre0 ->
  buildParams world stackName script parameters w0 = mkRun (Resolved params) w1 pre1 ->
  cf_DescribeStacks world stackName w1 = (inl err, w2) ->
  let r := upsertStack world (S rounds) stackName script parameters options w in
  let probe := (pre0 ++ pre1 ++ [DescribeStacksCommand stackName (inl err)])%list in
  (flag = false ->
   r = after probe (createStack world rounds params w2)
   /\ exists reply rest,
        trace r = (probe ++ CreateStackCommand (set_DisableRollback (Some true) params) reply
                         :: rest)%list)
  /\ (flag = true ->
      r = after probe (deployViaChangeSet world rounds "CREATE" params w2)
      /\ exists request reply rest,
           trace r = (probe
                      ++ Log level_info
                             [LogString "Stack contains transforms, deploying via change set..."]
                      :: DateNow (fst (Date_now world w2))
                      :: CreateChangeSetCommand request reply :: rest)%list
           /\ ChangeSetType request = Some "CREATE"
           /\ StackName request = stackName).
Proof.
  intros Hs3 Hflag Hparams Hd r probe.
  assert (Hr := upsertStack_after_probe rounds stackName script parameters options
                  w w0 w1 w2 flag params pre0 pre1 (inl err) Hs3 Hflag Hparams Hd).
  fold r probe in Hr. clearbody r.
  assert (Hname := buildParams_StackName _ _ _ _ _ _ _ Hparams).
  split; intros ->; (split; [exact Hr |]); rewrite Hr; cbn.
  - unfold createStack, bind, sendCreateStack, send.
    destruct (cf_CreateStack world (set_DisableRollback (Some true) params) w2)
      as [[e | u] w3]; cbn; eauto.
  - unfold deployViaChangeSet, generateChangeSetName, bind, log, emit, now, call. cbn.
    destruct (Date_now world w2) as [t w3]. cbn.
    match goal with
    | |- context [applyChangeSet world rounds ?p w3] =>
        destruct (applyChangeSet_first rounds p w3) as [rest Hrest]; rewrite Hrest
    end.
    eexists _, _, _. split; [reflexivity |]. split; [reflexivity | exact Hname].
Qed.

End Upsert.

Lemma upsertStack_describe_error_creates_witness :
  let options := OptionsObject (mkOptions None None None None) in
  let w := Fixtures.describeFails in
  let params :=
    mkParams "StackName"
             (Some ["CAPABILITY_IAM"; "CAPABILITY_NAMED_IAM"; "CAPABILITY_AUTO_EXPAND"])
             (Some Fixtures.inputs) (Some "Resources: {}") None None None None in
  truthy (s3Bucket (normalizeOptions options)) = false
  /\ detectTransforms Scripted.world (normalizeOptions options) Fixtures.plain w
     = mkRun (Resolved false) w [ReadFileSync Fixtures.plain (inr "Resources: {}")]
  /\ buildParams Scripted.world "StackName" Fixtures.plain Fixtures.inputs w
     = mkRun (Resolved params) w
             [ExistsSync Fixtures.plain true; ReadFileSync Fixtures.plain (inr "Resources: {}")]
  /\ upsertStack Scripted.world 2 "StackName" Fixtures.plain Fixtures.inputs options w
     = after [ReadFileSync Fixtures.plain (inr "Resources: {}");
              ExistsSync Fixtures.plain true;
              ReadFileSync Fixtures.plain (inr "Resources: {}");
              DescribeStacksCommand "StackName" (inl (Error "Some error thrown"))]
             (createStack Scripted.world 1 params
                (Scripted.mkScript Fixtures.disk [inr Fixtures.created] [] [] [] 0)).
Proof.
  cbv zeta. split; [reflexivity |]. split; [reflexivity |]. split; [reflexivity |].
  apply (proj1 (upsertStack_describe_error_creates Scripted.world 1 "StackName" Fixtures.plain
                  Fixtures.inputs (OptionsObject (mkOptions None None None None))
                  Fixtures.describeFails Fixtures.describeFails Fixtures.describeFails
                  (Scripted.mkScript Fixtures.disk [inr Fixtures.created] [] [] [] 0)
                  false _ _ _ (Error "Some error thrown")
                  eq_refl eq_refl eq_refl eq_refl)).
  reflexivity.
Defined.


(** * Deleting *)

Section Deletion.

Context {W : Type}.
Variable world : World W.

#[local] Arguments String.append : simpl never.

(** [/.*Bucket$/] finds exactly the keys that end with "Bucket". *)
Lemma bucketRe_spec (key : string) :
  Regex.test_to_end bucketRe key = true <-> JsString.EndsWith key "Bucket".
Proof.
  rewrite RegexFacts.test_to_end_spec. unfold bucketRe, JsString.EndsWith. split.
  - intros (a & m & Hkey & Hm).
    apply RegexFacts.Lang_Cat_inv in Hm as (d & l & -> & _ & Hl).
    apply RegexFacts.Lang_Lit in Hl as ->.
    exists (JsString.of_chars (a ++ d)).
    rewrite <- (JsStringFacts.of_chars_chars key), Hkey, app_assoc.
    rewrite JsStringFacts.of_chars_app, JsStringFacts.of_chars_chars. reflexivity.
  - intros [pre ->]. exists (JsString.chars pre), (JsString.chars "Bucket").
    split; [apply JsStringFacts.chars_app |].
    apply (Regex.L_Cat _ _ [] (JsString.chars "Bucket")).
    + apply Regex.L_StarNil.
    + now apply RegexFacts.Lang_Lit.
Qed.

Lemma bucketOutputs_spec (outputs : list Output) (output : Output) :
  In output (bucketOutputs outputs)
  <-> In output outputs /\ JsString.EndsWith (OutputKey output) "Bucket".
Proof.
  unfold bucketOutputs. rewrite filter_In, bucketRe_spec. reflexivity.
Qed.

(** The loop over the outputs never fails: it starts the emptier on every
    bucket output, in order, and keeps the promise of each. *)
Lemma emptyBuckets_run (outputs : list Output) :
  forall (w w' : W) (promises : list (Promise unit)),
    Empties world (map OutputValue (bucketOutputs outputs)) w promises w' ->
    emptyBuckets world outputs w
    = mkRun (Resolved promises) w'
            (flat_map emptyingOf (combine (map OutputValue (bucketOutputs outputs)) promises)).
Proof.
  induction outputs as [|output outputs IH]; intros w w' promises He.
  - inversion He; subst. reflexivity.
  - cbn [emptyBuckets bucketOutputs filter].
    fold (bucketOutputs outputs) in *. cbn [bucketOutputs filter] in He.
    fold (bucketOutputs outputs) in He.
    destruct (Regex.test_to_end bucketRe (OutputKey output)).
    + cbn [map] in He. inversion He as [| name names v v1 v' p ps Hp Hrest]; subst.
      unfold bind at 1, log, emit. cbn [outcome final trace].
      unfold bind at 1, emptyBucket, call. rewrite Hp. cbn [outcome final trace].
      unfold bind at 1. rewrite (IH _ _ _ Hrest). unfold after. cbn. now rewrite app_nil_r.
    + now apply IH.
Qed.

Lemma Empties_length (names : list string) (w w' : W) (promises : list (Promise unit)) :
  Empties world names w promises w' -> length promises = length names.
Proof. induction 1; cbn; congruence. Qed.

(** No promise is rejected: [Promise.all] is fulfilled. *)
Lemma firstRejection_none (T : Type) (promises : list (Promise T)) :
  (forall p, In p promises -> exists t, settlement p = inr t) ->
  firstRejection promises = None.
Proof.
  induction promises as [|p promises IH]; intros Hall; [reflexivity |].
  cbn [firstRejection]. destruct (Hall p (or_introl eq_refl)) as [t ->].
  apply IH. intros q Hq. apply Hall. now right.
Qed.

(** The rejection that [firstRejection] finds is that of a promise, and
    no rejection comes before it in time. *)
Lemma firstRejection_some (T : Type) (promises : list (Promise T)) (t : nat) (e : JsError) :
  firstRejection promises = Some (t, e) ->
  exists p, In p promises /\ settlement p = inl e /\ settledAt p = t
            /\ forall q e', In q promises -> settlement q = inl e' -> (t <= settledAt q)%nat.
Proof.
  revert t e. induction promises as [|p promises IH]; intros t e; [discriminate |].
  cbn [firstRejection].
  destruct (settlement p) as [e0 | v] eqn:Hp.
  - destruct (firstRejection promises) as [[t' e'] |] eqn:Hrest.
    + destruct (IH t' e' eq_refl) as (p' & Hin & Hsp & Hat & Hmin).
      destruct (Nat.leb (settledAt p) t') eqn:Hle; intros [= <- <-].
      * apply Nat.leb_le in Hle. exists p. repeat split; [now left | exact Hp |].
        intros q eq [<- | Hq] Hsq; [lia |]. specialize (Hmin q eq Hq Hsq). lia.
      * apply Nat.leb_gt in Hle. exists p'. repeat split; [now right | exact Hsp | exact Hat |].
        intros q eq [<- | Hq] Hsq; [lia | now apply (Hmin q eq)].
    + intros [= <- <-]. exists p. repeat split; [now left | exact Hp |].
      intros q eq [<- | Hq] Hsq; [lia |]. exfalso.
      clear IH. induction promises as [|p1 promises IH1]; [destruct Hq |].
      cbn [firstRejection] in Hrest.
      destruct Hq as [<- | Hq].
      * rewrite Hsq in Hrest. destruct (firstRejection promises) as [[] |]; [| discriminate].
        destruct (Nat.leb _ _); discriminate.
      * destruct (settlement p1); [| now apply IH1].
        destruct (firstRejection promises) as [[] |]; [| discriminate].
        destruct (Nat.leb _ _); discriminate.
  - intros Hrest. destruct (IH t e Hrest) as (p' & Hin & Hsp & Hat & Hmin).
    exists p'. repeat split; [now right | exact Hsp | exact Hat |].
    intros q eq [<- | Hq] Hsq; [congruence | now apply (Hmin q eq)].
Qed.

(** A rejected promise makes [firstRejection] find one. *)
Lemma firstRejection_found (T : Type) (promises : list (Promise T)) (p : Promise T)
      (e : JsError) :
  In p promises -> settlement p = inl e -> firstRejection promises <> None.
Proof.
  intros Hin Hp Hnone.
  induction promises as [|p1 promises IH]; [destruct Hin |].
  cbn [firstRejection] in Hnone. destruct Hin as [<- | Hin].
  - rewrite Hp in Hnone. destruct (firstRejection promises) as [[] |]; [| discriminate].
    destruct (Nat.leb _ _); discriminate.
  - destruct (settlement p1); [| now apply IH].
    destruct (firstRejection promises) as [[] |]; [| discriminate].
    destruct (Nat.leb _ _); discriminate.
Qed.

Lemma map_fst_combine (A B : Type) (l : list A) (l' : list B) :
  length l' = length l -> map fst (combine l l') = l.
Proof.
  revert l'. induction l as [|a l IH]; intros [|b l'] Hlen; try discriminate; [reflexivity |].
  cbn. f_equal. apply IH. now injection Hlen.
Qed.

Lemma emptyings_emptyingOf (buckets : list (string * Promise unit)) :
  emptyings (flat_map emptyingOf buckets) = buckets.
Proof.
  induction buckets as [|[name p] buckets IH]; [reflexivity |].
  cbn. now rewrite IH.
Qed.

(** [deleteStack] on a stack that exists, up to [Promise.all]. *)
Lemma deleteStack_run (rounds : nat) (stackName : string) (w w1 w2 : W)
      (data : DescribeStacksOutput) (stack : Stack) (rest : list Stack)
      (promises : list (Promise unit)) :
  cf_DescribeStacks world stackName w = (inr data, w1) ->
  Stacks data = stack :: rest ->
  let outputs := match Outputs stack with Some l => l | None => [] end in
  let buckets := map OutputValue (bucketOutputs outputs) in
  Empties world buckets w1 promises w2 ->
  deleteStack world rounds stackName w
  = after (DescribeStacksCommand stackName (inr data)
           :: flat_map emptyingOf (combine buckets promises))
          match firstRejection promises with
          | Some (_, e) => mkRun (Rejected e) w2 []
          | None =>
              after [DeleteStackCommand (stackParams stackName)
                       (fst (cf_DeleteStack world (stackParams stackName) w2))]
                    match fst (cf_DeleteStack world (stackParams stackName) w2) with
                    | inl e => mkRun (Rejected e)
                                     (snd (cf_DeleteStack world (stackParams stackName) w2)) []
                    | inr _ => pollStack world rounds (stackParams stackName)
                                 (snd (cf_DeleteStack world (stackParams stackName) w2))
                    end
          end.
Proof.
  intros Hd Hs outputs buckets He.
  assert (Hloop : match Outputs stack with
                  | Some l => emptyBuckets world l
                  | None => ret []
                  end w1
                  = mkRun (Resolved promises) w2 (flat_map emptyingOf (combine buckets promises))).
  { subst buckets outputs. destruct (Outputs stack) as [l |].
    - now apply emptyBuckets_run.
    - inversion He; subst. reflexivity. }
  unfold deleteStack. unfold bind at 1, attempt, sendDescribeStacks, send. rewrite Hd.
  cbn [outcome final trace]. rewrite Hs. unfold bind at 1. rewrite Hloop.
  cbn [outcome final trace]. unfold bind at 1, Promise_all.
  destruct (firstRejection promises) as [[t e] |].
  - unfold after, throw. cbn. reflexivity.
  - cbn [ret outcome final trace]. unfold bind at 1, sendDeleteStack, send.
    destruct (cf_DeleteStack world (stackParams stackName) w2) as [[e | u] w3];
      unfold after; cbn; rewrite ?app_nil_r; reflexivity.
Qed.

(** C5.  [deleteStack] on a stack that exists.  The outputs taken for
    buckets are those whose key ends with "Bucket", in the case given.
    The emptier is started on the value of each of them, in the order of
    the outputs, and on nothing else, before anything is asked of the
    provider.  When every emptying is fulfilled the [DeleteStackCommand]
    for the stack follows; a rejected command rejects the call, and after
    an accepted one the stack is polled and the call ends as the poll
    does: it is fulfilled when the stack, after any number of non-terminal
    statuses, is reported not to exist.  When an emptying is rejected the
    call is rejected with the rejection that comes first in time, and no
    [DeleteStackCommand] is sent. *)
Theorem deleteStack_empties_buckets_first (rounds : nat) (stackName : string)
        (w w1 w2 w3 : W) (data : DescribeStacksOutput) (stack : Stack) (rest : list Stack)
        (promises : list (Promise unit)) (reply : Result unit) :
  cf_DescribeStacks world stackName w = (inr data, w1) ->
  Stacks data = stack :: rest ->
  let outputs := match Outputs stack with Some l => l | None => [] end in
  let buckets := map OutputValue (bucketOutputs outputs) in
  Empties world buckets w1 promises w2 ->
  cf_DeleteStack world (stackParams stackName) w2 = (reply, w3) ->
  let r := deleteStack world rounds stackName w in
  let emptied := DescribeStacksCommand stackName (inr data)
                 :: flat_map emptyingOf (combine buckets promises) in
  (forall output, In output (bucketOutputs outputs)
                  <-> In output outputs /\ JsString.EndsWith (OutputKey output) "Bucket")
  /\ map fst (emptyings (trace r)) = buckets
  /\ ((forall p, In p promises -> exists u, settlement p = inr u) ->
      r = after (emptied ++ [DeleteStackCommand (stackParams stackName) reply])
                match reply with
                | inl err => mkRun (Rejected err) w3 []
                | inr _ => pollStack world rounds (stackParams stackName) w3
                end
      /\ forall waits err w4,
           reply = inr tt ->
           StackVanishes world stackName waits w3 err w4 ->
           (waits < rounds)%nat ->
           outcome r = Resolved None /\ final r = w4)
  /\ ((exists p err, In p promises /\ settlement p = inl err) ->
      exists p err,
        In p promises /\ settlement p = inl err
        /\ (forall q err', In q promises -> settlement q = inl err' ->
                           (settledAt p <= settledAt q)%nat)
        /\ r = mkRun (Rejected err) w2 emptied).
Proof.
  intros Hd Hs outputs buckets He Hdel r emptied.
  assert (Hr := deleteStack_run rounds stackName w w1 w2 data stack rest promises Hd Hs He).
  cbv zeta in Hr. fold outputs buckets emptied r in Hr. rewrite Hdel in Hr. cbn [fst snd] in Hr.
  clearbody r.
  assert (Hlen : length promises = length buckets) by exact (Empties_length _ _ _ _ He).
  split; [apply bucketOutputs_spec |]. split; [| split].
  - rewrite Hr. subst emptied.
    destruct (firstRejection promises) as [[t e] |]; cbn [after trace outcome final emptyings].
    + rewrite app_nil_r. cbn [emptyings]. rewrite emptyings_emptyingOf.
      now apply map_fst_combine.
    + rewrite emptyings_app. cbn [emptyings app]. rewrite emptyings_emptyingOf.
      replace (emptyings (trace _)) with (@nil (string * Promise unit)).
      * rewrite app_nil_r. now apply map_fst_combine.
      * destruct reply; [reflexivity |].
        symmetry. apply (emptyings_none stackPollEvent); [| apply pollStack_events].
        intros [] H; try discriminate; destruct H.
  - intros Hall. rewrite (firstRejection_none _ _ Hall) in Hr.
    assert (Hrun : r = after (emptied ++ [DeleteStackCommand (stackParams stackName) reply])
                             match reply with
                             | inl err => mkRun (Rejected err) w3 []
                             | inr _ => pollStack world rounds (stackParams stackName) w3
                             end).
    { rewrite Hr. unfold after. cbn [outcome final trace]. now rewrite <- app_assoc. }
    split; [exact Hrun |].
    intros waits err w4 -> Hvanish Hlt. rewrite Hrun. cbn [after outcome final].
    destruct (pollStack_vanishes world (stackParams stackName) waits w3 w4 err Hvanish
                rounds Hlt) as (Ho & Hf).
    auto.
  - intros (p0 & e0 & Hin0 & Hp0).
    destruct (firstRejection promises) as [[t e] |] eqn:Hfirst;
      [| exfalso; exact (firstRejection_found _ _ _ _ Hin0 Hp0 Hfirst)].
    destruct (firstRejection_some _ _ _ _ Hfirst) as (p & Hin & Hp & Hat & Hmin).
    exists p, e. repeat split; [exact Hin | exact Hp | |].
    + intros q e' Hq Hsq. rewrite Hat. now apply (Hmin q e').
    + rewrite Hr. unfold after. cbn. now rewrite app_nil_r.
Qed.

End Deletion.

(** Two buckets whose emptyings are both rejected, the second sooner than
    the first: the call is rejected with the rejection of the second, and
    the stack is left alone. *)
Lemma deleteStack_empties_buckets_first_witness :
  let lasts := fun bucketName : string => if (bucketName =? "data-bucket")%string
                                          then 2%nat else 1%nat in
  let world := Scripted.worldWhere lasts in
  let described := Scripted.stackIn "StackName" "CREATE_COMPLETE" (Some Fixtures.dataOutputs) in
  let w := Scripted.mkScript [] [inr described]
             [] [inl (Error "AccessDenied"); inl (Error "SlowDown")] [] 0 in
  let r := deleteStack world 3 "StackName" w in
  cf_DescribeStacks world "StackName" w
  = (inr described,
     Scripted.mkScript [] [] [] [inl (Error "AccessDenied"); inl (Error "SlowDown")] [] 0)
  /\ Empties world ["data-bucket"; "logs-bucket"]
             (Scripted.mkScript [] [] [] [inl (Error "AccessDenied"); inl (Error "SlowDown")] [] 0)
             [mkPromise 2 (inl (Error "AccessDenied")); mkPromise 1 (inl (Error "SlowDown"))]
             (Fixtures.describing [])
  /\ map fst (emptyings (trace r)) = ["data-bucket"; "logs-bucket"]
  /\ r = mkRun (Rejected (Error "SlowDown")) (Fixtures.describing [])
               [DescribeStacksCommand "StackName" (inr described);
                Log level_info [LogString "Emptying S3 bucket"; LogString "data-bucket"];
                EmptyBucket "data-bucket" (mkPromise 2 (inl (Error "AccessDenied")));
                Log level_info [LogString "Emptying S3 bucket"; LogString "logs-bucket"];
                EmptyBucket "logs-bucket" (mkPromise 1 (inl (Error "SlowDown")))].
Proof.
  cbv zeta.
  assert (He : Empties
                 (Scripted.worldWhere
                    (fun bucketName : string =>
                       if (bucketName =? "data-bucket")%string then 2%nat else 1%nat))
                 ["data-bucket"; "logs-bucket"]
                 (Scripted.mkScript [] [] []
                    [inl (Error "AccessDenied"); inl (Error "SlowDown")] [] 0)
                 [mkPromise 2 (inl (Error "AccessDenied")); mkPromise 1 (inl (Error "SlowDown"))]
                 (Fixtures.describing [])).
  { eapply empties_next; [reflexivity |]. eapply empties_next; [reflexivity |].
    apply empties_none. }
  split; [reflexivity |]. split; [exact He |].
  pose proof (deleteStack_empties_buckets_first
                (Scripted.worldWhere
                   (fun bucketName : string =>
                      if (bucketName =? "data-bucket")%string then 2%nat else 1%nat))
                3 "StackName"
                (Scripted.mkScript [] [inr (Scripted.stackIn "StackName" "CREATE_COMPLETE"
                                              (Some Fixtures.dataOutputs))]
                   [] [inl (Error "AccessDenied"); inl (Error "SlowDown")] [] 0)
                (Scripted.mkScript [] [] [] [inl (Error "AccessDenied"); inl (Error "SlowDown")]
                   [] 0)
                (Fixtures.describing []) (Fixtures.describing [])
                (Scripted.stackIn "StackName" "CREATE_COMPLETE" (Some Fixtures.dataOutputs))
                (mkStack "StackName" "CREATE_COMPLETE" (Some Fixtures.dataOutputs)) []
                [mkPromise 2 (inl (Error "AccessDenied")); mkPromise 1 (inl (Error "SlowDown"))]
                (inr tt) eq_refl eq_refl He eq_refl) as (_ & Hstarted & _ & Hrejected).
  split; [exact Hstarted |].
  destruct Hrejected as (p & err & Hin & Hp & Hmin & Hr).
  - exists (mkPromise 2 (inl (Error "AccessDenied"))), (Error "AccessDenied").
    split; [now left | reflexivity].
  - rewrite Hr. f_equal. f_equal.
    destruct Hin as [<- | [<- | []]].
    + specialize (Hmin (mkPromise 1 (inl (Error "SlowDown"))) (Error "SlowDown")
                       (or_intror (or_introl eq_refl)) eq_refl).
      cbn in Hmin. lia.
    + cbn in Hp. congruence.
Defined.


(** * Change sets *)

Section ChangeSets.

Context {W : Type}.
Variable world : World W.

#[local] Arguments String.append : simpl never.

Lemma createChangeSet_run (rounds : nat) (params : Params) (w : W) :
  createChangeSet world rounds params w
  = match fst (cf_CreateChangeSet world params w) with
    | inl e => mkRun (Rejected e) (snd (cf_CreateChangeSet world params w))
                     [CreateChangeSetCommand params (inl e)]
    | inr u => after [CreateChangeSetCommand params (inr u)]
                     (pollChangeSet world rounds params (snd (cf_CreateChangeSet world params w)))
    end.
Proof.
  unfold createChangeSet, bind, sendCreateChangeSet, send.
  destruct (cf_CreateChangeSet world params w) as [[e | u] w1]; reflexivity.
Qed.

Lemma executeChangeSet_run (rounds : nat) (params : Params) (w : W) :
  executeChangeSet world rounds params w
  = after [ExecuteChangeSetCommand params (fst (cf_ExecuteChangeSet world params w))]
          match fst (cf_ExecuteChangeSet world params w) with
          | inl e => mkRun (Rejected e) (snd (cf_ExecuteChangeSet world params w)) []
          | inr _ => pollStack world rounds params (snd (cf_ExecuteChangeSet world params w))
          end.
Proof.
  unfold executeChangeSet, bind, sendExecuteChangeSet, send.
  destruct (cf_ExecuteChangeSet world params w) as [[e | u] w1]; reflexivity.
Qed.

Lemma deleteChangeSet_run (rounds : nat) (params : Params) (w : W) :
  deleteChangeSet world rounds params w
  = after [DeleteChangeSetCommand params (fst (cf_DeleteChangeSet world params w))]
          match fst (cf_DeleteChangeSet world params w) with
          | inl e => mkRun (Rejected e) (snd (cf_DeleteChangeSet world params w)) []
          | inr _ => pollChangeSet world rounds params (snd (cf_DeleteChangeSet world params w))
          end.
Proof.
  unfold deleteChangeSet, bind, sendDeleteChangeSet, send.
  destruct (cf_DeleteChangeSet world params w) as [[e | u] w1]; reflexivity.
Qed.

Lemma mutations_after (A : Type) (t : list Event) (r : Run W A) :
  mutations (trace (after t r)) = (mutations t ++ mutations (trace r))%list.
Proof. apply mutations_app. Qed.

(** [applyChangeSet], request by request. *)
Lemma applyChangeSet_run (rounds : nat) (request : Params) (w : W) :
  applyChangeSet world rounds request w = createdThenExecuted world rounds request w.
Proof.
  unfold applyChangeSet, createdThenExecuted, bind. rewrite createChangeSet_run.
  destruct (cf_CreateChangeSet world request w) as [[e | u] w1]; cbn [fst snd];
    [reflexivity |].
  cbn [after outcome final trace].
  destruct (pollChangeSet world rounds request w1) as [[[cs |] | e |] v tp];
    cbn [outcome final trace].
  - rewrite executeChangeSet_run. unfold after. cbn [outcome final trace].
    now rewrite <- !app_assoc.
  - unfold after, ret. cbn. now rewrite !app_nil_r.
  - unfold after. cbn. now rewrite !app_nil_r.
  - unfold after. cbn. now rewrite !app_nil_r.
Qed.

(** A deployment through a change set, request by request. *)
Lemma deployViaChangeSet_run (rounds : nat) (kind : string) (params : Params) (w : W) :
  deployViaChangeSet world rounds kind params w = deployedAs world rounds kind params w.
Proof.
  unfold deployedAs. rewrite <- applyChangeSet_run.
  unfold deployViaChangeSet, generateChangeSetName, bind, log, emit, now, call. cbn.
  destruct (Date_now world w) as [t w1]. cbn. reflexivity.
Qed.

(** The reviewed update, request by request. *)
Lemma updatePath_reviewed_run (rounds : nat) (flag : bool) (params : Params) (w : W) :
  updatePath world rounds true flag params w
  = reviewedThen world rounds params (executeUpdate world rounds flag params) w.
Proof.
  unfold updatePath, reviewedThen, log.
  unfold bind at 1, emit. cbn [outcome final trace].
  change (set_ChangeSetName (ChangeSetName (previewParams params)) params)
    with (previewFor params).
  change (previewParams params)
    with (changeSetParams (StackName params) ("cf-utils-" ++ StackName params ++ "-preview")).
  set (target := changeSetParams (StackName params)
                                 ("cf-utils-" ++ StackName params ++ "-preview")).
  unfold bind at 1. rewrite createChangeSet_run.
  destruct (cf_CreateChangeSet world (previewFor params) w) as [[e | u] w1]; cbn [fst snd];
    [reflexivity |].
  cbn [after outcome final trace].
  destruct (pollChangeSet world rounds (previewFor params) w1) as [[[cs |] | e |] v tp];
    cbn [outcome final trace];
    try (unfold after; cbn; now rewrite ?app_nil_r).
  unfold bind at 1. cbn [outcome final trace].
  unfold bind at 1, prompt, send.
    destruct (inquirer_prompt world v) as [[e | answer] v1]; cbn [outcome final trace fst snd];
      [unfold after; cbn; now rewrite <- ?app_assoc |].
    unfold bind at 1. cbn [outcome final trace].
    unfold bind at 1. rewrite deleteChangeSet_run.
    destruct (cf_DeleteChangeSet world target v1) as [[e | u'] v2]; cbn [fst snd];
      [unfold after; cbn; now rewrite <- ?app_assoc |].
    cbn [after outcome final trace].
    destruct (pollChangeSet world rounds target v2) as [[gone | e |] v3 tg];
      cbn [outcome final trace];
      try (unfold after; cbn; rewrite ?app_nil_r, <- ?app_assoc; cbn; reflexivity).
    destruct answer.
    + unfold bind at 1. cbn [outcome final trace]. unfold after. cbn [outcome final trace].
      reflexivity.
    + unfold after, throw. cbn. rewrite ?app_nil_r, <- ?app_assoc. cbn. reflexivity.
Qed.

(** What a deployment through a change set changes: the change set is
    created, and it is executed when the poll that follows an accepted
    creation is fulfilled with a description; otherwise nothing is done to
    it. *)
Lemma createdThenExecuted_mutations (rounds : nat) (request : Params) (w : W) :
  let created := cf_CreateChangeSet world request w in
  let polled := pollChangeSet world rounds request (snd created) in
  mutations (trace (createdThenExecuted world rounds request w))
  = CreateChangeSetCommand request (fst created)
    :: match fst created, outcome polled with
       | inr _, Resolved (Some cs) =>
           let target := changeSetParams (cs_StackName cs) (cs_ChangeSetName cs) in
           [ExecuteChangeSetCommand target (fst (cf_ExecuteChangeSet world target (final polled)))]
       | _, _ => []
       end.
Proof.
  cbv zeta. unfold createdThenExecuted.
  destruct (cf_CreateChangeSet world request w) as [[e | u] w1]; cbn [fst snd];
    [reflexivity |].
  rewrite !mutations_after, pollChangeSet_no_mutation. cbn [app]. unfold mutations at 1.
  cbn [filter isMutation app]. f_equal.
  destruct (outcome (pollChangeSet world rounds request w1)) as [[cs |] | e |];
    try reflexivity.
  rewrite mutations_after. unfold mutations at 1. cbn [filter isMutation app]. f_equal.
  destruct (fst (cf_ExecuteChangeSet world _ _)); [reflexivity |].
  apply pollStack_no_mutation.
Qed.


(** What a reviewed update changes: the preview is created; it is
    deleted when the poll that follows an accepted creation is fulfilled
    with a description and the prompt is answered; what [update] changes
    follows when the answer was yes and the deletion went through and was
    polled; nothing else is changed. *)
Lemma reviewedThen_mutations (rounds : nat) (params : Params)
      (update : M W (option DescribeStacksOutput)) (w : W) :
  let preview := previewFor params in
  let target := changeSetParams (StackName params)
                                ("cf-utils-" ++ StackName params ++ "-preview") in
  let created := cf_CreateChangeSet world preview w in
  let polled := pollChangeSet world rounds preview (snd created) in
  let asked := inquirer_prompt world (final polled) in
  let deleted := cf_DeleteChangeSet world target (snd asked) in
  let gone := pollChangeSet world rounds target (snd deleted) in
  mutations (trace (reviewedThen world rounds params update w))
  = CreateChangeSetCommand preview (fst created)
    :: match fst created, outcome polled, fst asked with
       | inr _, Resolved (Some _), inr performUpdate =>
           DeleteChangeSetCommand target (fst deleted)
           :: match fst deleted, outcome gone, performUpdate with
              | inr _, Resolved _, true => mutations (trace (update (final gone)))
              | _, _, _ => []
              end
       | _, _, _ => []
       end.
Proof.
  cbv zeta. unfold reviewedThen.
  set (target := changeSetParams (StackName params)
                                 ("cf-utils-" ++ StackName params ++ "-preview")).
  destruct (cf_CreateChangeSet world (previewFor params) w) as [[e | u] w1]; cbn [fst snd];
    [reflexivity |].
  rewrite !mutations_after, pollChangeSet_no_mutation. cbn [app]. unfold mutations at 1.
  cbn [filter isMutation app]. f_equal.
  destruct (pollChangeSet world rounds (previewFor params) w1) as [[[cs |] | e |] v tp];
    cbn [outcome final trace]; try reflexivity.
  - rewrite mutations_after. unfold mutations at 1. cbn [filter isMutation app].
    destruct (inquirer_prompt world v) as [[e | answer] v1]; cbn [fst snd]; [reflexivity |].
    rewrite mutations_after. unfold mutations at 1. cbn [filter isMutation app]. f_equal.
    destruct (cf_DeleteChangeSet world target v1) as [[e | u'] v2]; cbn [fst snd];
      [destruct answer; reflexivity |].
    rewrite mutations_after, pollChangeSet_no_mutation. cbn [app].
    destruct (outcome (pollChangeSet world rounds target v2)); try reflexivity.
    destruct answer; [| reflexivity].
    rewrite mutations_after. reflexivity.
  - rewrite mutations_after, pollStack_no_mutation. reflexivity.
Qed.

(** C6, amended.  What becomes of the change sets that are created.

    On the deployment path, [applyChangeSet] creates the change set and
    polls it once the provider has accepted it; it executes the change set
    that the poll describes when, and only when, the poll is fulfilled
    with a description.  When the poll is fulfilled with nothing (the
    empty diff), is rejected or does not settle, the creation is the only
    request that changes anything: the change set is neither executed nor
    deleted.

    On the review path of [upsertStack] the preview, named
    [cf-utils-<stackName>-preview], is created and polled likewise; when
    the poll is fulfilled with a description the operator is asked, and
    once the operator has answered the preview is deleted, whatever the
    answer, before anything else is changed.  When the poll is fulfilled
    with nothing, is rejected or does not settle, and when the prompt
    itself is rejected, the preview is neither executed nor deleted. *)
Theorem changeSet_executed_or_deleted (rounds : nat) :
  (forall (request : Params) (w : W),
      let r := applyChangeSet world rounds request w in
      let created := cf_CreateChangeSet world request w in
      let polled := pollChangeSet world rounds request (snd created) in
      r = createdThenExecuted world rounds request w
      /\ mutations (trace r)
         = CreateChangeSetCommand request (fst created)
           :: match fst created, outcome polled with
              | inr _, Resolved (Some cs) =>
                  let target := changeSetParams (cs_StackName cs) (cs_ChangeSetName cs) in
                  [ExecuteChangeSetCommand target
                     (fst (cf_ExecuteChangeSet world target (final polled)))]
              | _, _ => []
              end)
  /\ (forall (stackName script : string) (parameters : list StackParameter)
             (options : OptionsArg) (w w0 w1 w2 : W) (flag : bool) (params : Params)
             (pre0 pre1 : list Event) (data : DescribeStacksOutput),
         truthy (s3Bucket (normalizeOptions options)) = false ->
         isTrue (review (normalizeOptions options)) = true ->
         detectTransforms world (normalizeOptions options) script w
         = mkRun (Resolved flag) w0 pre0 ->
         buildParams world stackName script parameters w0 = mkRun (Resolved params) w1 pre1 ->
         cf_DescribeStacks world stackName w1 = (inr data, w2) ->
         let r := upsertStack world (S rounds) stackName script parameters options w in
         let preview := previewFor params in
         let target := changeSetParams stackName ("cf-utils-" ++ stackName ++ "-preview") in
         let created := cf_CreateChangeSet world preview w2 in
         let polled := pollChangeSet world rounds preview (snd created) in
         let asked := inquirer_prompt world (final polled) in
         let deleted := cf_DeleteChangeSet world target (snd asked) in
         let gone := pollChangeSet world rounds target (snd deleted) in
         StackName preview = stackName
         /\ ChangeSetName preview = Some ("cf-utils-" ++ stackName ++ "-preview")
         /\ r = after (pre0 ++ pre1 ++ [DescribeStacksCommand stackName (inr data)])
                      (reviewedThen world rounds params (executeUpdate world rounds flag params)
                                    w2)
         /\ mutations (trace r)
            = CreateChangeSetCommand preview (fst created)
              :: match fst created, outcome polled, fst asked with
                 | inr _, Resolved (Some _), inr performUpdate =>
                     DeleteChangeSetCommand target (fst deleted)
                     :: match fst deleted, outcome gone, performUpdate with
                        | inr _, Resolved _, true =>
                            mutations (trace (executeUpdate world rounds flag params
                                                            (final gone)))
                        | _, _, _ => []
                        end
                 | _, _, _ => []
                 end).
Proof.
  split.
  - intros request w. cbv zeta. rewrite applyChangeSet_run. split; [reflexivity |].
    apply createdThenExecuted_mutations.
  - intros stackName script parameters options w w0 w1 w2 flag params pre0 pre1 data
           Hs3 Hreview Hflag Hparams Hd.
    assert (Hr := upsertStack_after_probe world rounds stackName script parameters options
                    w w0 w1 w2 flag params pre0 pre1 (inr data) Hs3 Hflag Hparams Hd).
    rewrite Hreview, updatePath_reviewed_run in Hr.
    assert (Hname := buildParams_StackName world _ _ _ _ _ _ _ Hparams).
    assert (Hm0 : mutations pre0 = []).
    { apply fileEvents_no_mutation.
      pose proof (detectTransforms_events world (normalizeOptions options) script w) as H.
      now rewrite Hflag in H. }
    assert (Hm1 : mutations pre1 = []).
    { apply fileEvents_no_mutation.
      pose proof (buildParams_events world stackName script parameters w0) as H.
      now rewrite Hparams in H. }
    cbv zeta. rewrite Hr. subst stackName.
    split; [reflexivity |]. split; [reflexivity |]. split; [reflexivity |].
    rewrite mutations_after, !mutations_app, Hm0, Hm1. cbn [app].
    apply reviewedThen_mutations.
Qed.

End ChangeSets.

(** C6 as stated fails, in four ways.  A template with a transform is
    deployed to a stack that does not exist and the provider reports a
    change set without changes: the call is fulfilled with nothing, and
    the creation of the change set is the only request it made that
    changes anything.  The same holds for the preview of a review whose
    change set is empty: the call is fulfilled with the description of
    the stack.  A preview that is complete is left behind when the prompt
    fails before the reviewer has answered.  And a change set that the
    provider fails to create is left behind when the call is rejected. *)
Lemma change_sets_left_behind :
  let create := upsertStack Scripted.world 2 "StackName" Fixtures.withTransform
                            Fixtures.inputs OptionsMissing Fixtures.emptyCreate in
  let review := upsertStack Scripted.world 2 "StackName" Fixtures.plain
                            Fixtures.inputs (OptionsBoolean true) Fixtures.emptyPreview in
  let interrupted := upsertStack Scripted.world 2 "StackName" Fixtures.plain
                                 Fixtures.inputs (OptionsBoolean true)
                                 Fixtures.interruptedReview in
  let failed := upsertStack Scripted.world 2 "StackName" Fixtures.withTransform
                            Fixtures.inputs OptionsMissing Fixtures.failedCreation in
  let deployment :=
    changeSetRequest "CREATE" "cf-utils-cloudformation-upsert-stack-1700000000"
                     Fixtures.transformRequest in
  let preview := set_ChangeSetName (Some "cf-utils-StackName-preview") Fixtures.plainRequest in
  (outcome create = Resolved None
   /\ mutations (trace create) = [CreateChangeSetCommand deployment (inr tt)]
   /\ ~ changeSetsOwned (trace create))
  /\ (outcome review = Resolved (Some Fixtures.created)
      /\ mutations (trace review) = [CreateChangeSetCommand preview (inr tt)]
      /\ ~ changeSetsOwned (trace review))
  /\ (outcome interrupted = Rejected (Error "User force closed the prompt")
      /\ In (DescribeChangeSetCommand
               (Some "cf-utils-StackName-preview") "StackName"
               (inr (mkChangeSet "cf-utils-StackName-preview" "StackName" "CREATE_COMPLETE"
                                 None)))
            (trace interrupted)
      /\ mutations (trace interrupted) = [CreateChangeSetCommand preview (inr tt)]
      /\ ~ changeSetsOwned (trace interrupted))
  /\ (outcome failed = Rejected (Error "Changeset creation failed")
      /\ mutations (trace failed) = [CreateChangeSetCommand deployment (inr tt)]
      /\ ~ changeSetsOwned (trace failed)).
Proof.
  cbv zeta.
  assert (Hleft : forall (t : list Event) (request : Params),
             mutations t = [CreateChangeSetCommand request (inr tt)] ->
             ~ changeSetsOwned t).
  { intros t request Hm Howned.
    assert (Hin : forall ev, In ev t -> isMutation ev = true ->
                             ev = CreateChangeSetCommand request (inr tt)).
    { intros ev Hev Hmut.
      assert (H : In ev (mutations t)) by (apply filter_In; auto).
      rewrite Hm in H. destruct H as [<- | []]. reflexivity. }
    destruct (Howned request) as (target & reply & _ & [Hx | Hx]).
    - apply (proj1 (filter_In isMutation _ t)). fold (mutations t). rewrite Hm. now left.
    - specialize (Hin _ Hx eq_refl). discriminate.
    - specialize (Hin _ Hx eq_refl). discriminate. }
  split; [| split; [| split]].
  - split; [reflexivity |]. split; [reflexivity |]. eapply Hleft. reflexivity.
  - split; [reflexivity |]. split; [reflexivity |]. eapply Hleft. reflexivity.
  - split; [reflexivity |]. split; [vm_compute; tauto |]. split; [reflexivity |].
    eapply Hleft. reflexivity.
  - split; [reflexivity |]. split; [reflexivity |]. eapply Hleft. reflexivity.
Qed.

Lemma changeSet_executed_or_deleted_witness :
  let options := OptionsBoolean true in
  let w := Fixtures.declinedReview in
  let r := upsertStack Scripted.world 2 "StackName" Fixtures.plain Fixtures.inputs options w in
  truthy (s3Bucket (normalizeOptions options)) = false
  /\ isTrue (review (normalizeOptions options)) = true
  /\ detectTransforms Scripted.world (normalizeOptions options) Fixtures.plain w
     = mkRun (Resolved false) w [ReadFileSync Fixtures.plain (inr "Resources: {}")]
  /\ buildParams Scripted.world "StackName" Fixtures.plain Fixtures.inputs w
     = mkRun (Resolved Fixtures.plainRequest) w
             [ExistsSync Fixtures.plain true; ReadFileSync Fixtures.plain (inr "Resources: {}")]
  /\ fst (cf_DescribeStacks Scripted.world "StackName" w) = inr Fixtures.created
  /\ outcome r = Rejected (Error "Reviewer rejected stack update")
  /\ mutations (trace r)
     = [CreateChangeSetCommand (previewFor Fixtures.plainRequest) (inr tt);
        DeleteChangeSetCommand (changeSetParams "StackName" "cf-utils-StackName-preview")
                               (inr tt)].
Proof.
  cbv zeta. repeat (split; [reflexivity |]).
  destruct (proj2 (changeSet_executed_or_deleted Scripted.world 1)
                  "StackName" Fixtures.plain Fixtures.inputs (OptionsBoolean true)
                  Fixtures.declinedReview Fixtures.declinedReview Fixtures.declinedReview
                  (snd (cf_DescribeStacks Scripted.world "StackName" Fixtures.declinedReview))
                  false Fixtures.plainRequest
                  [ReadFileSync Fixtures.plain (inr "Resources: {}")]
                  [ExistsSync Fixtures.plain true;
                   ReadFileSync Fixtures.plain (inr "Resources: {}")]
                  Fixtures.created
                  eq_refl eq_refl eq_refl eq_refl eq_refl)
    as (_ & _ & _ & Hm).
  rewrite Hm. reflexivity.
Defined.

(** * Transforms *)

Section Transforms.

Context {W : Type}.
Variable world : World W.

#[local] Arguments String.append : simpl never.

Lemma pollStack_indirect (rounds : nat) (params : Params) :
  emits indirect (pollStack world rounds params).
Proof.
  apply (emits_weaken stackPollEvent); [| exact (pollStack_events world rounds params)].
  intros [] H; try reflexivity; destruct H.
Qed.

Lemma pollChangeSet_indirect (rounds : nat) (params : Params) :
  emits indirect (pollChangeSet world rounds params).
Proof.
  apply (emits_weaken changeSetPollEvent); [| exact (pollChangeSet_events world rounds params)].
  intros [] H; try reflexivity; destruct H.
Qed.

Lemma createChangeSet_indirect (rounds : nat) (params : Params) :
  emits indirect (createChangeSet world rounds params).
Proof.
  apply emits_bind; [apply emits_send; reflexivity | intros; apply pollChangeSet_indirect].
Qed.

Lemma executeChangeSet_indirect (rounds : nat) (params : Params) :
  emits indirect (executeChangeSet world rounds params).
Proof.
  apply emits_bind; [apply emits_send; reflexivity | intros; apply pollStack_indirect].
Qed.

Lemma deleteChangeSet_indirect (rounds : nat) (params : Params) :
  emits indirect (deleteChangeSet world rounds params).
Proof.
  apply emits_bind; [apply emits_send; reflexivity | intros; apply pollChangeSet_indirect].
Qed.

Lemma applyChangeSet_indirect (rounds : nat) (params : Params) :
  emits indirect (applyChangeSet world rounds params).
Proof.
  apply emits_bind; [apply createChangeSet_indirect |].
  intros [cs |]; [apply executeChangeSet_indirect | apply emits_ret].
Qed.

Lemma deployViaChangeSet_indirect (rounds : nat) (kind : string) (params : Params) :
  emits indirect (deployViaChangeSet world rounds kind params).
Proof.
  apply emits_bind; [apply emits_emit; reflexivity | intros _].
  apply emits_bind; [| intros; apply applyChangeSet_indirect].
  apply emits_bind; [apply emits_call; reflexivity | intros; apply emits_ret].
Qed.

Lemma updatePath_indirect (rounds : nat) (reviewed : bool) (params : Params) :
  emits indirect (updatePath world rounds reviewed true params).
Proof.
  unfold updatePath. destruct reviewed.
  - apply emits_bind; [apply emits_emit; reflexivity | intros _].
    apply emits_bind; [apply createChangeSet_indirect |].
    intros [cs |].
    + apply emits_bind; [apply emits_emit; reflexivity | intros _].
      apply emits_bind; [apply emits_send; reflexivity | intros answer].
      apply emits_bind; [apply emits_emit; reflexivity | intros _].
      apply emits_bind; [apply deleteChangeSet_indirect | intros _].
      destruct answer; [| apply emits_throw].
      apply emits_bind; [apply emits_emit; reflexivity | intros _].
      apply deployViaChangeSet_indirect.
    + apply emits_bind; [apply emits_emit; reflexivity | intros _].
      apply pollStack_indirect.
  - apply emits_bind; [apply emits_emit; reflexivity | intros _].
    apply deployViaChangeSet_indirect.
Qed.

Lemma fileEvents_indirect (A : Type) (m : M W A) : emits fileEvent m -> emits indirect m.
Proof. apply emits_weaken. intros [] H; try reflexivity; destruct H. Qed.

(** [upsertStack] when the caller says that the template holds a
    transform: no stack is created or updated directly, with or without an
    upload. *)
Lemma upsertStack_flagged_indirect (rounds : nat) :
  forall (stackName script : string) (parameters : list StackParameter) (o : Options),
    containsTransforms o = Some true ->
    emits indirect (upsertStack world rounds stackName script parameters (OptionsObject o)).
Proof.
  induction rounds as [|rounds IH]; intros stackName script parameters o Hflag;
    [intros w; constructor |].
  cbn [upsertStack normalizeOptions]. unfold detectTransforms. rewrite Hflag.
  apply emits_bind_ret. destruct (truthy (s3Bucket o)).
  - apply emits_bind; [apply emits_send; reflexivity | intros _].
    now apply IH.
  - apply emits_bind; [apply fileEvents_indirect, buildParams_events | intros params].
    apply emits_bind; [apply emits_attempt, emits_send; reflexivity |].
    intros [err | data].
    + apply deployViaChangeSet_indirect.
    + apply updatePath_indirect.
Qed.

(** Finding the transform in the script comes to the same as being told
    of it, once the script is read. *)
Lemma upsertStack_detects_run (rounds : nat) (stackName script : string)
      (parameters : list StackParameter) (options : OptionsArg) (w w0 : W) (body : string) :
  containsTransforms (normalizeOptions options) = None ->
  fs_readFileSync world script w = (inr body, w0) ->
  Regex.test transformRe body = true ->
  let o := normalizeOptions options in
  upsertStack world (S rounds) stackName script parameters options w
  = after [ReadFileSync script (inr body)]
          (upsertStack world (S rounds) stackName script parameters
             (OptionsObject (mkOptions (review o) (s3Bucket o) (s3Prefix o) (Some true))) w0).
Proof.
  intros Hnone Hread Hmarker o. subst o. cbn [upsertStack].
  unfold detectTransforms at 1. rewrite Hnone.
  assert (Hdetect : bind (readFileSync world script)
                         (fun body => ret (Regex.test transformRe body)) w
                    = mkRun (Resolved true) w0 [ReadFileSync script (inr body)]).
  { unfold bind, readFileSync, send. rewrite Hread. cbn. now rewrite Hmarker. }
  rewrite (bind_resolved _ _ _ _ _ _ _ _ Hdetect). f_equal.
  cbn [normalizeOptions]. unfold detectTransforms. cbn [containsTransforms].
  rewrite bind_ret. reflexivity.
Qed.

Lemma upsertStack_detects (rounds : nat) (stackName script : string)
      (parameters : list StackParameter) (options : OptionsArg) (w w0 : W) (body : string) :
  containsTransforms (normalizeOptions options) = None ->
  fs_readFileSync world script w = (inr body, w0) ->
  Regex.test transformRe body = true ->
  let o := normalizeOptions options in
  trace (upsertStack world (S rounds) stackName script parameters options w)
  = ReadFileSync script (inr body)
    :: trace (upsertStack world (S rounds) stackName script parameters
                (OptionsObject (mkOptions (review o) (s3Bucket o) (s3Prefix o) (Some true))) w0).
Proof.
  intros Hnone Hread Hmarker o.
  now rewrite (upsertStack_detects_run rounds stackName script parameters options w w0 body
                 Hnone Hread Hmarker).
Qed.

(** [upsertStack] with a bucket to upload to, once the flag is known. *)
Lemma upsertStack_uploads (rounds : nat) (stackName script : string)
      (parameters : list StackParameter) (o : Options) (flag : bool) (w : W) :
  containsTransforms o = Some flag ->
  truthy (s3Bucket o) = true ->
  let bucket := interpolate (s3Bucket o) in
  let key := interpolate (s3Prefix o) ++ script in
  upsertStack world (S rounds) stackName script parameters (OptionsObject o) w
  = bind (putS3Object world bucket key script)
         (fun _ => upsertStack world rounds stackName
                     ("https://s3.amazonaws.com/" ++ bucket ++ "/" ++ key) parameters
                     (OptionsObject (mkOptions (Some (isTrue (review o))) None None
                                               (Some flag)))) w.
Proof.
  intros Hflag Hs3 bucket key. cbn [upsertStack normalizeOptions].
  unfold detectTransforms. rewrite Hflag, bind_ret, Hs3. reflexivity.
Qed.

(** The reviewed update goes on with what [update] does where it is
    started, and with nothing else of it. *)
Lemma reviewedThen_ext (rounds : nat) (params : Params)
      (update update' : M W (option DescribeStacksOutput)) (w : W) :
  (forall v, update v = update' v) ->
  reviewedThen world rounds params update w = reviewedThen world rounds params update' w.
Proof.
  intros Hext. unfold reviewedThen.
  destruct (fst (cf_CreateChangeSet world (previewFor params) w)); [reflexivity |].
  destruct (outcome (pollChangeSet world rounds (previewFor params) _)) as [[cs |] | e |];
    try reflexivity.
  destruct (fst (inquirer_prompt world _)) as [e | [|]]; try reflexivity.
  destruct (fst (cf_DeleteChangeSet world _ _)); [reflexivity |].
  destruct (outcome (pollChangeSet world rounds _ _)); try reflexivity.
  now rewrite Hext.
Qed.

(** The two paths of [upsertStack] when the template holds a transform,
    request by request. *)
Lemma transforms_run (rounds : nat) (reviewed : bool) (reply : Result DescribeStacksOutput)
      (params : Params) (w : W) :
  match reply with
  | inl _ => createPath world rounds true params w
  | inr _ => updatePath world rounds reviewed true params w
  end
  = transformsDeployed world rounds reviewed reply params w.
Proof.
  unfold transformsDeployed. destruct reply as [err | data].
  - apply deployViaChangeSet_run.
  - destruct reviewed.
    + rewrite updatePath_reviewed_run. apply reviewedThen_ext.
      intros v. apply deployViaChangeSet_run.
    + unfold updatePath, log. unfold bind at 1, emit. cbn [outcome final trace].
      f_equal. apply deployViaChangeSet_run.
Qed.

(** C1.  [upsertStack] on a script whose text holds the serverless
    transform, with options that do not set [containsTransforms].

    No run sends a [CreateStackCommand] or an [UpdateStackCommand],
    whatever the options and the replies.

    With a local template, once the request is built the stack is
    described, and what follows is the change-set path: after a rejected
    describe a change set of the type CREATE is created for the stack,
    after an accepted one a change set of the type UPDATE, behind the
    review when the update is reviewed; the change set is polled once the
    provider has accepted it, the change set that the poll describes is
    executed, and the stack is polled after an accepted execution.  With
    an upload the same follows the accepted upload, for the template by
    reference; a rejected upload ends the call.

    The requests of the path that change anything are the creation of the
    change set and, exactly when the poll that follows an accepted creation
    is fulfilled with a description, the execution of the change set that
    it describes. *)
Theorem upsertStack_transforms_use_change_sets (rounds : nat) (stackName script : string)
        (parameters : list StackParameter) (options : OptionsArg) (w w0 : W) (body : string) :
  containsTransforms (normalizeOptions options) = None ->
  fs_readFileSync world script w = (inr body, w0) ->
  Regex.test transformRe body = true ->
  let o := normalizeOptions options in
  let read := ReadFileSync script (inr body) in
  (forall n, Forall (fun ev => isDirectMutation ev = false)
                    (trace (upsertStack world n stackName script parameters options w)))
  /\ (truthy (s3Bucket o) = false ->
      forall (params : Params) (w1 w2 : W) (pre : list Event)
             (reply : Result DescribeStacksOutput),
        buildParams world stackName script parameters w0 = mkRun (Resolved params) w1 pre ->
        cf_DescribeStacks world stackName w1 = (reply, w2) ->
        StackName params = stackName
        /\ upsertStack world (S rounds) stackName script parameters options w
           = after (read :: pre ++ [DescribeStacksCommand stackName reply])
                   (transformsDeployed world rounds (isTrue (review o)) reply params w2))
  /\ (truthy (s3Bucket o) = true ->
      let bucket := interpolate (s3Bucket o) in
      let key := interpolate (s3Prefix o) ++ script in
      let params :=
        mkParams stackName
                 (Some ["CAPABILITY_IAM"; "CAPABILITY_NAMED_IAM"; "CAPABILITY_AUTO_EXPAND"])
                 (Some parameters) None
                 (Some ("https://s3.amazonaws.com/" ++ bucket ++ "/" ++ key))
                 None None None in
      let r := upsertStack world (S (S rounds)) stackName script parameters options w in
      (forall (err : JsError) (w1 : W),
          s3_putS3Object world bucket key script w0 = (inl err, w1) ->
          r = mkRun (Rejected err) w1 [read; PutS3Object bucket key script (inl err)])
      /\ (forall (w1 w2 : W) (reply : Result DescribeStacksOutput),
             s3_putS3Object world bucket key script w0 = (inr tt, w1) ->
             cf_DescribeStacks world stackName w1 = (reply, w2) ->
             r = after [read; PutS3Object bucket key script (inr tt);
                        DescribeStacksCommand stackName reply]
                       (transformsDeployed world rounds (isTrue (review o)) reply params w2)))
  /\ (forall (kind : string) (params : Params) (v : W),
         let asked := Date_now world v in
         let request :=
           mkParams (StackName params) (Capabilities params) (Parameters params)
                    (TemplateBody params) (TemplateURL params) None
                    (Some ("cf-utils-cloudformation-upsert-stack-"
                           ++ JsString.of_Z (ToInt32 (Z.quot (fst asked) 1000))))
                    (Some kind) in
         let created := cf_CreateChangeSet world request (snd asked) in
         let polled := pollChangeSet world rounds request (snd created) in
         mutations (trace (deployedAs world rounds kind params v))
         = CreateChangeSetCommand request (fst created)
           :: match fst created, outcome polled with
              | inr _, Resolved (Some cs) =>
                  let target := changeSetParams (cs_StackName cs) (cs_ChangeSetName cs) in
                  [ExecuteChangeSetCommand target
                     (fst (cf_ExecuteChangeSet world target (final polled)))]
              | _, _ => []
              end).
Proof.
  intros Hnone Hread Hmarker o read.
  set (o1 := mkOptions (review o) (s3Bucket o) (s3Prefix o) (Some true)).
  assert (Hrun : forall n,
             upsertStack world (S n) stackName script parameters options w
             = after [read]
                     (upsertStack world (S n) stackName script parameters (OptionsObject o1) w0)).
  { intros n. exact (upsertStack_detects_run n stackName script parameters options w w0 body
                       Hnone Hread Hmarker). }
  split; [| split; [| split]].
  - intros [|n]; [constructor |]. rewrite Hrun. cbn [after trace app].
    constructor; [reflexivity |].
    apply (upsertStack_flagged_indirect (S n) stackName script parameters o1 eq_refl).
  - intros Hs3 params w1 w2 pre reply Hparams Hd.
    split; [exact (buildParams_StackName world _ _ _ _ _ _ _ Hparams) |].
    rewrite Hrun.
    rewrite (upsertStack_after_probe world rounds stackName script parameters (OptionsObject o1)
               w0 w0 w1 w2 true params [] pre reply Hs3 eq_refl Hparams Hd).
    rewrite transforms_run, after_after. reflexivity.
  - intros Hs3 bucket key params r. subst r. rewrite Hrun.
    rewrite (upsertStack_uploads (S rounds) stackName script parameters o1 true w0 eq_refl Hs3).
    cbn [s3Bucket s3Prefix review o1]. fold bucket key. unfold putS3Object. split.
    + intros err w1 Hput. unfold bind at 1, send. rewrite Hput. reflexivity.
    + intros w1 w2 reply Hput Hd.
      rewrite (bind_resolved _ _ _ _ _ _ _ _ (send_accepted _ _ _ _ _ _ Hput)).
      rewrite (upsertStack_after_probe world rounds stackName
                 ("https://s3.amazonaws.com/" ++ bucket ++ "/" ++ key) parameters
                 (OptionsObject (mkOptions (Some (isTrue (review o))) None None (Some true)))
                 w1 w1 w1 w2 true params [] [] reply eq_refl eq_refl eq_refl Hd).
      rewrite transforms_run, !after_after.
      replace (isTrue (review (normalizeOptions
                                 (OptionsObject (mkOptions (Some (isTrue (review o))) None None
                                                           (Some true))))))
        with (isTrue (review o)) by (cbn; now destruct (isTrue (review o))).
      reflexivity.
  - intros kind params v. cbv zeta. unfold deployedAs.
    rewrite mutations_after. apply createdThenExecuted_mutations.
Qed.

End Transforms.

Lemma upsertStack_transforms_use_change_sets_witness :
  let body := ("Transform: " ++ String quote ("AWS::Serverless" ++ String quote ""))%string in
  let w := Fixtures.updateWithTransform in
  let r := upsertStack Scripted.world 2 "StackName" Fixtures.withTransform
                       Fixtures.inputs OptionsMissing w in
  let request :=
    mkParams "StackName"
             (Some ["CAPABILITY_IAM"; "CAPABILITY_NAMED_IAM"; "CAPABILITY_AUTO_EXPAND"])
             (Some Fixtures.inputs) (Some body) None None
             (Some "cf-utils-cloudformation-upsert-stack-1700000000") (Some "UPDATE") in
  containsTransforms (normalizeOptions OptionsMissing) = None
  /\ fs_readFileSync Scripted.world Fixtures.withTransform w = (inr body, w)
  /\ Regex.test transformRe body = true
  /\ Forall (fun ev => isDirectMutation ev = false) (trace r)
  /\ r = after [ReadFileSync Fixtures.withTransform (inr body);
                ExistsSync Fixtures.withTransform true;
                ReadFileSync Fixtures.withTransform (inr body);
                DescribeStacksCommand "StackName" (inr Fixtures.created)]
               (transformsDeployed Scripted.world 1 false (inr Fixtures.created)
                                   Fixtures.transformRequest
                                   (snd (cf_DescribeStacks Scripted.world "StackName" w)))
  /\ outcome r = Resolved (Some Fixtures.updated)
  /\ mutations (trace r)
     = [CreateChangeSetCommand request (inr tt);
        ExecuteChangeSetCommand
          (changeSetParams "StackName" "cf-utils-cloudformation-upsert-stack-1700000000")
          (inr tt)].
Proof.
  cbv zeta. split; [reflexivity |]. split; [reflexivity |]. split; [reflexivity |].
  pose proof (upsertStack_transforms_use_change_sets Scripted.world 1 "StackName"
                Fixtures.withTransform Fixtures.inputs OptionsMissing
                Fixtures.updateWithTransform Fixtures.updateWithTransform _
                eq_refl eq_refl eq_refl) as (Hnever & Hlocal & _).
  split; [exact (Hnever 2%nat) |].
  split; [| split; reflexivity].
  exact (proj2 (Hlocal eq_refl Fixtures.transformRequest Fixtures.updateWithTransform
                       (snd (cf_DescribeStacks Scripted.world "StackName"
                                               Fixtures.updateWithTransform))
                       [ExistsSync Fixtures.withTransform true;
                        ReadFileSync Fixtures.withTransform
                          (inr ("Transform: "
                                ++ String quote ("AWS::Serverless" ++ String quote "")))]
                       (inr Fixtures.created) eq_refl eq_refl)).
Defined.

(** * Reading a stack *)

Module JsObjectFacts.

Section JsObjectFacts.

Context {V : Type}.

Lemma get_define_same (key : string) (value : V) (o : JsObject.t V) :
  JsObject.get key (JsObject.define key value o) = Some value.
Proof.
  induction o as [|[k v] o IH]; simpl.
  - now rewrite String.eqb_refl.
  - destruct (k =? key)%string eqn:E; simpl; now rewrite E.
Qed.

Lemma get_define_other (key key' : string) (value : V) (o : JsObject.t V) :
  key' <> key ->
  JsObject.get key (JsObject.define key' value o) = JsObject.get key o.
Proof.
  intros Hne. induction o as [|[k v] o IH]; simpl.
  - apply String.eqb_neq in Hne. now rewrite Hne.
  - destruct (k =? key')%string eqn:E; simpl.
    + apply String.eqb_eq in E as ->. apply String.eqb_neq in Hne. now rewrite Hne.
    + now rewrite IH.
Qed.

(** Reading a property after an assignment. *)
Lemma get_set (key key' : string) (value : V) (o : JsObject.t V) :
  JsObject.get key (JsObject.set key' value o)
  = if ((key' =? key) && negb (key' =? "__proto__"))%string then Some value
    else JsObject.get key o.
Proof.
  unfold JsObject.set. destruct (key' =? "__proto__")%string eqn:Ep.
  - now rewrite andb_false_r.
  - rewrite andb_true_r. destruct (key' =? key)%string eqn:E.
    + apply String.eqb_eq in E as ->. apply get_define_same.
    + apply String.eqb_neq in E. now apply get_define_other.
Qed.

End JsObjectFacts.

End JsObjectFacts.

Section Reading.

Context {W : Type}.
Variable world : World W.

#[local] Arguments String.append : simpl never.

Lemma find_app_last (A : Type) (f : A -> bool) (l : list A) (a : A) :
  find f (l ++ [a])
  = match find f l with
    | Some x => Some x
    | None => if f a then Some a else None
    end.
Proof.
  induction l as [|x l IH]; simpl; [reflexivity |].
  destruct (f x); [reflexivity | exact IH].
Qed.

(** What the loop of [extractOutput] leaves under a key: the value of the
    last output with that key, or what was there before. *)
Lemma extractOutput_loop (key : string) (outputs : list Output) :
  forall acc : JsObject.t string,
    JsObject.get key
      (fold_left (fun map output =>
                    JsObject.set (OutputKey output) (OutputValue output) map)
                 outputs acc)
    = if (key =? "__proto__")%string then JsObject.get key acc
      else match lastOutput key outputs with
           | Some output => Some (OutputValue output)
           | None => JsObject.get key acc
           end.
Proof.
  unfold lastOutput. induction outputs as [|output outputs IH]; intros acc; cbn [fold_left].
  - cbn. now destruct (key =? "__proto__")%string.
  - rewrite IH. cbn [rev]. rewrite find_app_last, JsObjectFacts.get_set.
    destruct (key =? "__proto__")%string eqn:Ep.
    + apply String.eqb_eq in Ep as ->.
      destruct (OutputKey output =? "__proto__")%string; reflexivity.
    + destruct (find _ (rev outputs)); [reflexivity |].
      destruct (OutputKey output =? key)%string eqn:E; [| reflexivity].
      apply String.eqb_eq in E. rewrite E, Ep. reflexivity.
Qed.

(** X1.  [extractOutput] keeps one value for every output key: that of the
    last output with the key.  An output with the key [__proto__] leaves no
    property behind. *)
Theorem extractOutput_last_wins (stack : Stack) (outputs : list Output) :
  Outputs stack = Some outputs ->
  exists map,
    extractOutput (Some stack) = inr map
    /\ forall key,
         JsObject.get key map
         = if (key =? "__proto__")%string then None
           else option_map OutputValue (lastOutput key outputs).
Proof.
  intros Ho. unfold extractOutput. rewrite Ho. eexists. split; [reflexivity |].
  intros key. rewrite extractOutput_loop. cbn.
  destruct (key =? "__proto__")%string; [reflexivity |].
  now destruct (lastOutput key outputs).
Qed.

(** X2.  [describeOutput] is fulfilled exactly when the describe is accepted
    and the first stack of the reply has outputs; it is then fulfilled with
    what [extractOutput] makes of that stack.  A stack without outputs is
    a rejection, not an empty object. *)
Theorem describeOutput_fulfilled_iff (stackName : string) (w : W) (map : JsObject.t string) :
  outcome (describeOutput world stackName w) = Resolved map
  <-> exists data w' stack rest outputs,
        cf_DescribeStacks world stackName w = (inr data, w')
        /\ Stacks data = stack :: rest
        /\ Outputs stack = Some outputs
        /\ extractOutput (Some stack) = inr map.
Proof.
  unfold describeOutput, describeStack, sendDescribeStacks, bind, send.
  destruct (cf_DescribeStacks world stackName w) as [[err | data] w'] eqn:Hd; cbn.
  - split; [discriminate | intros (? & ? & ? & ? & ? & [=] & _)].
  - destruct (Stacks data) as [|stack rest] eqn:Hs; cbn.
    + split; [discriminate | intros (? & ? & ? & ? & ? & [= <- _] & H & _); congruence].
    + unfold extractOutput. destruct (Outputs stack) as [outputs |] eqn:Ho; cbn.
      * split.
        -- intros [= <-]. exists data, w', stack, rest, outputs. rewrite Ho. auto.
        -- intros (d & w'' & s & r & o & [= <- _] & H & Ho' & Hm).
           rewrite Hs in H. injection H as <- <-. rewrite Ho in Hm. congruence.
      * split; [discriminate |].
        intros (d & w'' & s & r & o & [= <- _] & H & Ho' & _).
        rewrite Hs in H. injection H as <- <-. congruence.
Qed.

(** X3.  A stack that does not exist: [describeStack] and [describeOutput]
    hand on the rejection of the provider, where a poll for the same stack
    is fulfilled with nothing.  Each of them asks the provider once. *)
Theorem describeStack_missing_stack_rejects (stackName : string) (w w' : W) (err : JsError)
        (rounds : nat) :
  cf_DescribeStacks world stackName w = (inl err, w') ->
  JsString.Contains (message err) "does not exist" ->
  describeStack world stackName w
  = mkRun (Rejected err) w' [DescribeStacksCommand stackName (inl err)]
  /\ describeOutput world stackName w
     = mkRun (Rejected err) w' [DescribeStacksCommand stackName (inl err)]
  /\ outcome (pollStack world (S rounds) (stackParams stackName) w) = Resolved None.
Proof.
  intros Hd Hc. repeat split.
  - unfold describeStack, sendDescribeStacks, bind, send. now rewrite Hd.
  - unfold describeOutput, describeStack, sendDescribeStacks, bind, send. now rewrite Hd.
  - rewrite (pollStack_probe_failed world rounds (stackParams stackName) w w' err Hd).
    apply JsStringFacts.includes_spec in Hc. now rewrite Hc.
Qed.

End Reading.

Lemma extractOutput_last_wins_witness :
  exists map,
    extractOutput (Some Cases.repeated) = inr map
    /\ forall key,
         JsObject.get key map
         = if (key =? "__proto__")%string then None
           else option_map OutputValue
                  (lastOutput key
                     [mkOutput "Endpoint" "first"; mkOutput "__proto__" "polluted";
                      mkOutput "DataBucket" "data"; mkOutput "Endpoint" "second"]).
Proof. apply (extractOutput_last_wins Cases.repeated). reflexivity. Defined.

Lemma describeStack_missing_stack_rejects_witness :
  describeStack Scripted.world "StackName" (Fixtures.describing [])
  = mkRun (Rejected Scripted.notFound) (Fixtures.describing [])
          [DescribeStacksCommand "StackName" (inl Scripted.notFound)]
  /\ describeOutput Scripted.world "StackName" (Fixtures.describing [])
     = mkRun (Rejected Scripted.notFound) (Fixtures.describing [])
             [DescribeStacksCommand "StackName" (inl Scripted.notFound)]
  /\ outcome (pollStack Scripted.world 1 (stackParams "StackName") (Fixtures.describing []))
     = Resolved None.
Proof.
  apply (describeStack_missing_stack_rejects Scripted.world "StackName"
           (Fixtures.describing []) (Fixtures.describing []) Scripted.notFound 0).
  - reflexivity.
  - exists "", "". reflexivity.
Defined.

(** * Change-set names *)

Section Naming.

Context {W : Type}.
Variable world : World W.

#[local] Arguments String.append : simpl never.

Lemma ToInt32_in_range (z : Z) : - 2 ^ 31 <= z < 2 ^ 31 -> ToInt32 z = z.
Proof.
  intros Hz. unfold ToInt32.
  destruct (Z_lt_le_dec z 0) as [Hneg | Hpos].
  - replace (z mod 2 ^ 32) with (z + 2 ^ 32).
    + destruct (z + 2 ^ 32 <? 2 ^ 31) eqn:E; [apply Z.ltb_lt in E |]; lia.
    + apply Z.mod_unique with (q := -1); lia.
  - rewrite Z.mod_small by lia.
    destruct (z <? 2 ^ 31) eqn:E; [reflexivity | apply Z.ltb_ge in E; lia].
Qed.

Lemma ToInt32_wraps (z : Z) : 2 ^ 31 <= z < 2 ^ 32 -> ToInt32 z = z - 2 ^ 32.
Proof.
  intros Hz. unfold ToInt32. rewrite Z.mod_small by lia.
  destruct (z <? 2 ^ 31) eqn:E; [apply Z.ltb_lt in E; lia | reflexivity].
Qed.

Lemma to_int_not_nil (z : Z) :
  Z.to_int z <> Decimal.Pos Decimal.Nil /\ Z.to_int z <> Decimal.Neg Decimal.Nil.
Proof.
  destruct z as [|p|p]; cbn; split; try discriminate;
    intros [= H]; now apply Unsigned.to_uint_nonnil in H.
Qed.

(** Different integers are written differently. *)
Lemma of_Z_inj (a b : Z) : JsString.of_Z a = JsString.of_Z b -> a = b.
Proof.
  unfold JsString.of_Z. intros H.
  apply (f_equal NilZero.int_of_string) in H.
  destruct (to_int_not_nil a) as [Ha1 Ha2], (to_int_not_nil b) as [Hb1 Hb2].
  rewrite !NilZero.isi in H by assumption.
  injection H as H. now apply to_int_inj.
Qed.

Lemma append_inj_l (prefix a b : string) : prefix ++ a = prefix ++ b -> a = b.
Proof.
  induction prefix as [|c prefix IH]; cbn; [auto |].
  intros [= H]. auto.
Qed.

Lemma generateChangeSetName_run (w : W) :
  generateChangeSetName world w
  = mkRun (Resolved ("cf-utils-cloudformation-upsert-stack-"
                     ++ JsString.of_Z (ToInt32 (Z.quot (fst (Date_now world w)) 1000))))
          (snd (Date_now world w)) [DateNow (fst (Date_now world w))].
Proof.
  unfold generateChangeSetName, bind, now, call.
  destruct (Date_now world w) as [t w']. reflexivity.
Qed.

(** X4.  Until the clock reaches 2^31 seconds, two names that
    [generateChangeSetName] makes are the same exactly when they are made
    within the same second. *)
Theorem generateChangeSetName_one_per_second (w1 w2 : W) :
  let t1 := fst (Date_now world w1) in
  let t2 := fst (Date_now world w2) in
  0 <= t1 < 2147483648000 ->
  0 <= t2 < 2147483648000 ->
  (outcome (generateChangeSetName world w1) = outcome (generateChangeSetName world w2)
   <-> t1 / 1000 = t2 / 1000).
Proof.
  intros t1 t2 H1 H2. rewrite !generateChangeSetName_run. cbn [outcome].
  fold t1 t2.
  rewrite !Z.quot_div_nonneg by lia.
  assert (B1 : 0 <= t1 / 1000 < 2147483648)
    by (split; [apply Z.div_pos | apply Z.div_lt_upper_bound]; lia).
  assert (B2 : 0 <= t2 / 1000 < 2147483648)
    by (split; [apply Z.div_pos | apply Z.div_lt_upper_bound]; lia).
  rewrite !ToInt32_in_range by lia.
  split.
  - intros [= H]. apply append_inj_l in H. now apply of_Z_inj.
  - intros ->. reflexivity.
Qed.

(** X5.  From 2^31 seconds on the number in the name is negative: the
    count of seconds is cut to 32 bits, so the name goes on with a second
    hyphen and counts down. *)
Theorem generateChangeSetName_after_2038 (w : W) :
  let t := fst (Date_now world w) in
  2147483648000 <= t < 4294967296000 ->
  0 < 4294967296 - t / 1000 <= 2147483648
  /\ outcome (generateChangeSetName world w)
     = Resolved ("cf-utils-cloudformation-upsert-stack--"
                 ++ JsString.of_Z (4294967296 - t / 1000)).
Proof.
  intros t Ht. rewrite generateChangeSetName_run. cbn [outcome]. fold t.
  rewrite Z.quot_div_nonneg by lia.
  assert (B : 2147483648 <= t / 1000 < 4294967296)
    by (split; [apply Z.div_le_lower_bound | apply Z.div_lt_upper_bound]; lia).
  split; [lia |].
  rewrite ToInt32_wraps by lia.
  replace (t / 1000 - 2 ^ 32) with (- (4294967296 - t / 1000)) by lia.
  destruct (4294967296 - t / 1000) as [|p|p] eqn:E; try lia.
  reflexivity.
Qed.

End Naming.

Lemma generateChangeSetName_one_per_second_witness :
  outcome (generateChangeSetName Scripted.world (Cases.at_ 1700000000123))
  = outcome (generateChangeSetName Scripted.world (Cases.at_ 1700000000999))
  <-> 1700000000123 / 1000 = 1700000000999 / 1000.
Proof.
  apply (generateChangeSetName_one_per_second Scripted.world
           (Cases.at_ 1700000000123) (Cases.at_ 1700000000999)); cbn; lia.
Defined.

Lemma generateChangeSetName_after_2038_witness :
  0 < 4294967296 - 2147483648000 / 1000 <= 2147483648
  /\ outcome (generateChangeSetName Scripted.world (Cases.at_ 2147483648000))
     = Resolved ("cf-utils-cloudformation-upsert-stack--"
                 ++ JsString.of_Z (4294967296 - 2147483648000 / 1000)).
Proof.
  apply (generateChangeSetName_after_2038 Scripted.world (Cases.at_ 2147483648000)).
  cbn. lia.
Defined.

(** * The template of an upsert *)

Section Templates.

Context {W : Type}.
Variable world : World W.

#[local] Arguments String.append : simpl never.

(** X6.  A local template that is not on disk, when the caller has said
    whether it contains transforms: [upsertStack] checks for the file,
    rejects with a message that names it, and asks nothing of the
    provider. *)
Theorem upsertStack_missing_script (rounds : nat) (stackName script : string)
        (parameters : list StackParameter) (options : OptionsArg) (flag : bool) (w w' : W) :
  containsTransforms (normalizeOptions options) = Some flag ->
  truthy (s3Bucket (normalizeOptions options)) = false ->
  (JsString.substring0 10 script =? "https://s3")%string = false ->
  fs_existsSync world script w = (false, w') ->
  upsertStack world (S rounds) stackName script parameters options w
  = mkRun (Rejected (Error (script ++ " does not exist!"))) w' [ExistsSync script false].
Proof.
  intros Hflag Hs3 Hurl Hex. cbn [upsertStack]. unfold detectTransforms. rewrite Hflag.
  unfold bind at 1. cbn. rewrite Hs3.
  unfold buildParams. rewrite Hurl. unfold bind, existsSync, call. rewrite Hex. reflexivity.
Qed.

(** X7.  When the caller has not said whether the template contains
    transforms, the script is read from disk before anything else, also
    when it is the address of a template in S3 and also when a bucket to
    upload to is named.  A script that cannot be read is then the end of
    it: the rejection is that of the file system. *)
Theorem upsertStack_unreadable_script (rounds : nat) (stackName script : string)
        (parameters : list StackParameter) (options : OptionsArg) (err : JsError) (w w' : W) :
  containsTransforms (normalizeOptions options) = None ->
  fs_readFileSync world script w = (inl err, w') ->
  upsertStack world (S rounds) stackName script parameters options w
  = mkRun (Rejected err) w' [ReadFileSync script (inl err)].
Proof.
  intros Hflag Hread. cbn [upsertStack]. unfold detectTransforms. rewrite Hflag.
  unfold bind, readFileSync, send. rewrite Hread. reflexivity.
Qed.

Lemma pollStack_byReference (url : string) (rounds : nat) (params : Params) :
  emits (byReference url) (pollStack world rounds params).
Proof.
  apply (emits_weaken stackPollEvent); [| exact (pollStack_events world rounds params)].
  intros [] H; try exact I; destruct H.
Qed.

Lemma pollChangeSet_byReference (url : string) (rounds : nat) (params : Params) :
  emits (byReference url) (pollChangeSet world rounds params).
Proof.
  apply (emits_weaken changeSetPollEvent); [| exact (pollChangeSet_events world rounds params)].
  intros [] H; try exact I; destruct H.
Qed.

Lemma createChangeSet_byReference (url : string) (rounds : nat) (params : Params) :
  refers url params -> emits (byReference url) (createChangeSet world rounds params).
Proof.
  intros Hp. apply emits_bind; [apply emits_send; intros; exact Hp |].
  intros; apply pollChangeSet_byReference.
Qed.

Lemma executeChangeSet_byReference (url : string) (rounds : nat) (params : Params) :
  emits (byReference url) (executeChangeSet world rounds params).
Proof.
  apply emits_bind; [apply emits_send; intros; exact I | intros; apply pollStack_byReference].
Qed.

Lemma deleteChangeSet_byReference (url : string) (rounds : nat) (params : Params) :
  emits (byReference url) (deleteChangeSet world rounds params).
Proof.
  apply emits_bind; [apply emits_send; intros; exact I |].
  intros; apply pollChangeSet_byReference.
Qed.

Lemma deployViaChangeSet_byReference (url : string) (rounds : nat) (kind : string)
      (params : Params) :
  refers url params -> emits (byReference url) (deployViaChangeSet world rounds kind params).
Proof.
  intros Hp. apply emits_bind; [apply emits_emit; exact I | intros _].
  apply emits_bind.
  - apply emits_bind; [apply emits_call; intros; exact I | intros; apply emits_ret].
  - intros changeSetName. apply emits_bind.
    + apply createChangeSet_byReference. exact Hp.
    + intros [cs |]; [apply executeChangeSet_byReference | apply emits_ret].
Qed.

Lemma updateStack_byReference (url : string) (rounds : nat) (params : Params) :
  refers url params -> emits (byReference url) (updateStack world rounds params).
Proof.
  intros Hp. apply emits_bind; [apply emits_attempt, emits_send; intros; exact Hp |].
  intros r. apply emits_bind; [| intros; apply pollStack_byReference].
  destruct r as [err | []]; [| apply emits_ret].
  destruct (0 <=? _); [apply emits_emit; exact I | apply emits_throw].
Qed.

Lemma createPath_byReference (url : string) (rounds : nat) (flag : bool) (params : Params) :
  refers url params -> emits (byReference url) (createPath world rounds flag params).
Proof.
  intros Hp. unfold createPath. destruct flag.
  - now apply deployViaChangeSet_byReference.
  - apply emits_bind; [apply emits_send; intros; exact Hp |].
    intros; apply pollStack_byReference.
Qed.

Lemma executeUpdate_byReference (url : string) (rounds : nat) (flag : bool) (params : Params) :
  refers url params -> emits (byReference url) (executeUpdate world rounds flag params).
Proof.
  intros Hp. unfold executeUpdate. destruct flag.
  - now apply deployViaChangeSet_byReference.
  - now apply updateStack_byReference.
Qed.

Lemma updatePath_byReference (url : string) (rounds : nat) (reviewed flag : bool)
      (params : Params) :
  refers url params -> emits (byReference url) (updatePath world rounds reviewed flag params).
Proof.
  intros Hp. unfold updatePath. destruct reviewed.
  - apply emits_bind; [apply emits_emit; exact I | intros _].
    apply emits_bind; [apply createChangeSet_byReference; exact Hp |].
    intros [cs |].
    + apply emits_bind; [apply emits_emit; exact I | intros _].
      apply emits_bind; [apply emits_send; intros; exact I | intros answer].
      apply emits_bind; [apply emits_emit; exact I | intros _].
      apply emits_bind; [apply deleteChangeSet_byReference | intros _].
      destruct answer; [| apply emits_throw].
      apply emits_bind; [apply emits_emit; exact I | intros _].
      now apply executeUpdate_byReference.
    + apply emits_bind; [apply emits_emit; exact I | intros _].
      apply pollStack_byReference.
  - apply emits_bind; [apply emits_emit; exact I | intros _].
    now apply executeUpdate_byReference.
Qed.

(** An upsert from an address, with the flag given and no bucket named:
    every request that carries a template carries the address. *)
Lemma upsertStack_byReference (url : string) (rounds : nat) (stackName : string)
      (parameters : list StackParameter) (reviewed : option bool) (flag : bool) :
  (JsString.substring0 10 url =? "https://s3")%string = true ->
  emits (byReference url)
        (upsertStack world rounds stackName url parameters
                     (OptionsObject (mkOptions reviewed None None (Some flag)))).
Proof.
  intros Hurl. destruct rounds as [|rounds]; [intros w; constructor |].
  cbn [upsertStack normalizeOptions]. unfold detectTransforms. cbn [containsTransforms].
  apply emits_bind_ret.
  cbn [s3Bucket truthy]. unfold buildParams. rewrite Hurl.
  apply emits_bind_ret.
  apply emits_bind; [apply emits_attempt, emits_send; intros; exact I |].
  intros [err | data].
  - apply createPath_byReference. split; reflexivity.
  - apply updatePath_byReference. split; reflexivity.
Qed.

(** X8.  With a bucket named in the options, the template is uploaded to
    it under the prefix followed by the script's path, once the script has
    been read to look for transforms.  When the upload is rejected that is
    the end of it.  Otherwise every request that carries a template carries
    the address of the uploaded copy and no template body, the disk is not
    read again, and nothing else is uploaded. *)
Theorem upsertStack_upload_by_reference (rounds : nat) (stackName script : string)
        (parameters : list StackParameter) (options : Options) (w : W) :
  truthy (s3Bucket options) = true ->
  let bucket := interpolate (s3Bucket options) in
  let key := interpolate (s3Prefix options) ++ script in
  let url := "https://s3.amazonaws.com/" ++ bucket ++ "/" ++ key in
  let r := upsertStack world (S rounds) stackName script parameters (OptionsObject options) w in
  (exists err w',
      containsTransforms options = None
      /\ fs_readFileSync world script w = (inl err, w')
      /\ r = mkRun (Rejected err) w' [ReadFileSync script (inl err)])
  \/ (exists pre reply later,
         trace r = (pre ++ PutS3Object bucket key script reply :: later)%list
         /\ Forall fileEvent pre
         /\ Forall (byReference url) later
         /\ forall err, reply = inl err -> later = [] /\ outcome r = Rejected err).
Proof.
  intros Hs3 bucket key url r. subst r.
  cbn [upsertStack normalizeOptions]. rewrite Hs3. fold bucket key.
  pose proof (detectTransforms_events world options script w) as Hpre.
  destruct (detectTransforms world options script w) as [[flag | err |] w0 pre] eqn:Hdetect;
    cbn [trace] in Hpre.
  - right. rewrite (bind_resolved _ _ _ _ _ _ _ _ Hdetect).
    destruct (s3_putS3Object world bucket key script w0) as [[err | []] w1] eqn:Hput.
    + assert (Hrun : putS3Object world bucket key script w0
                     = mkRun (Rejected err) w1 [PutS3Object bucket key script (inl err)])
        by (unfold putS3Object, send; now rewrite Hput).
      rewrite (bind_rejected _ _ _ _ _ _ _ _ Hrun).
      exists pre, (inl err), []. cbn.
      split; [reflexivity |]. split; [exact Hpre |]. split; [constructor |].
      intros e [= <-]. split; reflexivity.
    + assert (Hrun : putS3Object world bucket key script w0
                     = mkRun (Resolved tt) w1 [PutS3Object bucket key script (inr tt)])
        by (unfold putS3Object, send; now rewrite Hput).
      rewrite (bind_resolved _ _ _ _ _ _ _ _ Hrun).
      exists pre, (inr tt).
      eexists. split; [cbn [trace after app]; reflexivity |].
      split; [exact Hpre |]. split; [| discriminate].
      apply upsertStack_byReference. reflexivity.
  - left. unfold detectTransforms in Hdetect.
    destruct (containsTransforms options) eqn:Hc; [discriminate |].
    unfold bind, readFileSync, send in Hdetect.
    destruct (fs_readFileSync world script w) as [[e | body] w'] eqn:Hread; [| discriminate].
    injection Hdetect as <- <- <-. exists e, w'. repeat split.
    unfold detectTransforms. rewrite Hc. unfold bind, readFileSync, send. now rewrite Hread.
  - exfalso. unfold detectTransforms in Hdetect.
    destruct (containsTransforms options); [discriminate |].
    unfold bind, readFileSync, send in Hdetect.
    destruct (fs_readFileSync world script w) as [[e | body] w']; discriminate.
Qed.

End Templates.

Lemma upsertStack_missing_script_witness :
  upsertStack Scripted.world 1 "StackName" Cases.missing Fixtures.inputs
              (OptionsObject (mkOptions None None None (Some false)))
              (Scripted.mkScript Fixtures.disk [] [] [] [] 0)
  = mkRun (Rejected (Error (Cases.missing ++ " does not exist!")))
          (Scripted.mkScript Fixtures.disk [] [] [] [] 0)
          [ExistsSync Cases.missing false].
Proof.
  apply (upsertStack_missing_script Scripted.world 0 "StackName" Cases.missing Fixtures.inputs
           (OptionsObject (mkOptions None None None (Some false))) false);
    reflexivity.
Defined.

Lemma upsertStack_unreadable_script_witness :
  upsertStack Scripted.world 1 "StackName" Cases.missing Fixtures.inputs OptionsMissing
              (Scripted.mkScript Fixtures.disk [] [] [] [] 0)
  = mkRun (Rejected (Error "ENOENT: no such file or directory, open '/path/to/missing.yaml'"))
          (Scripted.mkScript Fixtures.disk [] [] [] [] 0)
          [ReadFileSync Cases.missing
             (inl (Error "ENOENT: no such file or directory, open '/path/to/missing.yaml'"))].
Proof.
  apply (upsertStack_unreadable_script Scripted.world 0 "StackName" Cases.missing
           Fixtures.inputs OptionsMissing); reflexivity.
Defined.

Lemma upsertStack_upload_by_reference_witness :
  let w := Scripted.mkScript Fixtures.disk [] [] [] [] 0 in
  let key := "undefined" ++ Fixtures.plain in
  let url := "https://s3.amazonaws.com/artifacts/" ++ key in
  let r := upsertStack Scripted.world 3 "StackName" Fixtures.plain Fixtures.inputs
                       (OptionsObject Cases.toArtifacts) w in
  (exists err w',
      containsTransforms Cases.toArtifacts = None
      /\ fs_readFileSync Scripted.world Fixtures.plain w = (inl err, w')
      /\ r = mkRun (Rejected err) w' [ReadFileSync Fixtures.plain (inl err)])
  \/ (exists pre reply later,
         trace r = (pre ++ PutS3Object "artifacts" key Fixtures.plain reply :: later)%list
         /\ Forall fileEvent pre
         /\ Forall (byReference url) later
         /\ forall err, reply = inl err -> later = [] /\ outcome r = Rejected err).
Proof.
  apply (upsertStack_upload_by_reference Scripted.world 2 "StackName" Fixtures.plain
           Fixtures.inputs Cases.toArtifacts).
  reflexivity.
Defined.

(** * A declined review *)

Section Review.

Context {W : Type}.
Variable world : World W.

#[local] Arguments String.append : simpl never.

Lemma bind_outcome (A B : Type) (m : M W A) (k : A -> M W B) (w : W) :
  outcome (bind m k w)
  = match outcome (m w) with
    | Resolved a => outcome (k a (final (m w)))
    | Rejected e => Rejected e
    | Pending => Pending
    end.
Proof. unfold bind. now destruct (outcome (m w)). Qed.

Lemma unprompted_not_in (t : list Event) (reply : Result bool) :
  Forall unprompted t -> ~ In (Prompt reply) t.
Proof.
  intros Ht Hin. rewrite Forall_forall in Ht. exact (Ht _ Hin).
Qed.

(** What comes before the question does not decide the matter. *)
Lemma declined_bind (A B : Type) (stackName : string) (m : M W A) (k : A -> M W B) (w : W) :
  Forall quiet (trace (m w)) ->
  (forall a, outcome (m w) = Resolved a ->
             In (Prompt (inr false)) (trace (k a (final (m w)))) ->
             Declined stackName (k a (final (m w)))) ->
  In (Prompt (inr false)) (trace (bind m k w)) ->
  Declined stackName (bind m k w).
Proof.
  intros Hm Hk. unfold Declined. rewrite bind_trace, bind_outcome.
  intros Hin. apply in_app_or in Hin as [Hin | Hin].
  - exfalso. rewrite Forall_forall in Hm. now destruct (Hm _ Hin).
  - destruct (outcome (m w)) as [a | e |]; [| destruct Hin | destruct Hin].
    destruct (Hk a eq_refl Hin) as (Hl & Ho & reply & Hd).
    split; [| split].
    + apply Forall_app. split; [| exact Hl].
      eapply Forall_impl; [| exact Hm]. now intros ev [].
    + exact Ho.
    + exists reply. apply in_or_app. now right.
Qed.

Lemma stackPoll_unprompted (ev : Event) : stackPollEvent ev -> unprompted ev.
Proof. destruct ev; intros H; try exact I; destruct H. Qed.

Lemma changeSetPoll_quiet (ev : Event) : changeSetPollEvent ev -> quiet ev.
Proof. destruct ev; intros H; try (split; exact I); destruct H. Qed.

Lemma pollStack_unprompted (rounds : nat) (params : Params) :
  emits unprompted (pollStack world rounds params).
Proof.
  apply (emits_weaken stackPollEvent); [exact stackPoll_unprompted |].
  exact (pollStack_events world rounds params).
Qed.

Lemma pollChangeSet_quiet (rounds : nat) (params : Params) :
  emits quiet (pollChangeSet world rounds params).
Proof.
  apply (emits_weaken changeSetPollEvent); [exact changeSetPoll_quiet |].
  exact (pollChangeSet_events world rounds params).
Qed.

Lemma createChangeSet_quiet (rounds : nat) (params : Params) :
  emits quiet (createChangeSet world rounds params).
Proof.
  apply emits_bind; [apply emits_send; intros; split; exact I |].
  intros; apply pollChangeSet_quiet.
Qed.

Lemma deleteChangeSet_quiet (rounds : nat) (params : Params) :
  emits quiet (deleteChangeSet world rounds params).
Proof.
  apply emits_bind; [apply emits_send; intros; split; exact I |].
  intros; apply pollChangeSet_quiet.
Qed.

Lemma quiet_unprompted (A : Type) (m : M W A) : emits quiet m -> emits unprompted m.
Proof. apply emits_weaken. now intros ev []. Qed.

Lemma deployViaChangeSet_unprompted (rounds : nat) (kind : string) (params : Params) :
  emits unprompted (deployViaChangeSet world rounds kind params).
Proof.
  apply emits_bind; [apply emits_emit; exact I | intros _].
  apply emits_bind.
  - apply emits_bind; [apply emits_call; intros; exact I | intros; apply emits_ret].
  - intros changeSetName. apply emits_bind.
    + apply quiet_unprompted, createChangeSet_quiet.
    + intros [cs |]; [| apply emits_ret].
      apply emits_bind; [apply emits_send; intros; exact I |].
      intros; apply pollStack_unprompted.
Qed.

Lemma executeUpdate_unprompted (rounds : nat) (flag : bool) (params : Params) :
  emits unprompted (executeUpdate world rounds flag params).
Proof.
  unfold executeUpdate. destruct flag; [apply deployViaChangeSet_unprompted |].
  apply emits_bind; [apply emits_attempt, emits_send; intros; exact I |].
  intros r. apply emits_bind; [| intros; apply pollStack_unprompted].
  destruct r as [err | []]; [| apply emits_ret].
  destruct (0 <=? _); [apply emits_emit; exact I | apply emits_throw].
Qed.

Lemma createPath_unprompted (rounds : nat) (flag : bool) (params : Params) :
  emits unprompted (createPath world rounds flag params).
Proof.
  unfold createPath. destruct flag; [apply deployViaChangeSet_unprompted |].
  apply emits_bind; [apply emits_send; intros; exact I |].
  intros; apply pollStack_unprompted.
Qed.

Lemma fileEvents_quiet (t : list Event) : Forall fileEvent t -> Forall quiet t.
Proof.
  apply Forall_impl. intros ev H. destruct ev; try destruct H; split; exact I.
Qed.

(** Once the stack has been described: a run in which the operator
    declines. *)
Lemma updatePath_declined (rounds : nat) (reviewed flag : bool) (params : Params) (w : W) :
  In (Prompt (inr false)) (trace (updatePath world rounds reviewed flag params w)) ->
  Declined (StackName params) (updatePath world rounds reviewed flag params w).
Proof.
  unfold updatePath. destruct reviewed.
  - apply declined_bind; [repeat constructor | intros _ _].
    apply declined_bind; [apply createChangeSet_quiet | intros cs _].
    destruct cs as [cs |].
    + apply declined_bind; [repeat constructor | intros _ _].
      set (w1 := final _). clearbody w1.
      unfold prompt. destruct (inquirer_prompt world w1) as [answer w2] eqn:Hanswer.
      destruct answer as [err | [|]].
      * intros Hin. exfalso. revert Hin.
        unfold bind at 1, send. rewrite Hanswer. cbn. intros [[=] | []].
      * intros Hin. exfalso. revert Hin.
        rewrite (bind_resolved _ _ _ _ _ w2 true [Prompt (inr true)])
          by (unfold send; now rewrite Hanswer).
        cbn [after trace app]. intros [[=] | Hin].
        apply (unprompted_not_in _ (inr false)) in Hin; [exact Hin |].
        apply emits_bind; [apply emits_emit; exact I | intros _].
        apply emits_bind; [apply quiet_unprompted, deleteChangeSet_quiet | intros _].
        apply emits_bind; [apply emits_emit; exact I | intros _].
        apply executeUpdate_unprompted.
      * intros _.
        rewrite (bind_resolved _ _ _ _ _ w2 false [Prompt (inr false)])
          by (unfold send; now rewrite Hanswer).
        unfold Declined, log. cbn [after trace outcome app].
        rewrite emit_bind_trace, bind_trace.
        pose proof (deleteChangeSet_quiet rounds (previewParams params) w2) as Hq.
        split; [| split].
        -- constructor; [exact I |]. constructor; [exact I |].
           apply Forall_app. split.
           ++ eapply Forall_impl; [| exact Hq]. now intros ev [].
           ++ destruct (outcome _); constructor.
        -- intros a. rewrite bind_outcome. cbn [emit outcome final]. rewrite bind_outcome.
           destruct (outcome _); discriminate.
        -- unfold deleteChangeSet, sendDeleteChangeSet. rewrite send_bind_trace.
           eexists. right. right. apply in_or_app. left. left. reflexivity.
    + intros Hin. exfalso. apply (unprompted_not_in _ (inr false)) in Hin; [exact Hin |].
      apply emits_bind; [apply emits_emit; exact I | intros _].
      apply pollStack_unprompted.
  - intros Hin. exfalso. apply (unprompted_not_in _ (inr false)) in Hin; [exact Hin |].
    apply emits_bind; [apply emits_emit; exact I | intros _].
    apply executeUpdate_unprompted.
Qed.

(** X9.  A run of [upsertStack] in which the operator answers no: no
    stack is created, updated or deleted and no change set is executed, the
    promise is not fulfilled, and the deletion of the preview change set
    has been asked for. *)
Theorem upsertStack_declined_review (rounds : nat) (stackName : string)
        (parameters : list StackParameter) :
  forall (script : string) (options : OptionsArg) (w : W),
    In (Prompt (inr false))
       (trace (upsertStack world rounds stackName script parameters options w)) ->
    Declined stackName (upsertStack world rounds stackName script parameters options w).
Proof.
  induction rounds as [|rounds IH]; intros script options w; [intros [] |].
  cbn [upsertStack]. apply declined_bind.
  { apply fileEvents_quiet, detectTransforms_events. }
  intros flag _. set (w0 := final _). clearbody w0.
  destruct (truthy (s3Bucket (normalizeOptions options))).
  - apply declined_bind; [| intros _ _; apply IH].
    apply (emits_send quiet). intros; split; exact I.
  - apply declined_bind.
    { apply fileEvents_quiet, buildParams_events. }
    intros params Hparams.
    assert (Hname : StackName params = stackName).
    { destruct (buildParams world stackName script parameters w0) as [o w1 t] eqn:E.
      cbn in Hparams. subst o. exact (buildParams_StackName world _ _ _ _ _ _ _ E). }
    set (w1 := final _). clearbody w1.
    apply declined_bind.
    { apply emits_attempt, (emits_send quiet). intros; split; exact I. }
    intros [err | data] _.
    + intros Hin. exfalso. apply (unprompted_not_in _ (inr false)) in Hin; [exact Hin |].
      apply createPath_unprompted.
    + rewrite <- Hname. apply updatePath_declined.
Qed.

End Review.

Lemma upsertStack_declined_review_witness :
  Declined "StackName"
           (upsertStack Scripted.world 2 "StackName" Fixtures.plain Fixtures.inputs
                        (OptionsBoolean true) Fixtures.declinedReview).
Proof.
  apply (upsertStack_declined_review Scripted.world 2 "StackName" Fixtures.inputs
           Fixtures.plain (OptionsBoolean true) Fixtures.declinedReview).
  vm_compute. tauto.
Defined.

(** * The cost of a poll *)

Section PollCost.

Context {W : Type}.
Variable world : World W.

#[local] Arguments String.append : simpl never.

Lemma timeouts_app (t1 t2 : list Event) :
  timeouts (t1 ++ t2) = (timeouts t1 ++ timeouts t2)%list.
Proof.
  induction t1 as [|ev t1 IH]; cbn; [reflexivity |].
  destruct ev; cbn; now rewrite ?IH.
Qed.

(** While the stack waits, the poll sleeps [POLL_TIMEOUT] after every
    describe. *)
Lemma pollStack_waits_sleeping (params : Params) (waits : nat) (w w' : W) :
  StackWaits world (StackName params) waits w w' ->
  forall rounds,
  exists t,
    pollStack world (waits + rounds) params w = after t (pollStack world rounds params w')
    /\ length (filter isDescribeStacks t) = waits
    /\ timeouts t = repeat POLL_TIMEOUT waits.
Proof.
  induction 1 as [w | w w1 w' seen stack rest waits Hd Hs Hok Hko _ IH]; intros rounds.
  - exists []. repeat split.
    unfold after. cbn. now destruct (pollStack world rounds params w).
  - destruct (IH rounds) as (t & Ht & Hn & Hsleep).
    cbn [Nat.add]. rewrite (pollStack_observe world _ _ _ _ _ _ _ Hd Hs), Hok, Hko, Ht.
    exists (DescribeStacksCommand (StackName params) (inr seen)
            :: Log level_info
                   [LogString ("Waiting for stack operation to complete. This may take some time - "
                               ++ StackStatus stack)]
            :: SetTimeout POLL_TIMEOUT :: t).
    split; [reflexivity |].
    split; cbn; [now rewrite Hn | now rewrite Hsleep].
Qed.

(** X10.  A poll that is granted more rounds than the stack takes to settle
    is fulfilled with the settled description.  It has then described the
    stack once for every status it was shown, and slept [POLL_TIMEOUT]
    milliseconds after every describe but the last. *)
Theorem pollStack_settles_after_sleeping (params : Params) (waits : nat) (w w' : W)
        (data : DescribeStacksOutput) :
  StackSettles world (StackName params) waits w data w' ->
  forall rounds, (waits < rounds)%nat ->
    let r := pollStack world rounds params w in
    outcome r = Resolved (Some data)
    /\ final r = w'
    /\ length (filter isDescribeStacks (trace r)) = S waits
    /\ timeouts (trace r) = repeat 5000 waits.
Proof.
  intros (w1 & stack & rest & Hw & Hd & Hs & Hok) rounds Hlt.
  replace rounds with (waits + S (rounds - S waits))%nat by lia.
  destruct (pollStack_waits_sleeping params waits w w1 Hw (S (rounds - S waits)))
    as (t & Ht & Hn & Hsleep).
  cbv zeta. rewrite Ht, (pollStack_observe world _ _ _ _ _ _ _ Hd Hs), Hok. cbn.
  repeat split.
  - rewrite filter_app, length_app, Hn. cbn. lia.
  - rewrite timeouts_app, Hsleep. cbn. now rewrite app_nil_r.
Qed.

End PollCost.

Lemma pollStack_settles_after_sleeping_witness :
  let w := Fixtures.describing [inr Fixtures.deleting; inr Fixtures.deleting;
                                inr Fixtures.updated] in
  let r := pollStack Scripted.world 3 (stackParams "StackName") w in
  outcome r = Resolved (Some Fixtures.updated)
  /\ final r = Fixtures.describing []
  /\ length (filter isDescribeStacks (trace r)) = 3%nat
  /\ timeouts (trace r) = [5000; 5000].
Proof.
  apply (pollStack_settles_after_sleeping Scripted.world (stackParams "StackName") 2
           (Fixtures.describing [inr Fixtures.deleting; inr Fixtures.deleting;
                                 inr Fixtures.updated])
           (Fixtures.describing []) Fixtures.updated); [| lia].
  exists (Fixtures.describing [inr Fixtures.updated]), 
         (mkStack "StackName" "UPDATE_COMPLETE" None), [].
  split; [| repeat split].
  eapply waits_on; [reflexivity | reflexivity | reflexivity | reflexivity |].
  eapply waits_on; [reflexivity | reflexivity | reflexivity | reflexivity |].
  apply waits_over.
Defined.

(** * Computations over any collaborators *)

Module AsyncFacts.

Section AsyncFacts.

Context {E W : Type}.

Lemma async_bind_trace (A B : Type) (m : Async.M E W A) (k : A -> Async.M E W B) (w : W) :
  Async.trace (Async.bind m k w)
  = (Async.trace (m w)
     ++ match Async.outcome (m w) with
        | Async.Resolved a => Async.trace (k a (Async.final (m w)))
        | _ => []
        end)%list.
Proof.
  unfold Async.bind. destruct (Async.outcome (m w)); cbn; [reflexivity | |];
    now rewrite app_nil_r.
Qed.

Lemma async_bind_outcome (A B : Type) (m : Async.M E W A) (k : A -> Async.M E W B) (w : W) :
  Async.outcome (Async.bind m k w)
  = match Async.outcome (m w) with
    | Async.Resolved a => Async.outcome (k a (Async.final (m w)))
    | Async.Rejected v => Async.Rejected v
    | Async.Pending => Async.Pending
    end.
Proof. unfold Async.bind. now destruct (Async.outcome (m w)). Qed.

Lemma async_bind_final (A B : Type) (m : Async.M E W A) (k : A -> Async.M E W B) (w : W) :
  Async.final (Async.bind m k w)
  = match Async.outcome (m w) with
    | Async.Resolved a => Async.final (k a (Async.final (m w)))
    | _ => Async.final (m w)
    end.
Proof. unfold Async.bind. now destruct (Async.outcome (m w)). Qed.

Lemma async_attempt_trace (A : Type) (m : Async.M E W A) (w : W) :
  Async.trace (Async.attempt m w) = Async.trace (m w).
Proof. unfold Async.attempt. now destruct (Async.outcome (m w)). Qed.

Lemma async_attempt_final (A : Type) (m : Async.M E W A) (w : W) :
  Async.final (Async.attempt m w) = Async.final (m w).
Proof. unfold Async.attempt. now destruct (Async.outcome (m w)). Qed.

Lemma async_attempt_outcome (A : Type) (m : Async.M E W A) (w : W) :
  Async.outcome (Async.attempt m w)
  = match Async.outcome (m w) with
    | Async.Resolved a => Async.Resolved (inr a)
    | Async.Rejected v => Async.Resolved (inl v)
    | Async.Pending => Async.Pending
    end.
Proof. unfold Async.attempt. now destruct (Async.outcome (m w)). Qed.

Lemma async_send_run (T : Type) (h : W -> Result T * W) (ev : Result T -> E) (w : W) :
  Async.send h ev w
  = Async.mkRun match fst (h w) with
                | inl e => Async.Rejected (ThrownError e)
                | inr t => Async.Resolved t
                end
                (snd (h w)) [ev (fst (h w))].
Proof. unfold Async.send. now destruct (h w) as [[e | t] w']. Qed.

Lemma async_bind_resolved (A B : Type) (m : Async.M E W A) (k : A -> Async.M E W B) (w w1 : W)
      (a : A) (t : list E) :
  m w = Async.mkRun (Async.Resolved a) w1 t -> Async.bind m k w = Async.after t (k a w1).
Proof. intros H. unfold Async.bind. now rewrite H. Qed.

Lemma async_bind_rejected (A B : Type) (m : Async.M E W A) (k : A -> Async.M E W B) (w w1 : W)
      (v : Thrown) (t : list E) :
  m w = Async.mkRun (Async.Rejected v) w1 t ->
  Async.bind m k w = Async.mkRun (Async.Rejected v) w1 t.
Proof. intros H. unfold Async.bind. now rewrite H. Qed.

Lemma async_send_accepted (T : Type) (h : W -> Result T * W) (ev : Result T -> E) (w w1 : W)
      (x : T) :
  h w = (inr x, w1) -> Async.send h ev w = Async.mkRun (Async.Resolved x) w1 [ev (inr x)].
Proof. intros H. unfold Async.send. now rewrite H. Qed.

Lemma async_emits_ret (P : E -> Prop) (A : Type) (a : A) : Async.emits P (@Async.ret E W A a).
Proof. intros w. constructor. Qed.

Lemma async_emits_throw (P : E -> Prop) (A : Type) (v : Thrown) :
  Async.emits P (@Async.throw E W A v).
Proof. intros w. constructor. Qed.

Lemma async_emits_bind (P : E -> Prop) (A B : Type) (m : Async.M E W A) (k : A -> Async.M E W B) :
  Async.emits P m -> (forall a, Async.emits P (k a)) -> Async.emits P (Async.bind m k).
Proof.
  intros Hm Hk w. rewrite async_bind_trace. apply Forall_app. split; [apply Hm |].
  destruct (Async.outcome (m w)); [apply Hk | constructor | constructor].
Qed.

Lemma async_emits_attempt (P : E -> Prop) (A : Type) (m : Async.M E W A) :
  Async.emits P m -> Async.emits P (Async.attempt m).
Proof. intros Hm w. rewrite async_attempt_trace. apply Hm. Qed.

Lemma async_emits_send (P : E -> Prop) (T : Type) (h : W -> Result T * W) (ev : Result T -> E) :
  (forall r, P (ev r)) -> Async.emits P (Async.send h ev).
Proof. intros Hev w. rewrite async_send_run. cbn. auto. Qed.

Lemma async_emits_call (P : E -> Prop) (T : Type) (h : W -> T * W) (ev : T -> E) :
  (forall r, P (ev r)) -> Async.emits P (Async.call h ev).
Proof. intros Hev w. unfold Async.call. destruct (h w). cbn. auto. Qed.

Lemma async_emits_emit (P : E -> Prop) (ev : E) : P ev -> Async.emits P (@Async.emit E W ev).
Proof. intros Hev w. cbn. auto. Qed.

End AsyncFacts.

End AsyncFacts.

(** * Emptying a bucket *)

Section Emptying.

Context {W : Type}.
Variable world : S3.World W.

Local Open Scope async_scope.

Lemma pagesDeleted_app (t1 t2 : list S3.Event) :
  S3.pagesDeleted (t1 ++ t2) = (S3.pagesDeleted t1 ++ S3.pagesDeleted t2)%list.
Proof.
  induction t1 as [|ev t1 IH]; cbn; [reflexivity |].
  destruct ev; cbn; now rewrite ?IH.
Qed.

Lemma pagesListed_app (t1 t2 : list S3.Event) :
  S3.pagesListed (t1 ++ t2) = (S3.pagesListed t1 ++ S3.pagesListed t2)%list.
Proof.
  induction t1 as [|ev t1 IH]; cbn; [reflexivity |].
  destruct ev; cbn; rewrite ?IH; try reflexivity.
  now destruct (S3.shown reply).
Qed.

Lemma listings_app (t1 t2 : list S3.Event) :
  S3.listings (t1 ++ t2) = (S3.listings t1 ++ S3.listings t2)%list.
Proof.
  induction t1 as [|ev t1 IH]; cbn; [reflexivity |].
  destruct ev; cbn; now rewrite ?IH.
Qed.

Lemma versionsListed_app (t1 t2 : list S3.Event) :
  S3.versionsListed (t1 ++ t2) = (S3.versionsListed t1 ++ S3.versionsListed t2)%list.
Proof.
  induction t1 as [|ev t1 IH]; cbn; [reflexivity |].
  destruct ev; cbn; now rewrite ?IH.
Qed.

Lemma deletesWhatWasShown_app (t1 t2 : list S3.Event) :
  forall before : list S3.Event,
    S3.deletesWhatWasShown before t1 ->
    S3.deletesWhatWasShown (before ++ t1) t2 ->
    S3.deletesWhatWasShown before (t1 ++ t2).
Proof.
  induction t1 as [|ev t1 IH]; intros before H1 H2.
  - now rewrite app_nil_r in H2.
  - cbn [app S3.deletesWhatWasShown] in *. destruct H1 as [Hev H1]. split; [exact Hev |].
    apply IH; [exact H1 |]. now rewrite <- app_assoc.
Qed.

Ltac pages :=
  cbn [Async.after Async.trace Async.outcome Async.final app fst snd
       S3.pagesDeleted S3.pagesListed S3.listings S3.versionsListed S3.chained].

(** ** Calls side by side *)

Lemma In_without (A : Type) (x : A) (l : list A) :
  forall index, In x (S3.without index l) -> In x l.
Proof.
  induction l as [|a l IH]; intros [|index] H; cbn in *; auto.
  destruct H as [-> | H]; eauto.
Qed.

Lemma In_instead (A : Type) (x next : A) (l : list A) :
  forall index, In x (S3.instead index next l) -> x = next \/ In x l.
Proof.
  induction l as [|a l IH]; intros [|index] H; cbn in *; auto.
  - destruct H as [<- | H]; auto.
  - destruct H as [-> | H]; auto. destruct (IH _ H); auto.
Qed.


Lemma turn_In (chains : list S3.Chain) (first : S3.Chain) (turn : nat) :
  chains <> [] ->
  In (nth (Nat.modulo turn (length chains)) chains first) chains.
Proof.
  intros Hsome. apply nth_In. apply Nat.mod_upper_bound.
  destruct chains; [congruence | discriminate].
Qed.

(** One reply: the world picks a call, the call goes on. *)
Lemma sideBySide_step (rounds : nat) (bucketName : string) (first : S3.Chain)
      (others : list S3.Chain) (w : W) :
  let chains := first :: others in
  let turn := S3.answersFirst world (length chains) w in
  let index := Nat.modulo (fst turn) (length chains) in
  let step := S3.resume world bucketName (nth index chains first) (snd turn) in
  S3.sideBySide world (S rounds) bucketName chains w
  = Async.after [fst (fst step)]
      match snd (fst step) with
      | S3.Rejects err => Async.mkRun (Async.Rejected (ThrownError err)) (snd step) []
      | S3.Fulfils => S3.sideBySide world rounds bucketName (S3.without index chains) (snd step)
      | S3.Awaits next =>
          S3.sideBySide world rounds bucketName (S3.instead index next chains) (snd step)
      end.
Proof. reflexivity. Qed.

(** What a reply is recorded as, and how the call goes on from it. *)
Lemma resume_spec (bucketName : string) (chain : S3.Chain) (w : W) :
  let step := S3.resume world bucketName chain w in
  S3.about bucketName (fst (fst step))
  /\ S3.listings [fst (fst step)] = []
  /\ S3.pagesListed [fst (fst step)] = []
  /\ (forall err, S3.rejection (fst (fst step)) = Some err
                  <-> snd (fst step) = S3.Rejects err)
  /\ (forall next, snd (fst step) = S3.Awaits next -> S3.keyOf next = S3.keyOf chain)
  /\ S3.versionsListed [fst (fst step)]
     = match chain with
       | S3.Listing key _ => [S3.prefixOf key]
       | S3.Deleting _ _ => []
       end.
Proof.
  cbv zeta. destruct chain as [key token | key data]; cbn [S3.resume fst snd].
  - repeat split; try reflexivity.
    + cbn. destruct (fst (S3.s3_ListObjectVersions world _ _ _ _ _ w)) as [e | data];
        [intros [= <-]; reflexivity | discriminate].
    + destruct (fst (S3.s3_ListObjectVersions world _ _ _ _ _ w)) as [e | data];
        [intros [= <-]; reflexivity |].
      destruct (S3.Versions data) as [[|version versions] |]; discriminate.
    + intros next.
      destruct (fst (S3.s3_ListObjectVersions world _ _ _ _ _ w)) as [e | data];
        [discriminate |].
      destruct (S3.Versions data) as [[|version versions] |]; try discriminate.
      intros [= <-]. reflexivity.
  - repeat split; try reflexivity.
    + cbn. destruct (fst (S3.s3_DeleteObjects world _ _ w)) as [e | []];
        [intros [= <-]; reflexivity | discriminate].
    + destruct (fst (S3.s3_DeleteObjects world _ _ w)) as [e | []];
        [intros [= <-]; reflexivity |].
      destruct (truthy _); discriminate.
    + intros next. destruct (fst (S3.s3_DeleteObjects world _ _ w)) as [e | []];
        [discriminate |].
      destruct (truthy _); [| discriminate]. intros [= <-]. reflexivity.
Qed.

(** The calls side by side ask about the bucket, and list no objects. *)
Lemma sideBySide_events (rounds : nat) (bucketName : string) :
  forall (chains : list S3.Chain) (w : W),
    let t := Async.trace (S3.sideBySide world rounds bucketName chains w) in
    Forall (S3.about bucketName) t /\ S3.listings t = [] /\ S3.pagesListed t = [].
Proof.
  induction rounds as [|rounds IH]; intros [|first others] w;
    try (cbn; repeat split; constructor).
  cbv zeta. rewrite sideBySide_step. cbv zeta.
  set (turn := S3.answersFirst world _ w).
  set (index := Nat.modulo _ _).
  destruct (resume_spec bucketName (nth index (first :: others) first) (snd turn))
    as (Habout & Hlistings & Hpages & _).
  cbv zeta in Habout, Hlistings, Hpages.
  set (step := S3.resume world bucketName _ (snd turn)) in *.
  cbn [Async.after Async.trace].
  rewrite listings_app, pagesListed_app, Hlistings, Hpages. cbn [app].
  assert (Hrest : forall chains,
             let t := Async.trace (S3.sideBySide world rounds bucketName chains (snd step)) in
             Forall (S3.about bucketName) ([fst (fst step)] ++ t)
             /\ S3.listings t = [] /\ S3.pagesListed t = []).
  { intros chains. destruct (IH chains (snd step)) as (Ha & Hl & Hp).
    split; [constructor; assumption | auto]. }
  destruct (snd (fst step)) as [next | | err]; [apply Hrest | apply Hrest |].
  cbn. repeat split. constructor; [exact Habout | constructor].
Qed.

(** A reply that is a rejection ends the calls side by side with that
    rejection. *)
Lemma sideBySide_rejected (rounds : nat) (bucketName : string) (ev : S3.Event)
      (err : JsError) :
  S3.rejection ev = Some err ->
  forall (chains : list S3.Chain) (w : W),
    In ev (Async.trace (S3.sideBySide world rounds bucketName chains w)) ->
    Async.outcome (S3.sideBySide world rounds bucketName chains w)
    = Async.Rejected (ThrownError err).
Proof.
  intros Hev. induction rounds as [|rounds IH]; intros [|first others] w;
    [intros [] | intros [] | intros [] |].
  rewrite sideBySide_step. cbv zeta.
  set (turn := S3.answersFirst world _ w).
  set (index := Nat.modulo _ _).
  destruct (resume_spec bucketName (nth index (first :: others) first) (snd turn))
    as (_ & _ & _ & Hrej & _).
  cbv zeta in Hrej.
  set (step := S3.resume world bucketName _ (snd turn)) in *.
  cbn [Async.after Async.trace Async.outcome app].
  assert (Hsame : fst (fst step) = ev -> snd (fst step) = S3.Rejects err).
  { intros <-. now apply Hrej. }
  destruct (snd (fst step)) as [next | | err0] eqn:Hp.
  - intros [Hin | Hin]; [specialize (Hsame Hin); discriminate | now apply IH].
  - intros [Hin | Hin]; [specialize (Hsame Hin); discriminate | now apply IH].
  - intros [Hin | []]. specialize (Hsame Hin). now injection Hsame as ->.
Qed.



(** The calls side by side ask to delete the versions that they were
    shown. *)
Lemma sideBySide_shown (rounds : nat) (bucketName : string) :
  forall (chains : list S3.Chain) (before : list S3.Event) (w : W),
    Forall (S3.wasShown before) chains ->
    S3.deletesWhatWasShown before
      (Async.trace (S3.sideBySide world rounds bucketName chains w)).
Proof.
  induction rounds as [|rounds IH]; intros [|first others] before w Hall;
    try exact I.
  rewrite sideBySide_step. cbv zeta.
  set (turn := S3.answersFirst world _ w).
  set (index := Nat.modulo _ _).
  assert (Hpicked : In (nth index (first :: others) first) (first :: others))
    by (apply turn_In; discriminate).
  assert (Hchain := proj1 (Forall_forall _ _) Hall _ Hpicked).
  assert (Hlater : forall ev chain, S3.wasShown before chain -> S3.wasShown (before ++ [ev]) chain).
  { intros ev [key token | key data]; [trivial |].
    intros (Hsome & earlier & Hin & Hshown). split; [exact Hsome |].
    exists earlier. split; [apply in_or_app; now left | exact Hshown]. }
  destruct (nth index (first :: others) first) as [key token | key data];
    cbn [S3.resume fst snd Async.after Async.trace app S3.deletesWhatWasShown].
  - split; [exact I |].
    destruct (S3.s3_ListObjectVersions world bucketName _ _ _ _ (snd turn))
      as [[err | data] w1]; cbn [fst snd]; [exact I |].
    destruct (S3.Versions data) as [[|version versions] |] eqn:Hversions.
    + apply IH. rewrite Forall_forall in *. intros chain Hin.
      apply In_without in Hin. auto.
    + apply IH. rewrite Forall_forall in *. intros chain Hin.
      apply In_instead in Hin as [-> | Hin]; [| auto].
      split.
      * unfold S3.versionsOf. rewrite Hversions. discriminate.
      * eexists. split; [apply in_or_app; right; now left | reflexivity].
    + apply IH. rewrite Forall_forall in *. intros chain Hin.
      apply In_without in Hin. auto.
  - split; [exact Hchain |].
    destruct (S3.s3_DeleteObjects world bucketName _ (snd turn)) as [[err | []] w1];
      cbn [fst snd]; [exact I |].
    destruct (truthy (S3.NextKeyMarker data)).
    + apply IH. rewrite Forall_forall in *. intros chain Hin.
      apply In_instead in Hin as [-> | Hin]; [exact I | auto].
    + apply IH. rewrite Forall_forall in *. intros chain Hin.
      apply In_without in Hin. auto.
Qed.

(** ** The loop of [emptyBucket] *)

(** One turn of the loop: what the listing comes back with decides what
    follows. *)
Lemma listAndDelete_step (rounds : nat) (versioned : bool) (bucketName : string)
      (token : option string) (w : W) :
  let reply := fst (S3.s3_ListObjectsV2 world bucketName token w) in
  let w1 := snd (S3.s3_ListObjectsV2 world bucketName token w) in
  S3.listAndDelete world (S rounds) versioned bucketName token w
  = Async.after [S3.ListObjectsV2Command bucketName token reply]
      match reply with
      | inl err => Async.mkRun (Async.Rejected (ThrownError err)) w1 []
      | inr data =>
          match S3.shown reply with
          | [] => Async.mkRun (Async.Resolved tt) w1 []
          | page =>
              if versioned then S3.deleteVersionedObjects world rounds bucketName page w1
              else (S3.deleteObjects world bucketName page ;;
                    if truthy (S3.NextContinuationToken data) then
                      S3.listAndDelete world rounds versioned bucketName
                                       (S3.NextContinuationToken data)
                    else Async.ret tt) w1
          end
      end.
Proof.
  cbn [S3.listAndDelete]. unfold Async.bind at 1, S3.listObjects.
  rewrite AsyncFacts.async_send_run. cbn [Async.outcome Async.final Async.trace].
  destruct (S3.s3_ListObjectsV2 world bucketName token w) as [[err | data] w1]; cbn.
  - reflexivity.
  - destruct (S3.Contents data) as [[|object contents] |]; cbn; try reflexivity.
    now destruct versioned.
Qed.

(** The loop goes from page to page by the tokens. *)
Lemma listAndDelete_chained (rounds : nat) (versioned : bool) (bucketName : string) :
  forall (token : option string) (w : W),
    S3.chained token
      (S3.listings (Async.trace (S3.listAndDelete world rounds versioned bucketName token w))).
Proof.
  induction rounds as [|rounds IH]; intros token w; [exact I |].
  rewrite listAndDelete_step. cbv zeta.
  destruct (S3.s3_ListObjectsV2 world bucketName token w) as [[err | data] w1];
    cbn [fst snd].
  - cbn. auto.
  - destruct (S3.shown (inr data)) as [|object page].
    + pages. auto.
    + destruct versioned.
      * pages. unfold S3.deleteVersionedObjects.
        destruct (sideBySide_events rounds bucketName
                    (map (fun key => S3.Listing key None) (object :: page)) w1)
          as (_ & -> & _). auto.
      * pages. rewrite AsyncFacts.async_bind_trace.
        unfold S3.deleteObjects. rewrite AsyncFacts.async_send_run. pages.
        destruct (fst (S3.s3_DeleteObjects world bucketName (object :: page) w1))
          as [err | []]; [pages; auto |].
        destruct (truthy (S3.NextContinuationToken data)) eqn:Htoken; [| cbn; auto].
        specialize (IH (S3.NextContinuationToken data)
                       (snd (S3.s3_DeleteObjects world bucketName (object :: page) w1))).
        split; [reflexivity |].
        destruct (S3.listings _); [exact I | auto].
Qed.

(** Without versioning the loop asks to delete every page that it
    lists, and lists no versions. *)
Lemma listAndDelete_pages (rounds : nat) (bucketName : string) :
  forall (token : option string) (w : W),
    let t := Async.trace (S3.listAndDelete world rounds false bucketName token w) in
    S3.pagesDeleted t = S3.pagesListed t /\ S3.versionsListed t = [].
Proof.
  induction rounds as [|rounds IH]; intros token w; [cbn; auto |].
  cbv zeta. rewrite listAndDelete_step. cbv zeta.
  destruct (S3.s3_ListObjectsV2 world bucketName token w) as [[err | data] w1];
    cbn [fst snd].
  - cbn. auto.
  - destruct (S3.shown (inr data)) as [|object page] eqn:Hshown.
    + pages. rewrite Hshown. auto.
    + pages. rewrite AsyncFacts.async_bind_trace.
      unfold S3.deleteObjects. rewrite AsyncFacts.async_send_run.
      pages. rewrite Hshown.
      destruct (fst (S3.s3_DeleteObjects world bucketName (object :: page) w1))
        as [err | []]; [pages; auto |].
      destruct (truthy (S3.NextContinuationToken data)) eqn:Htoken; [| cbn; auto].
      destruct (IH (S3.NextContinuationToken data)
                   (snd (S3.s3_DeleteObjects world bucketName (object :: page) w1)))
        as [Hpages Hversions].
      split; [now rewrite Hpages | exact Hversions].
Qed.

(** The loop asks to delete what it was shown: the objects of the page
    or, with versioning, the versions of its objects. *)
Lemma listAndDelete_shown (rounds : nat) (versioned : bool) (bucketName : string) :
  forall (token : option string) (before : list S3.Event) (w : W),
    S3.deletesWhatWasShown before
      (Async.trace (S3.listAndDelete world rounds versioned bucketName token w)).
Proof.
  induction rounds as [|rounds IH]; intros token before w; [exact I |].
  rewrite listAndDelete_step. cbv zeta.
  destruct (S3.s3_ListObjectsV2 world bucketName token w) as [[err | data] w1];
    cbn [fst snd].
  - cbn. auto.
  - destruct (S3.shown (inr data)) as [|object page] eqn:Hshown.
    + cbn. auto.
    + cbn [Async.after Async.trace app S3.deletesWhatWasShown]. split; [exact I |].
      destruct versioned.
      * apply sideBySide_shown. apply Forall_forall. intros chain Hin.
        apply in_map_iff in Hin as (key & <- & _). exact I.
      * rewrite AsyncFacts.async_bind_trace.
        unfold S3.deleteObjects. rewrite AsyncFacts.async_send_run.
        cbn [Async.trace Async.outcome Async.final app S3.deletesWhatWasShown]. split.
        -- split; [discriminate |].
           exists (S3.ListObjectsV2Command bucketName token (inr data)).
           split; [apply in_or_app; right; now left | exact Hshown].
        -- destruct (fst (S3.s3_DeleteObjects world bucketName (object :: page) w1))
             as [err | []]; [exact I |].
           destruct (truthy (S3.NextContinuationToken data)); [apply IH | exact I].
Qed.

Lemma listAndDelete_about (rounds : nat) (versioned : bool) (bucketName : string) :
  forall token, Async.emits (S3.about bucketName)
                            (S3.listAndDelete world rounds versioned bucketName token).
Proof.
  induction rounds as [|rounds IH]; intros token; [intros w; constructor |].
  cbn [S3.listAndDelete].
  apply AsyncFacts.async_emits_bind; [apply AsyncFacts.async_emits_send; reflexivity | intros data].
  destruct (S3.Contents data) as [[|object contents] |]; try apply AsyncFacts.async_emits_ret.
  destruct versioned.
  - intros w. apply sideBySide_events.
  - apply AsyncFacts.async_emits_bind; [apply AsyncFacts.async_emits_send; reflexivity | intros _].
    destruct (truthy _); [apply IH | apply AsyncFacts.async_emits_ret].
Qed.

(** The events of [emptyBucket]: the question about versioning, the
    loop when the question is answered, and a line in the log when the
    bucket turns out not to exist. *)
Lemma emptyBucket_trace (rounds : nat) (bucketName : string) (w : W) :
  let reply := fst (S3.s3_GetBucketVersioning world bucketName w) in
  let w1 := snd (S3.s3_GetBucketVersioning world bucketName w) in
  exists tail,
    Async.trace (S3.emptyBucket world rounds bucketName w)
    = (S3.GetBucketVersioningCommand bucketName reply
       :: match reply with
          | inr data =>
              Async.trace (S3.listAndDelete world rounds (S3.isEnabled data) bucketName None w1)
          | inl _ => []
          end ++ tail)%list
    /\ (tail = [] \/ tail = [S3.Info ["Bucket"; bucketName; "does not exist, continuing..."]]).
Proof.
  cbv zeta. unfold S3.emptyBucket.
  rewrite AsyncFacts.async_bind_trace, AsyncFacts.async_attempt_trace, AsyncFacts.async_attempt_outcome,
    AsyncFacts.async_bind_trace, AsyncFacts.async_bind_outcome, AsyncFacts.async_send_run.
  destruct (S3.s3_GetBucketVersioning world bucketName w) as [[err | data] w1].
  - cbn [Async.trace Async.outcome Async.final app fst snd].
    eexists. split; [reflexivity |].
    destruct (0 <=? _); cbn; auto.
  - cbn [Async.trace Async.outcome Async.final app fst snd].
    eexists. split; [reflexivity |].
    destruct (Async.outcome _) as [[] | v |]; cbn; auto.
    destruct (0 <=? _); cbn; auto.
Qed.

(** X11.  [emptyBucket] asks to delete what it is shown, and nothing
    else.  A run begins with the question about versioning, and every
    request of it is about the bucket that was named.  Every listing of
    objects but the first goes on from the token that the listing before it
    came back with.  Every delete request names something, and names what
    an earlier reply of the run has shown: the objects of a listing or, on
    a bucket with versioning, the versions of a listing of versions.  On a
    bucket without versioning, no versions are listed and the delete
    requests carry, in order, the objects of the listings that showed
    some. *)
Theorem emptyBucket_deletes_what_it_lists (rounds : nat) (bucketName : string) (w : W) :
  let t := Async.trace (S3.emptyBucket world rounds bucketName w) in
  let answer := fst (S3.s3_GetBucketVersioning world bucketName w) in
  hd_error t = Some (S3.GetBucketVersioningCommand bucketName answer)
  /\ Forall (S3.about bucketName) t
  /\ S3.chained None (S3.listings t)
  /\ S3.deletesWhatWasShown [] t
  /\ match answer with
     | inr data =>
         S3.isEnabled data = false ->
         S3.pagesDeleted t = S3.pagesListed t /\ S3.versionsListed t = []
     | inl _ =>
         t = [S3.GetBucketVersioningCommand bucketName answer]
         \/ t = [S3.GetBucketVersioningCommand bucketName answer;
                 S3.Info ["Bucket"; bucketName; "does not exist, continuing..."]]
     end.
Proof.
  cbv zeta. destruct (emptyBucket_trace rounds bucketName w) as (tail & -> & Htail).
  assert (Hquiet : S3.pagesDeleted tail = [] /\ S3.pagesListed tail = []
                   /\ S3.listings tail = [] /\ S3.versionsListed tail = []
                   /\ Forall (S3.about bucketName) tail
                   /\ forall before, S3.deletesWhatWasShown before tail).
  { destruct Htail as [-> | ->]; cbn; repeat split; repeat constructor. }
  destruct Hquiet as (Hd & Hl & Hs & Hv & Ha & Hshown).
  split; [reflexivity |].
  cbn [S3.pagesDeleted S3.pagesListed S3.listings S3.versionsListed S3.deletesWhatWasShown].
  rewrite pagesDeleted_app, pagesListed_app, listings_app, versionsListed_app,
    Hd, Hl, Hs, Hv, !app_nil_r.
  destruct (fst (S3.s3_GetBucketVersioning world bucketName w)) as [err | data].
  - cbn. repeat split; try exact I.
    + constructor; [reflexivity | exact Ha].
    + apply Hshown.
    + destruct Htail as [-> | ->]; auto.
  - split; [| split; [| split]].
    + constructor; [reflexivity |]. apply Forall_app. split; [| exact Ha].
      apply listAndDelete_about.
    + apply listAndDelete_chained.
    + split; [exact I |]. apply deletesWhatWasShown_app; [| apply Hshown].
      apply listAndDelete_shown.
    + intros Hplain. rewrite Hplain. apply listAndDelete_pages.
Qed.

(** [emptyBucket] from its two parts: the question about versioning with
    the loop, and the handling of what they throw. *)
Lemma emptyBucket_run (rounds : nat) (bucketName : string) (w : W) :
  let inner :=
    (data <- Async.send (S3.s3_GetBucketVersioning world bucketName)
                        (S3.GetBucketVersioningCommand bucketName) ;;
     S3.listAndDelete world rounds (S3.isEnabled data) bucketName None) w in
  S3.emptyBucket world rounds bucketName w
  = match Async.outcome inner with
    | Async.Resolved _ => Async.mkRun (Async.Resolved tt) (Async.final inner) (Async.trace inner)
    | Async.Rejected v =>
        if 0 <=? JsString.indexOf (thrownToString v) "The specified bucket does not exist" then
          Async.mkRun (Async.Resolved tt) (Async.final inner)
                      (Async.trace inner
                       ++ [S3.Info ["Bucket"; bucketName; "does not exist, continuing..."]])
        else Async.mkRun (Async.Rejected v) (Async.final inner) (Async.trace inner)
    | Async.Pending => Async.mkRun Async.Pending (Async.final inner) (Async.trace inner)
    end.
Proof.
  cbv zeta. unfold S3.emptyBucket. unfold Async.bind at 1, Async.attempt.
  set (inner := Async.bind _ _ w).
  destruct (Async.outcome inner) as [[] | v |]; cbn [Async.outcome Async.final Async.trace].
  - unfold Async.after, Async.ret. cbn. now rewrite app_nil_r.
  - destruct (0 <=? _); unfold Async.after, S3.info, Async.emit, Async.throw; cbn;
      [reflexivity | now rewrite app_nil_r].
  - reflexivity.
Qed.




(** A request of the loop that is rejected ends the loop with that
    rejection. *)
Lemma listAndDelete_rejected (rounds : nat) (versioned : bool) (bucketName : string)
      (ev : S3.Event) (err : JsError) :
  S3.rejection ev = Some err ->
  forall (token : option string) (w : W),
    In ev (Async.trace (S3.listAndDelete world rounds versioned bucketName token w)) ->
    Async.outcome (S3.listAndDelete world rounds versioned bucketName token w)
    = Async.Rejected (ThrownError err).
Proof.
  intros Hev. induction rounds as [|rounds IH]; intros token w; [intros [] |].
  rewrite listAndDelete_step. cbv zeta.
  destruct (S3.s3_ListObjectsV2 world bucketName token w) as [[e | data] w1];
    cbn [fst snd].
  - pages. intros [<- | []]. cbn in Hev. congruence.
  - destruct (S3.shown (inr data)) as [|object page].
    + pages. intros [<- | []]. discriminate.
    + destruct versioned.
      * pages. intros [<- | Hin]; [discriminate |].
        now apply (sideBySide_rejected rounds bucketName ev err Hev).
      * pages. rewrite AsyncFacts.async_bind_trace, AsyncFacts.async_bind_outcome.
        unfold S3.deleteObjects. rewrite AsyncFacts.async_send_run. pages.
        destruct (fst (S3.s3_DeleteObjects world bucketName (object :: page) w1))
          as [e | []].
        -- intros [<- | [<- | []]]; [discriminate |]. cbn in Hev. congruence.
        -- destruct (truthy (S3.NextContinuationToken data)).
           ++ intros [<- | [<- | Hin]]; try discriminate. now apply IH.
           ++ intros [<- | [<- | []]]; discriminate.
Qed.

(** X13.  A request that is rejected decides how [emptyBucket] ends,
    whichever request it is: when the text of the error says that the
    specified bucket does not exist the call is fulfilled and says so in
    the log, otherwise it is rejected with that error. *)
Theorem emptyBucket_rejected_request_decides (rounds : nat) (bucketName : string) (w : W)
        (ev : S3.Event) (err : JsError) :
  let r := S3.emptyBucket world rounds bucketName w in
  In ev (Async.trace r) ->
  S3.rejection ev = Some err ->
  (JsString.Contains (toString err) "The specified bucket does not exist" ->
   Async.outcome r = Async.Resolved tt
   /\ In (S3.Info ["Bucket"; bucketName; "does not exist, continuing..."]) (Async.trace r))
  /\ (~ JsString.Contains (toString err) "The specified bucket does not exist" ->
      Async.outcome r = Async.Rejected (ThrownError err)).
Proof.
  cbv zeta. rewrite emptyBucket_run. cbv zeta.
  set (inner := Async.bind _ _ w).
  intros Hin Hev.
  assert (Hinner : In ev (Async.trace inner) ->
                   Async.outcome inner = Async.Rejected (ThrownError err)).
  { subst inner. rewrite AsyncFacts.async_bind_trace, AsyncFacts.async_bind_outcome, AsyncFacts.async_send_run.
    cbn [Async.trace Async.outcome Async.final app].
    destruct (fst (S3.s3_GetBucketVersioning world bucketName w)) as [e | data].
    - intros [<- | []]. cbn in Hev. congruence.
    - intros [<- | Hin']; [discriminate |].
      now apply (listAndDelete_rejected rounds (S3.isEnabled data) bucketName ev err Hev). }
  assert (Hwhere : In ev (Async.trace inner)).
  { destruct (Async.outcome inner) as [[] | v |]; try exact Hin.
    destruct (0 <=? _); [| exact Hin].
    cbn [Async.trace] in Hin. apply in_app_or in Hin as [Hin | [<- | []]];
      [exact Hin | discriminate]. }
  rewrite (Hinner Hwhere). cbn [thrownToString].
  pose proof (JsStringFacts.includes_spec (toString err) "The specified bucket does not exist")
    as Hspec.
  unfold JsString.includes in Hspec.
  destruct (0 <=? _) eqn:Hfound; cbn [Async.outcome Async.trace].
  - split; [intros _ | intros Hno; exfalso; apply Hno, Hspec; reflexivity].
    split; [reflexivity |]. apply in_or_app. right. now left.
  - split; [intros Hyes; apply Hspec in Hyes; discriminate | reflexivity].
Qed.

(** The loop over a bucket without versioning that drains in [pages]
    pages. *)
Lemma listAndDelete_drains (bucketName : string) (token : option string) (pages : nat)
      (w w' : W) :
  S3.Drains world bucketName token pages w w' ->
  forall rounds, (pages < rounds)%nat ->
    let r := S3.listAndDelete world rounds false bucketName token w in
    Async.outcome r = Async.Resolved tt
    /\ Async.final r = w'
    /\ length (S3.pagesDeleted (Async.trace r)) = pages.
Proof.
  induction 1 as [token w w' data Hlist Hshown
                 | token w w1 w' data Hlist Hshown Hdel Htoken
                 | token w w1 w2 w' data pages Hlist Hshown Hdel Htoken _ IH];
    intros rounds Hlt; (destruct rounds as [|rounds]; [lia |]);
    cbv zeta; rewrite listAndDelete_step; cbv zeta; rewrite Hlist; cbn [fst snd].
  - rewrite Hshown. cbn. auto.
  - destruct (S3.shown (inr data)) as [|object page]; [congruence |].
    unfold Async.bind, S3.deleteObjects. rewrite AsyncFacts.async_send_run, Hdel, Htoken.
    cbn. auto.
  - destruct (S3.shown (inr data)) as [|object page]; [congruence |].
    destruct (IH rounds ltac:(lia)) as (Ho & Hf & Hn).
    pages.
    rewrite AsyncFacts.async_bind_outcome, AsyncFacts.async_bind_final, AsyncFacts.async_bind_trace.
    unfold S3.deleteObjects. rewrite AsyncFacts.async_send_run, Hdel, Htoken.
    pages. repeat split; [exact Ho | exact Hf |].
    cbn [length]. now rewrite Hn.
Qed.

(** X14.  A bucket without versioning that drains in a number of pages is
    emptied by an [emptyBucket] that is granted more rounds than that: the
    call is fulfilled, after as many delete requests as there are pages. *)
Theorem emptyBucket_drains (rounds : nat) (bucketName : string) (w w1 w' : W)
        (data : S3.GetBucketVersioningOutput) (pages : nat) :
  S3.s3_GetBucketVersioning world bucketName w = (inr data, w1) ->
  S3.isEnabled data = false ->
  S3.Drains world bucketName None pages w1 w' ->
  (pages < rounds)%nat ->
  let r := S3.emptyBucket world rounds bucketName w in
  Async.outcome r = Async.Resolved tt
  /\ Async.final r = w'
  /\ length (S3.pagesDeleted (Async.trace r)) = pages.
Proof.
  intros Hget Hplain Hdrains Hlt. cbv zeta. rewrite emptyBucket_run. cbv zeta.
  destruct (listAndDelete_drains bucketName None pages w1 w' Hdrains rounds Hlt)
    as (Ho & Hf & Hn).
  rewrite AsyncFacts.async_bind_outcome, AsyncFacts.async_bind_final, AsyncFacts.async_bind_trace,
    AsyncFacts.async_send_run, Hget.
  cbn [fst snd Async.outcome Async.final Async.trace]. rewrite Hplain, Ho.
  cbn [Async.outcome Async.final Async.trace app S3.pagesDeleted]. auto.
Qed.

End Emptying.


Lemma emptyBucket_rejected_request_decides_witness :
  let w := S3.Scripted.mkScript (inl S3.Scripted.noSuchBucket) [] [] in
  let r := S3.emptyBucket S3.Scripted.world 1 "bucket" w in
  (JsString.Contains (toString S3.Scripted.noSuchBucket) "The specified bucket does not exist" ->
   Async.outcome r = Async.Resolved tt
   /\ In (S3.Info ["Bucket"; "bucket"; "does not exist, continuing..."]) (Async.trace r))
  /\ (~ JsString.Contains (toString S3.Scripted.noSuchBucket)
                          "The specified bucket does not exist" ->
      Async.outcome r = Async.Rejected (ThrownError S3.Scripted.noSuchBucket)).
Proof.
  apply (emptyBucket_rejected_request_decides S3.Scripted.world 1 "bucket"
           (S3.Scripted.mkScript (inl S3.Scripted.noSuchBucket) [] [])
           (S3.GetBucketVersioningCommand "bucket" (inl S3.Scripted.noSuchBucket))
           S3.Scripted.noSuchBucket).
  - left. reflexivity.
  - reflexivity.
Defined.

Lemma emptyBucket_drains_witness :
  let r := S3.emptyBucket S3.Scripted.world 3 "bucket" (S3.Scripted.twoPages None) in
  Async.outcome r = Async.Resolved tt
  /\ Async.final r = S3.Scripted.mkScript (inr (S3.mkVersioning None)) [] []
  /\ length (S3.pagesDeleted (Async.trace r)) = 2%nat.
Proof.
  apply (emptyBucket_drains S3.Scripted.world 3 "bucket" (S3.Scripted.twoPages None)
           (S3.Scripted.twoPages None) (S3.Scripted.mkScript (inr (S3.mkVersioning None)) [] [])
           (S3.mkVersioning None) 2); [reflexivity | reflexivity | | lia].
  eapply S3.drains_on; [reflexivity | discriminate | reflexivity | reflexivity |].
  eapply S3.drains_last; [reflexivity | discriminate | reflexivity | reflexivity].
Defined.

(** * Deploying with the command line *)

Section Deploying.

Context {W : Type}.
Variable world : World W.
Variable host : Deploy.Host W.

Lemma append_assoc (a b c : string) : (a ++ b) ++ c = a ++ (b ++ c).
Proof. induction a as [|x a IH]; cbn; [reflexivity | now rewrite IH]. Qed.

Lemma append_nil_r (a : string) : a ++ "" = a.
Proof. induction a as [|x a IH]; cbn; [reflexivity | now rewrite IH]. Qed.

(** The listeners print every chunk, in order, and keep what came on
    the error stream. *)
Lemma listen_run (output : list (Deploy.Stream * string)) :
  forall (err : string) (w : W),
    Deploy.listen err output w
    = Async.mkRun (Async.Resolved (err ++ Deploy.errors output)) w
                  (map (fun chunk => Deploy.ConsoleLog (snd chunk)) output).
Proof.
  induction output as [|[[|] data] output IH]; intros err w; cbn [Deploy.listen].
  - cbn. now rewrite append_nil_r.
  - unfold Async.bind. cbn. rewrite IH. reflexivity.
  - unfold Async.bind. cbn. rewrite IH. cbn. now rewrite append_assoc.
Qed.

Lemma asked_app (t1 t2 : list Deploy.Event) :
  Deploy.asked (t1 ++ t2) = (Deploy.asked t1 ++ Deploy.asked t2)%list.
Proof.
  induction t1 as [|ev t1 IH]; cbn; [reflexivity |].
  destruct ev; cbn; now rewrite ?IH.
Qed.

Lemma asked_provider (t : list Event) : Deploy.asked (map Deploy.Provider t) = t.
Proof. induction t as [|ev t IH]; cbn; [reflexivity | now rewrite IH]. Qed.

Lemma asked_console (output : list (Deploy.Stream * string)) :
  Deploy.asked (map (fun chunk => Deploy.ConsoleLog (snd chunk)) output) = [].
Proof. induction output as [|chunk output IH]; cbn; [reflexivity | exact IH]. Qed.

(** [deployStack] once the command line has closed. *)
Lemma deployStack_run (stackName script : string) (parameters : option (list StackParameter))
      (w w1 w2 w3 : W) (profile region : string) (cli : Deploy.ChildProcess) :
  Deploy.config_get host "AWS_PROFILE" w = (inr profile, w1) ->
  Deploy.config_get host "AWS_REGION" w1 = (inr region, w2) ->
  Deploy.child_process_spawn host "aws"
    (Deploy.arguments profile region script stackName (Deploy.overrides parameters)) true w2
  = (cli, w3) ->
  Deploy.deployStack world host stackName script parameters w
  = Async.after
      (Deploy.ConfigGet "AWS_PROFILE" (inr profile)
       :: Deploy.ConfigGet "AWS_REGION" (inr region)
       :: Deploy.Spawn "aws"
            (Deploy.arguments profile region script stackName (Deploy.overrides parameters))
            true cli
       :: map (fun chunk => Deploy.ConsoleLog (snd chunk)) (Deploy.output cli))
      (Async.bind
         match Deploy.code cli with
         | Some 0 => Async.ret tt
         | _ =>
             if 0 <=? JsString.indexOf (Deploy.errors (Deploy.output cli)) "No changes to deploy"
             then Deploy.provider
                    (log level_info [LogString "There are no changes to apply, continuing...."])
             else Async.throw (ThrownString "Stack deploy failed")
         end
         (fun _ => Deploy.provider (describeStack world stackName)) w3).
Proof.
  intros Hprofile Hregion Hspawn. unfold Deploy.deployStack.
  rewrite (AsyncFacts.async_bind_resolved _ _ _ _ _ _ _ _ (AsyncFacts.async_send_accepted _ _ _ _ _ _ Hprofile)).
  rewrite (AsyncFacts.async_bind_resolved _ _ _ _ _ _ _ _ (AsyncFacts.async_send_accepted _ _ _ _ _ _ Hregion)).
  unfold Async.bind at 1, Async.call. rewrite Hspawn.
  cbn [Async.outcome Async.final Async.trace].
  unfold Async.bind at 1. rewrite listen_run.
  cbn [Async.outcome Async.final Async.trace String.append].
  unfold Async.after. cbn [Async.outcome Async.final Async.trace app]. reflexivity.
Qed.

Lemma describeStack_trace (stackName : string) (w : W) :
  trace (describeStack world stackName w)
  = [DescribeStacksCommand stackName (fst (cf_DescribeStacks world stackName w))].
Proof.
  unfold describeStack, sendDescribeStacks, bind, send.
  now destruct (cf_DescribeStacks world stackName w) as [[err | data] w'].
Qed.

(** X15.  [deployStack], once the command line has closed.  When it closed
    with the code 0, or when what it wrote to its error stream, pieced
    together, says that there are no changes to deploy, the stack is
    described and the call ends as the describe does.  Otherwise the call
    is rejected with the string 'Stack deploy failed' and the provider is
    not asked anything.  What the command line wrote to its other stream
    has no part in it. *)
Theorem deployStack_verdict (stackName script : string)
        (parameters : option (list StackParameter))
        (w w1 w2 w3 : W) (profile region : string) (cli : Deploy.ChildProcess) :
  Deploy.config_get host "AWS_PROFILE" w = (inr profile, w1) ->
  Deploy.config_get host "AWS_REGION" w1 = (inr region, w2) ->
  Deploy.child_process_spawn host "aws"
    (Deploy.arguments profile region script stackName (Deploy.overrides parameters)) true w2
  = (cli, w3) ->
  let r := Deploy.deployStack world host stackName script parameters w in
  let probe := Deploy.provider (describeStack world stackName) w3 in
  (Deploy.code cli = Some 0
   \/ JsString.Contains (Deploy.errors (Deploy.output cli)) "No changes to deploy" ->
   Async.outcome r = Async.outcome probe
   /\ Async.final r = Async.final probe
   /\ filter isDescribeStacks (Deploy.asked (Async.trace r))
      = [DescribeStacksCommand stackName (fst (cf_DescribeStacks world stackName w3))])
  /\ (Deploy.code cli <> Some 0 ->
      ~ JsString.Contains (Deploy.errors (Deploy.output cli)) "No changes to deploy" ->
      Async.outcome r = Async.Rejected (ThrownString "Stack deploy failed")
      /\ Async.final r = w3
      /\ Deploy.asked (Async.trace r) = []).
Proof.
  intros Hprofile Hregion Hspawn. cbv zeta.
  rewrite (deployStack_run _ _ _ _ _ _ _ _ _ _ Hprofile Hregion Hspawn).
  pose proof (JsStringFacts.includes_spec (Deploy.errors (Deploy.output cli))
                                          "No changes to deploy") as Hspec.
  unfold JsString.includes in Hspec.
  set (pre := (_ :: _ :: _ :: map _ (Deploy.output cli))%list).
  assert (Hpre : Deploy.asked pre = []) by (subst pre; cbn; apply asked_console).
  set (probe := Deploy.provider (describeStack world stackName) w3).
  assert (Hprobe : filter isDescribeStacks (Deploy.asked (Async.trace probe))
                   = [DescribeStacksCommand stackName
                        (fst (cf_DescribeStacks world stackName w3))]).
  { subst probe. unfold Deploy.provider. cbn [Async.trace].
    rewrite asked_provider, describeStack_trace. reflexivity. }
  assert (Hquiet : Async.bind (Async.ret tt)
                              (fun _ => Deploy.provider (describeStack world stackName)) w3
                   = Async.after [] probe) by reflexivity.
  assert (Hlogged :
            Async.bind
              (Deploy.provider
                 (log level_info [LogString "There are no changes to apply, continuing...."]))
              (fun _ => Deploy.provider (describeStack world stackName)) w3
            = Async.after
                [Deploy.Provider
                   (Log level_info
                        [LogString "There are no changes to apply, continuing...."])]
                probe) by reflexivity.
  assert (Hfailed :
            Async.bind (Async.throw (A := unit) (ThrownString "Stack deploy failed"))
                       (fun _ => Deploy.provider (describeStack world stackName)) w3
            = Async.mkRun (Async.Rejected (ThrownString "Stack deploy failed")) w3 [])
    by reflexivity.
  assert (Hdone : forall mid,
             filter isDescribeStacks (Deploy.asked mid) = [] ->
             let r := Async.after pre (Async.after mid probe) in
             Async.outcome r = Async.outcome probe
             /\ Async.final r = Async.final probe
             /\ filter isDescribeStacks (Deploy.asked (Async.trace r))
                = [DescribeStacksCommand stackName
                     (fst (cf_DescribeStacks world stackName w3))]).
  { intros mid Hmid r0. subst r0. cbn [Async.after Async.outcome Async.final Async.trace].
    rewrite !asked_app, Hpre. cbn [app]. rewrite filter_app, Hmid, Hprobe. auto. }
  split.
  - intros Hok.
    destruct (Deploy.code cli) as [[|p|p] |] eqn:Hcode.
    + rewrite Hquiet. now apply Hdone.
    + destruct Hok as [[=] | Hyes]. apply Hspec in Hyes. rewrite Hyes, Hlogged.
      now apply Hdone.
    + destruct Hok as [[=] | Hyes]. apply Hspec in Hyes. rewrite Hyes, Hlogged.
      now apply Hdone.
    + destruct Hok as [[=] | Hyes]. apply Hspec in Hyes. rewrite Hyes, Hlogged.
      now apply Hdone.
  - intros Hcode Hno.
    assert (Hnone : (0 <=? JsString.indexOf (Deploy.errors (Deploy.output cli))
                                            "No changes to deploy") = false).
    { destruct (0 <=? _); [exfalso; apply Hno, Hspec; reflexivity | reflexivity]. }
    rewrite Hnone.
    destruct (Deploy.code cli) as [[|p|p] |]; [congruence | | |];
      rewrite Hfailed; cbn [Async.after Async.outcome Async.final Async.trace];
      rewrite app_nil_r, Hpre; auto.
Qed.

End Deploying.

Lemma deployStack_verdict_witness :
  let w := Fixtures.describing [inr Fixtures.updated] in
  let host := Deploy.fixedHost Deploy.nothingToDeploy in
  let r := Deploy.deployStack Scripted.world host "StackName" "location/of/StackName.yaml"
                              (Some Fixtures.inputs) w in
  let probe := Deploy.provider (describeStack Scripted.world "StackName") w in
  (Deploy.code Deploy.nothingToDeploy = Some 0
   \/ JsString.Contains (Deploy.errors (Deploy.output Deploy.nothingToDeploy))
                        "No changes to deploy" ->
   Async.outcome r = Async.outcome probe
   /\ Async.final r = Async.final probe
   /\ filter isDescribeStacks (Deploy.asked (Async.trace r))
      = [DescribeStacksCommand "StackName" (fst (cf_DescribeStacks Scripted.world "StackName" w))])
  /\ (Deploy.code Deploy.nothingToDeploy <> Some 0 ->
      ~ JsString.Contains (Deploy.errors (Deploy.output Deploy.nothingToDeploy))
                          "No changes to deploy" ->
      Async.outcome r = Async.Rejected (ThrownString "Stack deploy failed")
      /\ Async.final r = w
      /\ Deploy.asked (Async.trace r) = []).
Proof.
  apply (deployStack_verdict Scripted.world (Deploy.fixedHost Deploy.nothingToDeploy)
           "StackName" "location/of/StackName.yaml" (Some Fixtures.inputs)
           (Fixtures.describing [inr Fixtures.updated])
           (Fixtures.describing [inr Fixtures.updated])
           (Fixtures.describing [inr Fixtures.updated])
           (Fixtures.describing [inr Fixtures.updated])
           "default" "eu-west-1" Deploy.nothingToDeploy); reflexivity.
Defined.

(** * The parameter store *)

Section Parameters.

Context {W : Type}.
Variable world : ParameterStore.World W.

Import ParameterStore.

#[local] Arguments String.append : simpl never.

(** X16.  [checkParameter] and [getParameter] read the same reply alike.
    When the service answers the two lookups of a name in the same way,
    [checkParameter] is fulfilled with true exactly when [getParameter] is
    fulfilled, with false when [getParameter] is rejected because the
    parameter was not found, and rejected when [getParameter] is rejected by
    the service, with the same error. *)
Theorem checkParameter_agrees_with_getParameter (name : string) (w : W) :
  ssm_GetParameters world [name] None w = ssm_GetParameters world [name] (Some true) w ->
  match Async.outcome (Awaiting.checkParameter world name w) with
  | Async.Resolved true =>
      exists parameter,
        Async.outcome (Awaiting.getParameter world name w) = Async.Resolved parameter
  | Async.Resolved false =>
      Async.outcome (Awaiting.getParameter world name w)
      = Async.Rejected (ThrownError (Error "Parameter not found"))
  | Async.Rejected v => Async.outcome (Awaiting.getParameter world name w) = Async.Rejected v
  | Async.Pending => False
  end.
Proof.
  intros Hsame. unfold Awaiting.checkParameter, Awaiting.getParameter, sendGetParameters.
  rewrite !AsyncFacts.async_bind_outcome, !AsyncFacts.async_send_run, Hsame.
  cbn [Async.outcome Async.final].
  destruct (fst (ssm_GetParameters world [name] (Some true) w)) as [err | data];
    [reflexivity |].
  destruct (Parameters data) as [[|parameter rest] |]; cbn; eauto.
Qed.

(** X17.  The module written with callbacks and the module written with
    [async] functions do the same.  [putParameter] and [deleteParameter] run
    alike.  [getParameter] makes the same request and leaves the same
    world; it is fulfilled in one exactly when it is in the other, with the
    same parameter; a rejection by the service is the same in both, and a
    parameter that is not found is a rejection with the string 'Parameter
    not found' in the one and with an [Error] of that message in the
    other.  [checkParameter] runs alike but for its answer to a reply
    without a list, which is [undefined] in the one and false in the
    other. *)
Theorem callbacks_and_awaiting_agree (w : W) :
  (forall params, Callbacks.putParameter world params w = Awaiting.putParameter world params w)
  /\ (forall name,
        Callbacks.deleteParameter world name w = Awaiting.deleteParameter world name w)
  /\ (forall name,
        let old := Callbacks.getParameter world name w in
        let new := Awaiting.getParameter world name w in
        requests (Async.trace old) = requests (Async.trace new)
        /\ Async.final old = Async.final new
        /\ fulfilment (Async.outcome old) = fulfilment (Async.outcome new)
        /\ forall v, Async.outcome new = Async.Rejected v ->
                     Async.outcome old = Async.Rejected v
                     \/ (v = ThrownError (Error "Parameter not found")
                         /\ Async.outcome old
                            = Async.Rejected (ThrownString "Parameter not found")))
  /\ (forall name,
        let old := Callbacks.checkParameter world name w in
        let new := Awaiting.checkParameter world name w in
        Async.trace old = Async.trace new
        /\ Async.final old = Async.final new
        /\ option_map isTrue (fulfilment (Async.outcome old))
           = fulfilment (Async.outcome new)
        /\ forall v, Async.outcome new = Async.Rejected v ->
                     Async.outcome old = Async.Rejected v).
Proof.
  split; [reflexivity |]. split; [reflexivity |]. split; intros name; cbv zeta.
  - unfold Callbacks.getParameter, Awaiting.getParameter, sendGetParameters.
    rewrite !AsyncFacts.async_bind_outcome, !AsyncFacts.async_bind_trace, !AsyncFacts.async_bind_final,
      !AsyncFacts.async_send_run.
    cbn [Async.outcome Async.final Async.trace].
    destruct (fst (ssm_GetParameters world [name] (Some true) w)) as [err | data].
    + cbn. repeat split. intros v [= <-]. now left.
    + destruct (Parameters data) as [[|parameter rest] |]; cbn; repeat split;
        try (intros v [= <-]; right; split; reflexivity); discriminate.
  - unfold Callbacks.checkParameter, Awaiting.checkParameter, sendGetParameters.
    rewrite !AsyncFacts.async_bind_outcome, !AsyncFacts.async_bind_trace, !AsyncFacts.async_bind_final,
      !AsyncFacts.async_send_run.
    cbn [Async.outcome Async.final Async.trace].
    destruct (fst (ssm_GetParameters world [name] None w)) as [err | data].
    + cbn. repeat split. intros v [= <-]. reflexivity.
    + destruct (Parameters data) as [parameters |]; cbn; repeat split; discriminate.
Qed.

End Parameters.

Lemma checkParameter_agrees_with_getParameter_witness :
  let w := [inr (ParameterStore.mkParameters
                   (Some [ParameterStore.mkParameter "ssm-param-name" "SOME_VALUE"]))] in
  match Async.outcome (ParameterStore.Awaiting.checkParameter ParameterStore.scripted
                         "ssm-param-name" w) with
  | Async.Resolved true =>
      exists parameter,
        Async.outcome (ParameterStore.Awaiting.getParameter ParameterStore.scripted
                         "ssm-param-name" w)
        = Async.Resolved parameter
  | Async.Resolved false =>
      Async.outcome (ParameterStore.Awaiting.getParameter ParameterStore.scripted
                       "ssm-param-name" w)
      = Async.Rejected (ThrownError (Error "Parameter not found"))
  | Async.Rejected v =>
      Async.outcome (ParameterStore.Awaiting.getParameter ParameterStore.scripted
                       "ssm-param-name" w)
      = Async.Rejected v
  | Async.Pending => False
  end.
Proof.
  apply (checkParameter_agrees_with_getParameter ParameterStore.scripted "ssm-param-name"
           [inr (ParameterStore.mkParameters
                   (Some [ParameterStore.mkParameter "ssm-param-name" "SOME_VALUE"]))]).
  reflexivity.
Defined.

(** * The arguments of the command line *)

Section CommandLine.

Lemma startsWith_dashes (arg : string) :
  JsString.startsWith arg "--" = true -> arg = "--" ++ Config.stripDashes arg.
Proof.
  intros H. pose proof H as H'. apply JsStringFacts.startsWith_spec in H' as [rest ->].
  unfold Config.stripDashes. rewrite H. reflexivity.
Qed.

Lemma dashes_startsWith (name : string) : JsString.startsWith ("--" ++ name) "--" = true.
Proof. apply JsStringFacts.startsWith_spec. now exists name. Qed.

Lemma eqb_dashes (arg name : string) :
  JsString.startsWith arg "--" = true ->
  (arg =? "--" ++ name)%string = (Config.stripDashes arg =? name)%string.
Proof.
  intros H. rewrite (startsWith_dashes arg H) at 1.
  destruct (Config.stripDashes arg =? name)%string eqn:E.
  - apply String.eqb_eq in E as ->. apply String.eqb_refl.
  - apply String.eqb_neq. intros [= Heq]. apply String.eqb_neq in E. contradiction.
Qed.

(** The loop from any state: what it leaves under the name [name]. *)
Lemma argv_loop (name : string) (args : list string) :
  name <> "__proto__" ->
  forall (options : JsObject.t Config.ArgValue) (tba : option string),
    JsObject.get name (fst (fold_left Config.step args (options, tba)))
    = match Config.given name args with
      | Some value => Some value
      | None =>
          match args with
          | first :: _ =>
              if match tba with
                 | Some waiting => (waiting =? name)%string
                 | None => false
                 end
                 && negb (name =? "")%string && negb (JsString.startsWith first "--")
              then Some (Config.Text first)
              else JsObject.get name options
          | [] => JsObject.get name options
          end
      end.
Proof.
  intros Hproto. apply String.eqb_neq in Hproto.
  induction args as [|arg rest IH]; intros options tba; [reflexivity |].
  cbn [fold_left Config.given]. unfold Config.step at 2.
  destruct (JsString.startsWith arg "--") eqn:Hflag.
  - rewrite IH, (eqb_dashes arg name Hflag), andb_false_r.
    destruct (Config.given name rest) as [value |]; [reflexivity |].
    rewrite JsObjectFacts.get_set.
    destruct (Config.stripDashes arg =? name)%string eqn:E; cbn [andb].
    + apply String.eqb_eq in E. rewrite E.
      rewrite Hproto. cbn [negb].
      destruct rest as [|next rest]; [reflexivity |].
      destruct (name =? "")%string, (JsString.startsWith next "--"); reflexivity.
    + destruct rest as [|next rest]; reflexivity.
  - rewrite IH.
    assert (Hne : (arg =? "--" ++ name)%string = false).
    { apply String.eqb_neq. intros ->. rewrite dashes_startsWith in Hflag. discriminate. }
    rewrite Hne, andb_true_r.
    destruct (Config.given name rest) as [value |]; [reflexivity |].
    assert (Hrest : forall x : option Config.ArgValue,
               match rest with
               | [] => x
               | first :: _ =>
                   if false && negb (name =? "")%string
                      && negb (JsString.startsWith first "--")
                   then Some (Config.Text first)
                   else x
               end = x) by (intros x; destruct rest; reflexivity).
    rewrite Hrest. clear Hrest.
    destruct tba as [waiting |]; [| reflexivity].
    cbn [truthy interpolate].
    destruct (waiting =? name)%string eqn:E.
    + apply String.eqb_eq in E as ->.
      destruct (name =? "")%string eqn:Hempty; cbn [negb andb]; [reflexivity |].
      rewrite JsObjectFacts.get_set, String.eqb_refl. now rewrite Hproto.
    + cbn [andb]. destruct (negb (waiting =? "")%string); [| reflexivity].
      rewrite JsObjectFacts.get_set, E. reflexivity.
Qed.

(** An option [--__proto__] changes nothing. *)
Lemma proto_stays_out (args : list string) :
  forall (options : JsObject.t Config.ArgValue) (tba : option string),
    JsObject.get "__proto__" options = None ->
    JsObject.get "__proto__" (fst (fold_left Config.step args (options, tba))) = None.
Proof.
  induction args as [|arg rest IH]; intros options tba Hnone; [exact Hnone |].
  cbn [fold_left]. unfold Config.step at 2.
  destruct (JsString.startsWith arg "--").
  - apply IH. rewrite JsObjectFacts.get_set.
    destruct (Config.stripDashes arg =? "__proto__")%string; exact Hnone.
  - apply IH. destruct (truthy tba); [| exact Hnone].
    rewrite JsObjectFacts.get_set.
    destruct (interpolate tba =? "__proto__")%string; exact Hnone.
Qed.

(** X18.  What [argv] holds for an option is what the command line says
    about it last: the argument after the last [--name], or [true] when
    that argument is missing or is an option itself.  Arguments that follow
    no option leave nothing behind, the option [--] never takes a value, and
    the option [--__proto__] leaves no property. *)
Theorem argv_holds_what_is_given_last (args : list string) (name : string) :
  JsObject.get name (Config.argv args)
  = if (name =? "__proto__")%string then None else Config.given name args.
Proof.
  unfold Config.argv.
  destruct (name =? "__proto__")%string eqn:Hproto.
  - apply String.eqb_eq in Hproto as ->. apply proto_stays_out. reflexivity.
  - apply String.eqb_neq in Hproto. rewrite (argv_loop name args Hproto).
    destruct (Config.given name args); [reflexivity |].
    destruct args as [|first rest]; reflexivity.
Qed.

End CommandLine.

(** * The tests of the repository, replayed *)

Module ReplayMore.

(** "describes output" *)
Example describes_output :
  let stack := Scripted.stackIn "StackName" "DELETE_COMPLETE"
                 (Some [mkOutput "Property1" "Value1"; mkOutput "Property2" "Value2";
                        mkOutput "Property3" "Value3"]) in
  outcome (describeOutput Scripted.world "StackName" (Fixtures.describing [inr stack]))
  = Resolved [("Property1", "Value1"); ("Property2", "Value2"); ("Property3", "Value3")].
Proof. reflexivity. Qed.

(** "deploys stack - no changes to deploy" *)
Example deploys_stack_no_changes :
  let w := Fixtures.describing [inr (Scripted.stackIn "StackName" "DELETE_COMPLETE" None)] in
  let host := Deploy.fixedHost (Deploy.mkChild [(Deploy.stderr, "No changes to deploy")]
                                               (Some 1)) in
  let r := Deploy.deployStack Scripted.world host "StackName" "location/of/StackName.yaml"
             (Some [mkStackParameter "ParameterKey" "ParameterValue"]) w in
  Async.outcome r = Async.Resolved (Some (mkStack "StackName" "DELETE_COMPLETE" None))
  /\ Async.trace r
     = [Deploy.ConfigGet "AWS_PROFILE" (inr "default");
        Deploy.ConfigGet "AWS_REGION" (inr "eu-west-1");
        Deploy.Spawn "aws"
          ["cloudformation"; "deploy"; "--profile"; "default"; "--region"; "eu-west-1";
           "--template-file"; "location/of/StackName.yaml"; "--stack-name"; "StackName";
           "--capabilities"; "CAPABILITY_IAM"; "CAPABILITY_NAMED_IAM";
           " --parameter-overrides";
           "ParameterKey=" ++ String quote ("ParameterValue" ++ String quote " ")]
          true
          (Deploy.mkChild [(Deploy.stderr, "No changes to deploy")] (Some 1));
        Deploy.ConsoleLog "No changes to deploy";
        Deploy.Provider
          (Log level_info [LogString "There are no changes to apply, continuing...."]);
        Deploy.Provider
          (DescribeStacksCommand "StackName"
             (inr (Scripted.stackIn "StackName" "DELETE_COMPLETE" None)))].
Proof. vm_compute. split; reflexivity. Qed.

(** "fails to deploys stack - aws cli" *)
Example fails_to_deploy_stack :
  let host := Deploy.fixedHost (Deploy.mkChild [(Deploy.stderr, "Ignore: Some testing error")]
                                               (Some 1)) in
  Async.outcome (Deploy.deployStack Scripted.world host "StackName"
                   "location/of/StackName.yaml"
                   (Some [mkStackParameter "ParameterKey" "ParameterValue"])
                   (Fixtures.describing []))
  = Async.Rejected (ThrownString "Stack deploy failed").
Proof. vm_compute. reflexivity. Qed.

(** "empties bucket", for a bucket without versioning: one listing that
    shows one object and comes back without a token. *)
Example empties_bucket :
  let listing := inr (S3.mkListing (Some [S3.mkObject "object_key"]) None) in
  let w := S3.Scripted.mkScript (inr (S3.mkVersioning (Some "Suspended"))) [listing] [] in
  let r := S3.emptyBucket S3.Scripted.world 2 "bucket-name" w in
  Async.outcome r = Async.Resolved tt
  /\ Async.trace r
     = [S3.GetBucketVersioningCommand "bucket-name" (inr (S3.mkVersioning (Some "Suspended")));
        S3.ListObjectsV2Command "bucket-name" None listing;
        S3.DeleteObjectsCommand "bucket-name" [S3.mkIdentifier "object_key" None] (inr tt)].
Proof. vm_compute. split; reflexivity. Qed.

(** A bucket with versioning and two pages, whose objects have no
    versions to show: the second page is not asked for and stays. *)
Example versioned_bucket_keeps_second_page :
  let r := S3.emptyBucket S3.Scripted.world 5 "bucket"
                          (S3.Scripted.twoPages (Some "Enabled")) in
  let none := inr (S3.mkVersions None None None) in
  Async.outcome r = Async.Resolved tt
  /\ Async.trace r
     = [S3.GetBucketVersioningCommand "bucket" (inr (S3.mkVersioning (Some "Enabled")));
        S3.ListObjectsV2Command "bucket" None (S3.Scripted.page "a" "b" (Some "token-1"));
        S3.ListObjectVersionsCommand "bucket" (S3.PrefixKey "a") 1 None None none;
        S3.ListObjectVersionsCommand "bucket" (S3.PrefixKey "b") 1 None None none]
  /\ S3.Scripted.pages (Async.final r) = [S3.Scripted.page "c" "d" None].
Proof. vm_compute. repeat split; reflexivity. Qed.

(** "deletes versioned objects": the versions of [key_1] come in two
    pages and those of [key_2] in one; here the oldest request is answered
    first. *)
Example deletes_versioned_objects :
  let world := S3.Scripted.worldWhere S3.Scripted.versionsByKey (fun _ => 0%nat) in
  let w := S3.Scripted.mkScript (inr (S3.mkVersioning (Some "Enabled"))) [] [] in
  let r := S3.deleteVersionedObjects world 6 "bucketName"
             [S3.mkIdentifier "key_1" None; S3.mkIdentifier "key_2" None] w in
  Async.outcome r = Async.Resolved tt
  /\ Async.trace r
     = [S3.ListObjectVersionsCommand "bucketName" (S3.PrefixKey "key_1") 1 None None
          (inr (S3.mkVersions (Some [S3.mkVersion "key_1" None])
                              (Some "NextKeyMarker") (Some "NextVersionIdMarker")));
        S3.DeleteObjectsCommand "bucketName" [S3.mkIdentifier "key_1" None] (inr tt);
        S3.ListObjectVersionsCommand "bucketName" (S3.PrefixKey "key_1") 1
          (Some "NextKeyMarker") (Some "NextVersionIdMarker")
          (inr (S3.mkVersions (Some [S3.mkVersion "key_1" (Some "object_version_id")])
                              None None));
        S3.DeleteObjectsCommand "bucketName"
          [S3.mkIdentifier "key_1" (Some "object_version_id")] (inr tt);
        S3.ListObjectVersionsCommand "bucketName" (S3.PrefixKey "key_2") 1 None None
          (inr (S3.mkVersions (Some [S3.mkVersion "key_2" None]) None None));
        S3.DeleteObjectsCommand "bucketName" [S3.mkIdentifier "key_2" None] (inr tt)].
Proof. vm_compute. split; reflexivity. Qed.

(** "parameter not found" *)
Example parameter_not_found :
  let w := [inr (ParameterStore.mkParameters (Some []));
            inr (ParameterStore.mkParameters None)] in
  let first := ParameterStore.Awaiting.getParameter ParameterStore.scripted
                 "ssm-param-name" w in
  let second := ParameterStore.Awaiting.getParameter ParameterStore.scripted
                  "ssm-param-name" (Async.final first) in
  Async.outcome first = Async.Rejected (ThrownError (Error "Parameter not found"))
  /\ Async.outcome second = Async.Rejected (ThrownError (Error "Parameter not found"))
  /\ Async.outcome (ParameterStore.Awaiting.checkParameter ParameterStore.scripted
                      "ssm-param-name" w)
     = Async.Resolved false.
Proof. vm_compute. repeat split; reflexivity. Qed.

(** A command line with a profile, a switch, a region and an argument
    that follows no option. *)
Example reads_command_line :
  Config.argv ["node"; "deploy.js"; "--profile"; "dev"; "--verbose"; "--region";
               "eu-west-1"; "extra"]
  = [("profile", Config.Text "dev"); ("verbose", Config.Flag);
     ("region", Config.Text "eu-west-1")].
Proof. reflexivity. Qed.

End ReplayMore.
